(** * TERN UAV data backup: reorganisation and integrity engine

    A shallow embedding of the algorithmic core of
    [TERNUAV_DataBackupAutomation_V3_251111.py]: the required-extension
    classifier of the LiDAR and RGB transfers, the TIFF corruption scan,
    the series packer of the multi-spectral transfer, and the directory
    comparison of the backup stage.

    Conventions of the embedding.
    - Python [str] values are [string]s, read as sequences of code points
      below 256; comparison is by code point, as in Python.
    - Python [dict]s whose iteration order is observed are association
      lists in insertion order; dicts and sets that are only looked up are
      [gmap]s and [gset]s.
    - The file system is explicit: directory listings are inputs, the
      destination is the set of paths that exist, and the outcome of each
      [shutil.copy2] is given by an oracle, since a copy may raise.
    - Paths are POSIX paths ([os.sep] is "/"). *)

From Stdlib Require Import ZArith Lia Permutation Ascii String.
From Stdlib.Strings Require Import Byte.
From stdpp Require Import gmap strings list fin_maps pretty sorting.

Local Open Scope string_scope.
Local Open Scope list_scope.
Local Open Scope nat_scope.

(** ** Python string primitives *)

Module Py.

(** [c in s] for a one-character [c]. *)
Fixpoint contains (c : ascii) (s : string) : bool :=
  match s with
  | "" => false
  | String a s' => if decide (a = c) then true else contains c s'
  end.

(** [s.split(c)]: never empty, one more piece than occurrences of [c]. *)
Fixpoint split (c : ascii) (s : string) : list string :=
  match s with
  | "" => [""]
  | String a s' =>
      if decide (a = c) then "" :: split c s'
      else match split c s' with
           | h :: t => String a h :: t
           | [] => [String a ""]
           end
  end.

(** [l[-1]] on a list of strings; [IndexError] on the empty list is
    [None]. *)
Definition last_item (l : list string) : option string := last l.

(** [l[-2]]. *)
Definition item_m2 (l : list string) : option string :=
  match reverse l with
  | _ :: x :: _ => Some x
  | _ => None
  end.

(** The split point of [s.rsplit(c, 1)]: the text before and after the
    last [c], or [None] when [c] does not occur. *)
Fixpoint rsplit_at (c : ascii) (s : string) : option (string * string) :=
  match s with
  | "" => None
  | String a s' =>
      match rsplit_at c s' with
      | Some (h, t) => Some (String a h, t)
      | None => if decide (a = c) then Some ("", s') else None
      end
  end.

(** [s.rsplit(c, 1)]. *)
Definition rsplit1 (c : ascii) (s : string) : list string :=
  match rsplit_at c s with
  | Some (h, t) => [h; t]
  | None => [s]
  end.

(** [s.rsplit(c, 1)[0]]. *)
Definition rsplit1_head (c : ascii) (s : string) : string :=
  match rsplit_at c s with
  | Some (h, _) => h
  | None => s
  end.

Definition upper_char (a : ascii) : ascii :=
  let n := nat_of_ascii a in
  if (97 <=? n)%nat && (n <=? 122)%nat then ascii_of_nat (n - 32) else a.

(** [s.upper()] on ASCII text: the letters a to z are mapped, any other
    code point is left alone. It stands for [str.upper] only where the
    result is compared with ASCII text that no other letter below 256
    maps into, as in the test for the endings .TIF and .TIFF, and on the
    ASCII names of the examples. *)
Fixpoint upper (s : string) : string :=
  match s with
  | "" => ""
  | String a s' => String (upper_char a) (upper s')
  end.

(** [s.endswith(suffix)]. *)
Definition endswith (s suffix : string) : bool :=
  let n := String.length s in
  let m := String.length suffix in
  (m <=? n)%nat && bool_decide (substring (n - m) m s = suffix).

End Py.

(** ** FileClassifier: required extensions of a source folder

    [transfer_lidar_data] and [transfer_p1_rgb_data] run the same two
    lines on the file names of a folder:
    [present_extensions = {f.split('.')[-1].upper() for f in files if '.' in f}]
    and [missing = [ext for ext in REQUIRED if ext not in present_extensions]];
    the folder is copied when [missing] is empty. *)

Module Classifier.

Definition LIDAR_REQUIRED_FILES : list string :=
  ["MRK"; "RPT"; "CLC"; "CLI"; "DBG"; "IMU"; "LDR";
   "LDRT"; "RPOS"; "RTB"; "RTK"; "RTL"; "RTS"; "SIG"; "JPG"].

Definition P1_REQUIRED_FILES : list string :=
  ["NAV"; "OBS"; "BIN"; "MRK"; "JPG"].

(** [f.split('.')[-1]]: the text after the last dot. *)
Definition last_dot_part (f : string) : string :=
  default "" (Py.last_item (Py.split "." f)).

Definition has_dot (f : string) : bool := Py.contains "." f.

Record classification := Classification {
  passed : bool;                 (* the [else] branch of [if missing:] *)
  missing_types : list string    (* the list that is reported *)
}.

Section classify.
(** [str.upper]. It maps letters outside ASCII too, and not always to
    one character, so the classification is written over the function
    itself; on ASCII text it is [Py.upper]. *)
Variable upper : string → string.

Definition present_extensions (files : list string) : gset string :=
  list_to_set ((λ f, upper (last_dot_part f))
                 <$> filter (λ f, has_dot f = true) files).

Definition missing (required files : list string) : list string :=
  filter (λ ext, ext ∉ present_extensions files) required.

Definition classify (required files : list string) : classification :=
  let m := missing required files in
  Classification (bool_decide (m = [])) m.

End classify.

(** [folder_name.split('-')[-2]], with [IndexError] giving "UNKNOWN". *)
Definition extract_plot_id (folder_name : string) : string :=
  default "UNKNOWN" (Py.item_m2 (Py.split "-" folder_name)).

End Classifier.

(** ** CorruptionScanner: the TIFF check of [transfer_micasense_data]

    The check of one transferred file (the body of the innermost loop of
    the corruption scan) reads the file system four times; the answers
    are the fields of [file_view]. A call that raises is caught by the
    [except Exception] around the checks. *)

Module Scanner.

Inductive io (A : Type) : Type :=
| Returns (a : A)
| Raises (msg : string).
Arguments Returns {A} a.
Arguments Raises {A} msg.

Record file_view := FileView {
  path_exists : bool;          (* [os.path.exists(file_path)] *)
  getsize : io N;              (* [os.path.getsize(file_path)] *)
  contents : io (list byte);   (* [open(file_path, 'rb')]: the bytes *)
  pil_verify : io unit         (* [Image.open(file_path)], [img.verify()] *)
}.

#[global] Instance byte_eq_dec : EqDecision byte := Byte.byte_eq_dec.

(** The two-byte halves of the two TIFF magic numbers. *)
Definition II : list byte := [x49; x49].
Definition star_nul : list byte := [x2a; x00].
Definition MM : list byte := [x4d; x4d].
Definition nul_star : list byte := [x00; x2a].

(** [header[a:b]] for [0 <= a <= b]. *)
Definition slice (a b : nat) (l : list byte) : list byte :=
  take (b - a) (drop a l).

Definition valid_magic (header : list byte) : bool :=
  (bool_decide (slice 0 2 header = II)
     && bool_decide (slice 2 4 header = star_nul))
  || (bool_decide (slice 0 2 header = MM)
        && bool_decide (slice 2 4 header = nul_star)).

(** [str(e)[:30]]. *)
Definition first30 (msg : string) : string := substring 0 30 msg.

(** The reason recorded for the file, [None] when every check passes. *)
Definition check_tif (PIL_AVAILABLE : bool) (v : file_view) : option string :=
  if negb (path_exists v) then Some "File not found"
  else match getsize v with
  | Raises e => Some ("Read error: " +:+ first30 e)
  | Returns file_size =>
    if (file_size =? 0)%N then Some "Zero size"
    else match contents v with
    | Raises e => Some ("Read error: " +:+ first30 e)
    | Returns bytes =>
      let header := take 4 bytes in                    (* [f.read(4)] *)
      if (length header <? 4)%nat then Some "Invalid header (too short)"
      else if negb (valid_magic header) then Some "Invalid TIFF header"
      else if PIL_AVAILABLE then
        match pil_verify v with
        | Raises e => Some ("PIL verification failed: " +:+ first30 e)
        | Returns _ => None
        end
      else None
    end
  end.

Record corrupt_entry := CorruptEntry {
  ce_file : string;
  ce_folder : string;
  ce_plot : string;
  ce_reason : string
}.

Definition is_tif_name (filename : string) : bool :=
  Py.endswith (Py.upper filename) ".TIF"
  || Py.endswith (Py.upper filename) ".TIFF".

(** The loop over one output folder: [folder_corrupted] and the number
    of files checked. [view] answers for a file name of the folder. *)
Definition scan_folder (PIL_AVAILABLE : bool) (plot_id output_folder : string)
    (view : string → file_view) (listing : list string)
    : list corrupt_entry * nat :=
  foldl (λ '(folder_corrupted, checked) filename,
           if is_tif_name filename then
             match check_tif PIL_AVAILABLE (view filename) with
             | Some reason =>
                 ((folder_corrupted
                    ++ [CorruptEntry filename output_folder plot_id reason]),
                  S checked)
             | None => (folder_corrupted, S checked)
             end
           else (folder_corrupted, checked))
        ([], 0%nat) listing.

End Scanner.

(** ** TreeDiffer: [compare_directories]

    A directory tree is given by its walk: one entry per file that
    [os.walk] yields, with the path relative to the root, the size of the
    file, and whether [os.path.getsize] raises [OSError] for it. *)

Module TreeDiffer.

Record walk_entry := WalkEntry {
  rel_path : string;
  true_size : N;
  getsize_raises : bool
}.

(** The inner [get_file_list]: a file whose size query raises is
    passed over. *)
Definition get_file_list (walk : list walk_entry) : gmap string N :=
  foldl (λ files e,
           if getsize_raises e then files
           else <[rel_path e := true_size e]> files)
        ∅ walk.

(** [s.rstrip(c)]. *)
Fixpoint rstrip (c : ascii) (s : string) : string :=
  match s with
  | "" => ""
  | String a s' =>
      match rstrip c s' with
      | "" => if decide (a = c) then "" else String a ""
      | r => String a r
      end
  end.

Fixpoint all_char (c : ascii) (s : string) : bool :=
  match s with
  | "" => true
  | String a s' => bool_decide (a = c) && all_char c s'
  end.

(** [os.path.dirname] of [posixpath]. *)
Definition dirname (p : string) : string :=
  match Py.rsplit_at "/" p with
  | None => ""
  | Some (h, _) =>
      let head := h +:+ "/" in
      if all_char "/" head then head else rstrip "/" head
  end.

(** [os.path.dirname(file_path).split(os.sep)[0] if os.sep in file_path
    else file_path]. *)
Definition top_folder (file_path : string) : string :=
  if Py.contains "/" file_path
  then default "" (head (Py.split "/" (dirname file_path)))
  else file_path.

Record diff_result := DiffResult {
  only_in_1 : gset string;
  only_in_2 : gset string;
  size_diff : gset string;
  affected_folders : gset (string * string);
  is_identical : bool
}.

Definition tagged (tag : string) (paths : gset string) : gset (string * string) :=
  set_map (λ file_path, (top_folder file_path, tag)) paths.

(** Truth value of a Python set or list: non-empty. *)
Definition truthy (X : gset string) : bool := negb (bool_decide (X = ∅)).

Definition compare_directories (walk1 walk2 : list walk_entry) : diff_result :=
  let files1 := get_file_list walk1 in
  let files2 := get_file_list walk2 in
  let only_in_1 := dom files1 ∖ dom files2 in
  let only_in_2 := dom files2 ∖ dom files1 in
  let common := dom files1 ∩ dom files2 in
  let size_diff := filter (λ f, files1 !! f ≠ files2 !! f) common in
  let affected_folders :=
    tagged "Missing in backup" only_in_1
    ∪ tagged "Extra in backup" only_in_2
    ∪ tagged "Size mismatch" size_diff in
  DiffResult only_in_1 only_in_2 size_diff affected_folders
    (negb (truthy only_in_1 || truthy only_in_2 || truthy size_diff)).

End TreeDiffer.

(** ** SeriesPacker: the copy stage of [transfer_micasense_data] *)

Module Packer.

(** The dict appended to [files_by_plot[plot_id]]. *)
Record tif_file := TifFile {
  filename : string;
  full_path : string;
  camera : string;
  source_set : string;
  source_folder : string
}.

#[global] Instance tif_file_eq_dec : EqDecision tif_file.
Proof. solve_decision. Defined.

(** [f.upper().endswith(('.TIF', '.TIFF'))]. *)
Definition is_tif_name (f : string) : bool :=
  Py.endswith (Py.upper f) ".TIF" || Py.endswith (Py.upper f) ".TIFF".

(** One step of [posixpath.join]. *)
Definition join2 (path b : string) : string :=
  if String.prefix "/" b then b
  else if bool_decide (path = "") || Py.endswith path "/" then path +:+ b
  else path +:+ "/" +:+ b.

(** [os.path.join(a, *ps)]. *)
Definition path_join (a : string) (ps : list string) : string :=
  foldl join2 a ps.

(** [posixpath.split]: the head as [posixpath.dirname] gives it, and the
    text after the last separator. *)
Definition posix_split (p : string) : string * string :=
  (TreeDiffer.dirname p,
   match Py.rsplit_at "/" p with
   | Some (_, tail) => tail
   | None => p
   end).

(** The directories that exist once [os.makedirs(name, exist_ok=True)]
    has returned: [name] and, by its recursion on the head of
    [posixpath.split], every parent of [name]. The library makes only
    the directories that are missing; the others exist already. Each
    head is shorter than its path, so the length of [name] bounds the
    recursion. *)
Fixpoint makedirs_chain (fuel : nat) (name : string) : list string :=
  match fuel with
  | 0 => [name]
  | S fuel' =>
      let '(head, tail) := posix_split name in
      let '(head, tail) :=
        if bool_decide (tail = "") then posix_split head else (head, tail) in
      (if negb (bool_decide (head = "")) && negb (bool_decide (tail = ""))
       then makedirs_chain fuel' head else [])
      ++ [name]
  end.

Definition made_dirs (name : string) : list string :=
  makedirs_chain (String.length name) name.

(** [str(n).zfill(3)]. *)
Definition zfill3 (n : nat) : string :=
  let s := pretty n in
  String.concat "" (replicate (3 - String.length s) "0") +:+ s.

(** *** Names and series *)

Definition ascii_digit (a : ascii) : bool :=
  let n := nat_of_ascii a in (48 <=? n)%nat && (n <=? 57)%nat.

(** Below 256, [str.isdigit] also accepts the superscripts 2, 3 and 1,
    which [int] rejects with [ValueError]. *)
Definition isdigit_char (a : ascii) : bool :=
  ascii_digit a
  || bool_decide (nat_of_ascii a = 178%nat)
  || bool_decide (nat_of_ascii a = 179%nat)
  || bool_decide (nat_of_ascii a = 185%nat).

Fixpoint all_chars (p : ascii → bool) (s : string) : bool :=
  match s with
  | "" => true
  | String a s' => p a && all_chars p s'
  end.

(** [s.isdigit()]: false on the empty string. *)
Definition isdigit (s : string) : bool :=
  negb (bool_decide (s = "")) && all_chars isdigit_char s.

Fixpoint int_digits (acc : N) (s : string) : N :=
  match s with
  | "" => acc
  | String a s' => int_digits (10 * acc + (N.of_nat (nat_of_ascii a) - 48)) s'
  end.

(** [int(s)] for a string accepted by [isdigit]; [None] is [ValueError]. *)
Definition int_of (s : string) : option N :=
  if all_chars ascii_digit s then Some (int_digits 0 s) else None.

(** [filename.rsplit('.', 1)[0]]. *)
Definition name_without_ext (filename : string) : string :=
  Py.rsplit1_head "." filename.

(** The [try] block at the head of the loop body: [(base_name, series_num)]. *)
Definition parse_name (filename : string) : string * option N :=
  let name_without_ext := name_without_ext filename in
  if Py.contains "_" name_without_ext then
    match Py.rsplit_at "_" name_without_ext with
    | Some (parts0, parts1) =>
        if isdigit parts1 then
          match int_of parts1 with
          | Some n => (parts0, Some n)
          | None => (name_without_ext, None)      (* [except ValueError] *)
          end
        else (parts0, None)
    | None => (name_without_ext, None)            (* [except IndexError] *)
    end
  else (name_without_ext, None).

(** The test of the look-ahead loop on [check_file]. *)
Definition same_series (base_name : string) (f : tif_file) : bool :=
  let check_name := name_without_ext (filename f) in
  Py.contains "_" check_name
  && bool_decide (Py.rsplit1_head "_" check_name = base_name).

(** A [for] loop that counts and [break]s at the first failure. *)
Fixpoint count_while {A} (p : A → bool) (l : list A) : nat :=
  match l with
  | x :: l' => if p x then S (count_while p l') else 0
  | [] => 0
  end.

(** *** The copy loop *)

(** What [shutil.copy2(src, dst)] does: it returns, or it raises, and
    then it may or may not have created [dst]. *)
Inductive copy_result :=
| CopyDone
| CopyRaised (dst_left : bool).

Inductive outcome := Copied | Skipped | Failed.

#[global] Instance outcome_eq_dec : EqDecision outcome.
Proof. solve_decision. Defined.

(** One pass of the inner copy loop. *)
Record placement := Placement {
  pl_file : tif_file;
  pl_folder : nat;       (* [current_folder_num] when it ran *)
  pl_dst : string;
  pl_outcome : outcome
}.

Record state := State {
  i : nat;
  current_folder_num : nat;
  current_folder_count : nat;
  summary : list (string * nat);   (* [{'Folder': ..., 'Files': ...}] *)
  total_copied : nat;
  total_skipped : nat;
  dest : gset string;              (* the paths that exist *)
  log : list placement
}.

(** [{[p]} ∪ X], the set of paths once [p] exists, by one insertion. *)
Definition add_path (p : string) (X : gset string) : gset string :=
  mapset.Mapset (<[p := ()]> (mapset.mapset_car X)).

(** The set of paths once [os.makedirs(name, exist_ok=True)] has
    returned. *)
Definition add_dirs (name : string) (X : gset string) : gset string :=
  foldr add_path X (made_dirs name).

Definition counted (p : placement) : bool :=
  negb (bool_decide (pl_outcome p = Failed)).

Section pack.
Variable all_tif_files : list tif_file.
Variable MAX_FILES_PER_FOLDER : nat.
Variables base_target_dir plot_id today_str : string.
(** Whether [os.makedirs(path, exist_ok=True)] raises for a path. *)
Variable makedirs_raises : string → bool.
Variable copy2 : string → string → copy_result.

(** [series_count] once the look-ahead has run at cursor [i]. *)
Definition series_count (i : nat) : nat :=
  match all_tif_files !! i with
  | None => 0
  | Some file_info =>
      match parse_name (filename file_info) with
      | (base_name, Some _) =>
          count_while (same_series base_name) (take 11 (drop i all_tif_files))
      | (_, None) => 1
      end
  end.

(** "Move to next folder". *)
Definition rollover (st : state) : state :=
  State (i st) (current_folder_num st + 1) 0
    (summary st
       ++ [(zfill3 (current_folder_num st), current_folder_count st)])
    (total_copied st) (total_skipped st) (dest st) (log st).

Definition target_path (folder_num : nat) : string :=
  path_join base_target_dir
    [plot_id; today_str; "imagery"; "multispec"; "level0_raw";
     zfill3 folder_num].

(** The body of [for j in range(i, min(i + series_count, len(...)))]. *)
Definition copy_one (st : state) (file_to_copy : tif_file) : state :=
  let src := full_path file_to_copy in
  let dst := join2 (target_path (current_folder_num st))
               (filename file_to_copy) in
  let entry := Placement file_to_copy (current_folder_num st) dst in
  if decide (dst ∈ dest st) then
    State (i st) (current_folder_num st) (current_folder_count st + 1)
      (summary st) (total_copied st) (total_skipped st + 1)
      (dest st) (log st ++ [entry Skipped])
  else
    match copy2 src dst with
    | CopyDone =>
        State (i st) (current_folder_num st) (current_folder_count st + 1)
          (summary st) (total_copied st + 1) (total_skipped st)
          (add_path dst (dest st)) (log st ++ [entry Copied])
    | CopyRaised dst_left =>
        State (i st) (current_folder_num st) (current_folder_count st)
          (summary st) (total_copied st) (total_skipped st)
          (if dst_left then add_path dst (dest st) else dest st)
          (log st ++ [entry Failed])
    end.

Definition must_roll (st : state) (series_count : nat) : bool :=
  (0 <? current_folder_count st)%nat
  && (MAX_FILES_PER_FOLDER <? current_folder_count st + series_count)%nat.

Definition advance (n : nat) (st : state) : state :=
  State (i st + n) (current_folder_num st) (current_folder_count st)
    (summary st) (total_copied st) (total_skipped st) (dest st) (log st).

(** [os.makedirs(target_path, exist_ok=True)] of line 1406, when it
    returns: the folder of the current index and its parents exist. *)
Definition makedirs (st : state) : state :=
  State (i st) (current_folder_num st) (current_folder_count st)
    (summary st) (total_copied st) (total_skipped st)
    (add_dirs (target_path (current_folder_num st)) (dest st)) (log st).

(** The state after the look-ahead and the test of the cap. *)
Definition rolled (st : state) : state :=
  if must_roll st (series_count (i st)) then rollover st else st.

(** One iteration of [while i < len(all_tif_files)] in which
    [os.makedirs] returns. *)
Definition turn (st : state) : state :=
  let series_count := series_count (i st) in
  let st1 := makedirs (rolled st) in
  let st2 := foldl copy_one st1
               (take series_count (drop (i st) all_tif_files)) in
  advance series_count st2.

(** One iteration of the loop. [os.makedirs] stands outside the [try]:
    when it raises the function is left at once, [None]. *)
Definition body (st : state) : option state :=
  if makedirs_raises (target_path (current_folder_num (rolled st)))
  then None
  else Some (turn st).

Fixpoint while_loop (fuel : nat) (st : state) : option state :=
  match fuel with
  | 0 => if (i st <? length all_tif_files)%nat then None else Some st
  | S fuel' =>
      if (i st <? length all_tif_files)%nat
      then body st ≫= while_loop fuel'
      else Some st
  end.

(** "Add final folder to summary". *)
Definition finish (st : state) : state :=
  if (0 <? current_folder_count st)%nat then
    State (i st) (current_folder_num st) (current_folder_count st)
      (summary st
         ++ [(zfill3 (current_folder_num st), current_folder_count st)])
      (total_copied st) (total_skipped st) (dest st) (log st)
  else st.

Definition initial (dest0 : gset string) : state :=
  State 0 0 0 [] 0 0 dest0 [].

(** Lines 1348 to 1438 for one file list: the final state, or [None]
    when [os.makedirs] raised and no summary is reached. *)
Definition pack (dest0 : gset string) : option state :=
  finish <$> while_loop (length all_tif_files) (initial dest0).

End pack.

End Packer.

(** ** The multi-spectral pipeline around the packer *)

Module Pipeline.
Import Packer.

(** [list.sort(key=...)] and [sorted(...)] on string keys: the stable
    sort, written as insertion sort. *)
Fixpoint insert_by {A} (key : A → string) (x : A) (l : list A) : list A :=
  match l with
  | [] => [x]
  | y :: l' =>
      if String.leb (key x) (key y) then x :: l else y :: insert_by key x l'
  end.

Definition sort_by {A} (key : A → string) (l : list A) : list A :=
  foldr (insert_by key) [] l.

Definition sorted_strings (l : list string) : list string := sort_by id l.

(** One value of [set_assignments]. *)
Record assignment := Assignment {
  a_plot_id : string;
  numbered_folders : list string
}.

Record plot_summary := PlotSummary {
  folders : list (string * nat);
  ps_total_copied : nat;
  ps_total_skipped : nat
}.

Record transfer_result := TransferResult {
  all_summaries : list (string * plot_summary);
  grand_total_copied : nat;
  grand_total_skipped : nat;
  final_dest : gset string;
  placements : list placement
}.

Definition MAX_FILES_PER_FOLDER : nat := 2200.

Section transfer.
Variables red_source_folder blue_source_folder : string.
Variables base_target_dir today_str : string.
(** [os.listdir] of a source folder; [None] when [os.path.exists]
    is false. *)
Variable listdir : string → option (list string).

(** The listing of one camera's numbered folder, appended to
    [files_by_plot[plot_id]]. *)
Definition add_camera (camera source set_folder num_folder plot_id : string)
    (files_by_plot : gmap string (list tif_file))
    : gmap string (list tif_file) :=
  let folder_path := path_join source [set_folder; num_folder] in
  match listdir folder_path with
  | None => files_by_plot
  | Some names =>
      alter (λ l, l ++ ((λ f, TifFile f (join2 folder_path f) camera
                                set_folder num_folder)
                          <$> filter (λ f, is_tif_name f = true) names))
            plot_id files_by_plot
  end.

Definition collect_set (files_by_plot : gmap string (list tif_file))
    (item : string * assignment) : gmap string (list tif_file) :=
  let '(set_folder, a) := item in
  let plot_id := a_plot_id a in
  let files_by_plot :=
    if decide (plot_id ∈ dom files_by_plot) then files_by_plot
    else <[plot_id := []]> files_by_plot in
  foldl (λ fbp num_folder,
           add_camera "BLUE" blue_source_folder set_folder num_folder plot_id
             (add_camera "RED" red_source_folder set_folder num_folder
                plot_id fbp))
        files_by_plot (numbered_folders a).

(** [files_by_plot] after the collection loop over
    [set_assignments.items()]. *)
Definition collect (set_assignments : list (string * assignment))
    : gmap string (list tif_file) :=
  foldl collect_set ∅ set_assignments.

(** The plots in the order of [sorted(files_by_plot.keys())]. *)
Definition plot_order (files_by_plot : gmap string (list tif_file))
    : list string :=
  sorted_strings (elements (dom files_by_plot)).

(** From the confirmed assignment to the combined summary. The
    [for plot_id in sorted(files_by_plot.keys())] loop holds only the
    in-place sort and the progress prints; the reorganisation that
    follows it is at function level, so it runs once, on the
    [plot_id] and [all_tif_files] that the loop leaves bound: those of
    the last plot. With no plot the names are unbound and the
    function raises, as it does when [os.makedirs] raises: [None]. *)
Definition transfer (set_assignments : list (string * assignment))
    (makedirs_raises : string → bool)
    (copy2 : string → string → copy_result) (dest0 : gset string)
    : option transfer_result :=
  let files_by_plot := sort_by filename <$> collect set_assignments in
  match last (plot_order files_by_plot) with
  | None => None
  | Some plot_id =>
      let all_tif_files := default [] (files_by_plot !! plot_id) in
      match pack all_tif_files MAX_FILES_PER_FOLDER base_target_dir
              plot_id today_str makedirs_raises copy2 dest0 with
      | None => None
      | Some st =>
          Some (TransferResult
                  [(plot_id,
                    PlotSummary (summary st) (total_copied st)
                      (total_skipped st))]
                  (total_copied st) (total_skipped st)
                  (dest st) (log st))
      end
  end.

End transfer.

End Pipeline.

(** ** Inputs used in the examples *)

Module Fixtures.
Import Packer Pipeline.

(** A file of the RED card, folder [0000SET/000]. *)
Definition red (name : string) : tif_file :=
  TifFile name ("/red/0000SET/000/" +:+ name) "RED" "0000SET" "000".

(** The names [base_1 .. base_n] in lexicographic order. *)
Definition series (base : string) (n : nat) : list tif_file :=
  sort_by filename
    ((λ k, red (base +:+ "_" +:+ pretty k +:+ ".tif")) <$> seq 1 n).

Definition copy_ok (src dst : string) : copy_result := CopyDone.

(** An [os.makedirs] that returns for every path. *)
Definition makedirs_ok (path : string) : bool := false.
Definition copy_fails (src dst : string) : copy_result := CopyRaised false.

(** The scenario of the specification: an 11-file series and the first
    file of the next one. *)
Definition scenario_files : list tif_file :=
  series "IMG_0001" 11 ++ series "IMG_0002" 1.

(** Twelve files that share one base name. *)
Definition twelve : list tif_file := series "IMG_0001" 12.

(** [str(k).zfill(4)]. *)
Definition pad4 (k : nat) : string :=
  let s := pretty k in
  String.concat "" (replicate (4 - String.length s) "0") +:+ s.

(** A card for one plot: 199 complete series [IMG_0000 .. IMG_0198] of
    11 files, then 12 files named [IMG_0199_1 .. IMG_0199_12]; 2201
    files, in the order of the sort by file name. *)
Definition full_card : list tif_file :=
  flat_map (λ k, series ("IMG_" +:+ pad4 k) 11) (seq 0 199)
  ++ series "IMG_0199" 12.

(** Two SET folders assigned to two plots, one RED file each. *)
Definition two_plots : list (string * assignment) :=
  [("0000SET", Assignment "NTAFIN0001" ["000"]);
   ("0001SET", Assignment "NTAFIN0002" ["000"])].

Definition two_plots_listdir (path : string) : option (list string) :=
  if String.eqb path "/red/0000SET/000" then Some ["IMG_0000_1.tif"]
  else if String.eqb path "/red/0001SET/000" then Some ["IMG_0100_1.tif"]
  else None.

(** The card [full_card] as the RED folder [0000SET/000], assigned to one
    plot. *)
Definition one_plot : list (string * assignment) :=
  [("0000SET", Assignment "NTAFIN0001" ["000"])].

Definition card_listdir (path : string) : option (list string) :=
  if String.eqb path "/red/0000SET/000" then Some (filename <$> full_card)
  else None.

(** A copy that raises for one source file and leaves nothing behind. *)
Definition fails_on (bad : string) (src dst : string) : copy_result :=
  if String.eqb src bad then CopyRaised false else CopyDone.

End Fixtures.

(** ** Vocabulary of the packer's properties *)

Module PackerSpec.
Import Packer.

(** The key the look-ahead compares: the text before the last
    underscore of the name without extension, if there is one. *)
Definition series_key (f : tif_file) : option string :=
  let check_name := name_without_ext (filename f) in
  if Py.contains "_" check_name
  then Some (Py.rsplit1_head "_" check_name)
  else None.

(** The files that a folder's count covers: copied or already there. *)
Definition bin_count (folder : nat) (l : list placement) : nat :=
  length (filter (λ e, counted e = true ∧ pl_folder e = folder) l).

Definition failures (l : list placement) : nat :=
  length (filter (λ e, pl_outcome e = Failed) l).

(** A run of [n] files from position [i0] that share the key [b], whose
    first file has a numeric suffix, and that no file with the same key
    precedes. *)
Definition series_at (L : list tif_file) (i0 n : nat) (b : string) : Prop :=
  i0 + n ≤ length L
  ∧ (∃ m, parse_name ∘ filename <$> L !! i0 = Some (b, Some m))
  ∧ Forall (λ f, series_key f = Some b) (take n (drop i0 L))
  ∧ (i0 = 0 ∨ series_key <$> L !! (i0 - 1) ≠ Some (Some b)).

(** The files at positions [i0 .. i0+n-1] went to one folder. *)
Definition same_folder (L : list tif_file) (l : list placement)
    (i0 n : nat) : Prop :=
  ∃ folder, ∀ k, k < n →
    ∃ e, l !! (i0 + k) = Some e
         ∧ L !! (i0 + k) = Some (pl_file e) ∧ pl_folder e = folder.

(** The base name in the words of the specification: the file name
    minus its extension and minus a trailing [_<digits>]. *)
Definition spec_base_name (name : string) : string :=
  let stem := name_without_ext name in
  match Py.rsplit_at "_" stem with
  | Some (h, t) =>
      if negb (bool_decide (t = "")) && all_chars ascii_digit t then h else stem
  | None => stem
  end.

(** Positions [i0 .. i0+n-1] are a maximal run of one base name, in the
    words of the specification. *)
Definition maximal_run (L : list tif_file) (i0 n : nat) : Prop :=
  0 < n ∧ i0 + n ≤ length L
  ∧ (∃ b, Forall (λ f, spec_base_name (filename f) = b) (take n (drop i0 L)))
  ∧ (i0 = 0 ∨ spec_base_name ∘ filename <$> L !! (i0 - 1)
             ≠ spec_base_name ∘ filename <$> L !! i0)
  ∧ (spec_base_name ∘ filename <$> L !! (i0 + n)
     ≠ spec_base_name ∘ filename <$> L !! i0).

(** The list is as [list.sort(key=filename)] leaves it. *)
Definition sorted_by_filename (L : list tif_file) : Prop :=
  Pipeline.sort_by filename L = L.

(** The bookkeeping of the loop agrees with the copies made so far. *)
Definition accounted (L : list tif_file) (st : state) : Prop :=
  pl_file <$> log st = take (i st) L
  ∧ i st ≤ length L
  ∧ summary st
    = (λ b, (zfill3 b, bin_count b (log st))) <$> seq 0 (current_folder_num st)
  ∧ current_folder_count st = bin_count (current_folder_num st) (log st)
  ∧ Forall (λ e, pl_folder e ≤ current_folder_num st) (log st)
  ∧ Forall (λ x, 0 < x.2) (summary st)
  ∧ sum_list (snd <$> summary st) + current_folder_count st
    = length (filter (λ e, counted e = true) (log st))
  ∧ total_copied st + total_skipped st
    = length (filter (λ e, counted e = true) (log st)).

(** [n] written as [str(n).zfill(3)] writes it: its decimal digits,
    with zeros in front up to three characters. *)
Definition zero_padded (n : nat) : string :=
  if (n <? 10)%nat then "00" +:+ pretty n
  else if (n <? 100)%nat then "0" +:+ pretty n
  else pretty n.

(** The step from [st] to [st'] closed the current folder and put the
    whole series of [n] files into the next one, which is another
    directory. *)
Definition rolled_over (L : list tif_file) (base plot today : string)
    (n : nat) (st st' : state) : Prop :=
  summary st'
  = summary st ++ [(zero_padded (current_folder_num st),
                    current_folder_count st)]
  ∧ current_folder_num st' = current_folder_num st + 1
  ∧ i st' = i st + n
  ∧ target_path base plot today (current_folder_num st + 1)
    = join2 (path_join base
               [plot; today; "imagery"; "multispec"; "level0_raw"])
        (zero_padded (current_folder_num st + 1))
  ∧ target_path base plot today (current_folder_num st + 1)
    ≠ target_path base plot today (current_folder_num st)
  ∧ target_path base plot today (current_folder_num st + 1) ∈ dest st'
  ∧ ∃ es, log st' = log st ++ es
          ∧ pl_file <$> es = take n (drop (i st) L)
          ∧ length es = n
          ∧ Forall (λ e, pl_folder e = current_folder_num st + 1
                         ∧ pl_dst e
                           = join2 (target_path base plot today
                                      (current_folder_num st + 1))
                               (filename (pl_file e))) es
          ∧ current_folder_count st'
            = length (filter (λ e, counted e = true) es).

(** *** What the placements say about the destination *)

(** Whether a placement left a file at its destination: a copy that
    returned did, a skipped file was there before, and a copy that
    raised did or did not, as the copy tells. *)
Definition left_behind (copy2 : string → string → copy_result)
    (e : placement) : bool :=
  match pl_outcome e with
  | Copied => true
  | Skipped => false
  | Failed =>
      match copy2 (full_path (pl_file e)) (pl_dst e) with
      | CopyRaised true => true
      | _ => false
      end
  end.

(** The files left by the placements [l]. *)
Definition written (copy2 : string → string → copy_result)
    (l : list placement) : gset string :=
  list_to_set (pl_dst <$> filter (λ e, left_behind copy2 e = true) l).

(** The folders that [os.makedirs] made for the placements [l]. *)
Definition folders_made (base plot today : string) (l : list placement)
    : gset string :=
  list_to_set (l ≫= λ e, made_dirs (target_path base plot today (pl_folder e))).

(** The paths that exist after the placements [l] on a destination that
    held [dest0]. *)
Definition exists_after (base plot today : string)
    (copy2 : string → string → copy_result) (dest0 : gset string)
    (l : list placement) : gset string :=
  dest0 ∪ folders_made base plot today l ∪ written copy2 l.

(** The outcome of a placement that comes after the placements
    [before]: skipped when its destination exists by then, its folder
    made, and else what the copy does. *)
Definition expected_outcome (base plot today : string)
    (copy2 : string → string → copy_result) (dest0 : gset string)
    (before : list placement) (e : placement) : outcome :=
  if decide (pl_dst e
             ∈ exists_after base plot today copy2 dest0 before
               ∪ list_to_set
                   (made_dirs (target_path base plot today (pl_folder e))))
  then Skipped
  else match copy2 (full_path (pl_file e)) (pl_dst e) with
       | CopyDone => Copied
       | CopyRaised _ => Failed
       end.

(** Every placement of [l] has the outcome that the destination and the
    copy give it. *)
Definition replayed (base plot today : string)
    (copy2 : string → string → copy_result) (dest0 : gset string)
    (l : list placement) : Prop :=
  ∀ k e, l !! k = Some e →
    pl_outcome e
    = expected_outcome base plot today copy2 dest0 (take k l) e.

(** Every series that the cursor has passed is in one folder. *)
Definition series_kept (L : list tif_file) (st : state) : Prop :=
  accounted L st
  ∧ ∀ i0 n b, n ≤ 11 → series_at L i0 n b → i0 < i st →
      i0 + n ≤ i st ∧ same_folder L (log st) i0 n.

(** The two states agree on what steers the loop. *)
Definition same_control (s1 s2 : state) : Prop :=
  i s1 = i s2
  ∧ current_folder_num s1 = current_folder_num s2
  ∧ current_folder_count s1 = current_folder_count s2
  ∧ summary s1 = summary s2.

(** From [s] on, a run only added placements, and all that it counted
    exist at the destination. *)
Definition extends (s s' : state) : Prop :=
  (∃ l, log s' = log s ++ l)
  ∧ (Forall (λ e, counted e = true → pl_dst e ∈ dest s) (log s) →
     Forall (λ e, counted e = true → pl_dst e ∈ dest s') (log s')).

End PackerSpec.

(** ** Generic corruption check and [verify_data_integrity] *)

Module Integrity.
Import Scanner.

(** [check_file_corruption]: the file-system calls raise [OSError], which
    the function catches. *)
Definition check_file_corruption (v : file_view) : bool :=
  if negb (path_exists v) then true
  else match getsize v with
       | Raises _ => true
       | Returns n =>
           if (n =? 0)%N then true
           else match contents v with       (* [f.read(1024)] *)
                | Raises _ => true
                | Returns _ => false
                end
       end.

(** One entry of [os.listdir(base_dir)]: whether it is a directory, and
    the files that [os.walk] finds below it, each with its path relative
    to the site folder. *)
Record site_entry := SiteEntry {
  site_folder : string;
  is_dir : bool;
  site_files : list (string * file_view)
}.

Record site_report := SiteReport {
  sr_site : string;
  sr_files : nat;
  sr_corrupt_files : list string;
  sr_passed : bool               (* status PASSED, else ISSUES FOUND *)
}.

Record verification := Verification {
  total_sites : nat;
  total_files : nat;
  total_corrupt : nat;
  site_reports : list site_report
}.

(** The walk of one site: [file_count] and [corrupt_files]. *)
Definition check_site (files : list (string * file_view)) : nat * list string :=
  foldl (λ '(file_count, corrupt_files) '(relative_path, v),
           if check_file_corruption v
           then (S file_count, corrupt_files ++ [relative_path])
           else (S file_count, corrupt_files))
        (0, []) files.

(** The loop of [verify_data_integrity] over [os.listdir(base_dir)]. *)
Definition verify_data_integrity (listing : list site_entry) : verification :=
  foldl (λ acc e,
           if negb (is_dir e) then acc
           else
             let '(file_count, corrupt_files) := check_site (site_files e) in
             Verification (S (total_sites acc))
               (total_files acc + file_count)
               (total_corrupt acc + length corrupt_files)
               (site_reports acc
                  ++ [SiteReport (site_folder e) file_count corrupt_files
                        (bool_decide (corrupt_files = []))]))
        (Verification 0 0 0 []) listing.

End Integrity.

(** ** The folder transfers: [transfer_lidar_data], [transfer_p1_rgb_data]

    Outside development mode both functions first look at the folders of
    the card root and return when there is nothing for them; then they
    walk the card and, for every folder that holds files, classify it and
    copy it as a whole unless its destination exists. They differ in the
    test before the loop, in the required extensions, in the folders
    below the date, and in that the RGB transfer only takes folders with
    "-P1" in their name. The answer to [proceed_prompt] is not used by
    either. The size column of the summary is left out, and the reads of
    a folder's size and time stamps are taken to return. The paths that
    are followed are the destination folders and the folders above them,
    compared as they are written; what a copy puts below a destination
    folder is not followed. *)

Module FolderTransfer.

(** [needle in s]. *)
Fixpoint instr (needle s : string) : bool :=
  String.prefix needle s
  || match s with
     | "" => false
     | String _ s' => instr needle s'
     end.

(** [os.path.basename] of [posixpath]. *)
Definition basename (p : string) : string :=
  match Py.rsplit_at "/" p with
  | Some (_, t) => t
  | None => p
  end.

(** One triple of [os.walk]: the folder, its sub-folders and its file
    names. *)
Record walked := Walked {
  root : string;
  dirs : list string;
  files : list string
}.

(** What [copy_with_speed(root, dest_folder)] does: it returns, or it
    raises with a message, having created [dest_folder] or not. *)
Inductive tree_result :=
| TreeCopied
| TreeRaised (msg : string) (dst_left : bool).

Record row := Row {
  r_folder : string;
  r_plot_id : string;
  r_files : nat;
  r_copy_status : string
}.

(** How a run of a transfer ends. *)
Inductive outcome :=
| NothingToCopy          (* the [return] before the loop: no summary *)
| MakedirsRaised         (* [os.makedirs] raised: the function is left *)
| Summary (dest : gset string) (summary : list row).

(** Lines 788 to 796: the number of folders of the card root, taken from
    the first triple of the walk whose folder is the source folder. *)
Definition folder_count (source_folder : string) (walk : list walked) : nat :=
  match List.find (λ w, bool_decide (root w = source_folder)) walk with
  | Some w => length (dirs w)
  | None => 0
  end.

(** Lines 907 to 918: a folder of the card root has "-P1" in its name. *)
Definition p1_found (source_folder : string) (walk : list walked) : bool :=
  existsb (λ w, bool_decide (root w = source_folder)
                && existsb (instr "-P1") (dirs w)) walk.

Record kind := Kind {
  something_to_copy : string → list walked → bool;  (* before the loop *)
  required : list string;
  below_date : list string;       (* the folders between date and data *)
  takes : string → bool           (* the test on [os.path.basename(root)] *)
}.

Definition lidar : kind :=
  Kind (λ source_folder walk, negb (folder_count source_folder walk =? 0))
    Classifier.LIDAR_REQUIRED_FILES ["lidar"; "level0_raw"] (λ _, true).

Definition p1_rgb : kind :=
  Kind p1_found
    Classifier.P1_REQUIRED_FILES ["imagery"; "rgb"; "level0_raw"]
    (λ name, instr "-P1" name).

Section transfer.
Variable upper : string → string.      (* [str.upper] *)
Variable k : kind.
Variables source_folder base_target_dir today_str : string.
(** Whether [os.makedirs(path, exist_ok=True)] raises for a path. *)
Variable makedirs_raises : string → bool.
Variable copy_with_speed : string → string → tree_result.

Definition target_path (folder_name : string) : string :=
  Packer.path_join base_target_dir
    (Classifier.extract_plot_id folder_name :: today_str :: below_date k).

Definition dest_folder (folder_name : string) : string :=
  Packer.join2 (target_path folder_name) folder_name.

(** The body of the loop for one walked folder; [None] when
    [os.makedirs], which stands outside the [try], raises. *)
Definition process (dest : gset string) (summary : list row) (w : walked)
    : option (gset string * list row) :=
  if bool_decide (files w = []) || negb (takes k (basename (root w)))
  then Some (dest, summary)
  else
    let folder_name := basename (root w) in
    let num_files := length (files w) in
    let missing := Classifier.missing upper (required k) (files w) in
    if bool_decide (missing = []) then
      let plot_id := Classifier.extract_plot_id folder_name in
      if makedirs_raises (target_path folder_name) then None
      else
        let dest := Packer.add_dirs (target_path folder_name) dest in
        let dst := dest_folder folder_name in
        if decide (dst ∈ dest) then
          Some (dest,
                summary
                ++ [Row folder_name plot_id num_files "Already exists"])
        else
          match copy_with_speed (root w) dst with
          | TreeCopied =>
              Some (Packer.add_path dst dest,
                    summary ++ [Row folder_name plot_id num_files "Copied"])
          | TreeRaised msg dst_left =>
              Some (if dst_left then Packer.add_path dst dest else dest,
                    summary ++ [Row folder_name plot_id num_files
                                  ("Error: " +:+ Scanner.first30 msg)])
          end
    else
      Some (dest,
            summary ++ [Row folder_name "UNKNOWN" num_files
                          ("Missing: " +:+ String.concat ", " missing)]).

(** The loop over [os.walk(source_folder)]. *)
Definition transfer_loop (walk : list walked) (dest0 : gset string)
    : option (gset string * list row) :=
  foldl (λ st w, st ≫= λ '(dest, summary), process dest summary w)
        (Some (dest0, [])) walk.

(** The function from the test before the loop to the summary. *)
Definition transfer_folders (walk : list walked) (dest0 : gset string)
    : outcome :=
  if something_to_copy k source_folder walk then
    match transfer_loop walk dest0 with
    | Some (dest, summary) => Summary dest summary
    | None => MakedirsRaised
    end
  else NothingToCopy.

End transfer.

(** The folders of a walk that a transfer of kind [k] takes. *)
Definition taken (k : kind) (walk : list walked) : list walked :=
  filter (λ w, files w ≠ [] ∧ takes k (basename (root w)) = true) walk.

End FolderTransfer.

(** ** What a summary row says about its folder *)

Module FolderTransferSpec.
Import FolderTransfer.

(** The folder holds every required type. *)
Definition complete (upper : string → string) (k : kind) (w : walked) : Prop :=
  Classifier.missing upper (required k) (files w) = [].

(** [row] is a row that the transfer of kind [k] may write for the walked
    folder [w]. *)
Definition describes (upper : string → string) (k : kind) (w : walked)
    (r : row) : Prop :=
  r_folder r = basename (root w)
  ∧ r_files r = length (files w)
  ∧ let missing := Classifier.missing upper (required k) (files w) in
    if bool_decide (missing = []) then
      r_plot_id r = Classifier.extract_plot_id (basename (root w))
      ∧ (r_copy_status r = "Already exists"
         ∨ r_copy_status r = "Copied"
         ∨ ∃ msg, r_copy_status r = "Error: " +:+ Scanner.first30 msg)
    else
      r_plot_id r = "UNKNOWN"
      ∧ r_copy_status r = "Missing: " +:+ String.concat ", " missing.

(** [status.startswith("Error")], the test of [color_status]. *)
Definition is_error (r : row) : bool :=
  String.prefix "Error" (r_copy_status r).

(** The row of a second run for a row of the first. *)
Definition settled (r : row) : row :=
  if bool_decide (r_copy_status r = "Copied")
  then Row (r_folder r) (r_plot_id r) (r_files r) "Already exists"
  else r.

End FolderTransferSpec.

(** A LiDAR card with one complete folder and one that lacks types. *)
Module FolderFixtures.
Import FolderTransfer.

Definition lidar_card : list walked :=
  [Walked "/sd" ["DJI_001-NTAFIN0001-L2"; "DJI_002-NTAFIN0002-L2"] [];
   Walked "/sd/DJI_001-NTAFIN0001-L2" []
     ["a.MRK"; "a.RPT"; "a.CLC"; "a.CLI"; "a.DBG"; "a.IMU"; "a.LDR"; "a.LDRT";
      "a.RPOS"; "a.RTB"; "a.RTK"; "a.RTL"; "a.RTS"; "a.SIG"; "a.JPG"];
   Walked "/sd/DJI_002-NTAFIN0002-L2" [] ["a.MRK"; "a.JPG"]].

Definition lidar_rows : list row :=
  [Row "DJI_001-NTAFIN0001-L2" "NTAFIN0001" 15 "Copied";
   Row "DJI_002-NTAFIN0002-L2" "UNKNOWN" 2
     "Missing: RPT, CLC, CLI, DBG, IMU, LDR, LDRT, RPOS, RTB, RTK, RTL, RTS, SIG"].

Definition lidar_dest : gset string :=
  list_to_set
    ["/"; "/data"; "/data/NTAFIN0001"; "/data/NTAFIN0001/20251111";
     "/data/NTAFIN0001/20251111/lidar";
     "/data/NTAFIN0001/20251111/lidar/level0_raw";
     "/data/NTAFIN0001/20251111/lidar/level0_raw/DJI_001-NTAFIN0001-L2"].

Definition copies (src dst : string) : tree_result := TreeCopied.
Definition disk_full (src dst : string) : tree_result :=
  TreeRaised "disk full" true.

(** A card whose root holds files only. *)
Definition flat_card : list walked :=
  [Walked "/sd" [] ["a.MRK"; "a.JPG"]].

End FolderFixtures.

(** ** The backup loop of [ssd_backup]

    One pass over [os.listdir(primary_dir)]: an entry that is no
    directory is passed over, a site whose destination exists is skipped,
    any other site is copied as a whole. *)

Module Backup.

Record entry := Entry {
  e_name : string;
  e_isdir : bool
}.

Record counts := Counts {
  success_count : nat;
  skip_count : nat;
  error_count : nat;
  backup : gset string            (* the site destinations that exist *)
}.

Section backup.
Variables primary_dir backup_dir : string.
Variable copy_with_speed : string → string → FolderTransfer.tree_result.

Definition site_dst (site_folder : string) : string :=
  Packer.join2 backup_dir site_folder.

Definition step (c : counts) (e : entry) : counts :=
  let site_src := Packer.join2 primary_dir (e_name e) in
  if negb (e_isdir e) then c
  else
    let dst := site_dst (e_name e) in
    if decide (dst ∈ backup c) then
      Counts (success_count c) (skip_count c + 1) (error_count c) (backup c)
    else
      match copy_with_speed site_src dst with
      | FolderTransfer.TreeCopied =>
          Counts (success_count c + 1) (skip_count c) (error_count c)
            (Packer.add_path dst (backup c))
      | FolderTransfer.TreeRaised _ dst_left =>
          Counts (success_count c) (skip_count c) (error_count c + 1)
            (if dst_left then Packer.add_path dst (backup c) else backup c)
      end.

Definition backup_loop (listing : list entry) (backup0 : gset string)
    : counts :=
  foldl step (Counts 0 0 0 backup0) listing.

End backup.

(** The site folders of a listing. *)
Definition sites (listing : list entry) : list string :=
  e_name <$> filter (λ e, e_isdir e = true) listing.

End Backup.

(** ** The SET assignment loop of [transfer_micasense_data]

    The operator assigns a plot id to each SET folder in turn; "BACK"
    returns to the previous SET and forgets its assignment. The input
    stream holds the lines as the loop sees them, that is after
    [.strip().upper()]. *)

Module Assignment.
Import Pipeline.

Definition SITE_DATABASE_items : list string :=
  [
   "SAAFLB0030"; "SAAFLB0031"; "SAAMDD0007"; "SAAMDD0008"; "SAAMDD0009";
    "SAAMDD0010"; "SAAMDD0011"; "NTAFIN0002"; "NTAFIN0003"; "NTAFIN0005";
    "NTAFIN0004"; "NTAFIN0006"; "NTAFIN0007"; "NTAFIN0008"; "NTAFIN0009";
    "NTAFIN0010"; "NTAFIN0001"; "NTAFIN0011"; "NTAFIN0012"; "NTAFIN0013";
    "NTAFIN0014"; "NTAFIN0015"; "NTAFIN0016"; "NTAFIN0017"; "NTAFIN0018";
    "NTAFIN0019"; "NTAFIN0020"; "NTAFIN0021"; "NTAFIN0022"; "NTAFIN0023";
    "TCFTSR0001"; "TCFTNS0001"; "TCFTNS0002"; "TCFTSR0002"; "NTAFIN0024";
    "NTAFIN0025"; "SASMDD0001"; "SASMDD0003"; "SASMDD0002"; "SASMDD0005";
    "SASMDD0006"; "SASMDD0011"; "SASMDD0004"; "SASMDD0013"; "SASMDD0001";
    "SASMDD0002"; "SASMDD0009"; "SASMDD0010"; "SASMDD0008"; "NTAFIN0026";
    "NTAFIN0027"; "NTABRT0001"; "NTABRT0002"; "NTABRT0003"; "NTABRT0004";
    "NTABRT0005"; "NTABRT0006"; "NTAGFU0001"; "NTAGFU0002"; "NTAGFU0003";
    "NTAGFU0004"; "NTAGFU0005"; "NTAGFU0006"; "NTAGFU0007"; "NTAGFU0008";
    "NTAGFU0009"; "NTAGFU0010"; "NTAGFU0011"; "NTAGFU0012"; "NTAGFU0013";
    "NTAGFU0014"; "NTAGFU0015"; "NTAGFU0016"; "NTAGFU0017"; "NTAGFU0018";
    "NTAGFU0019"; "NSABHC0001"; "NSABHC0002"; "NSABHC0003"; "NSABHC0004";
    "NSABHC0005"; "NSABHC0006"; "NSABHC0007"; "NSABHC0008"; "NSABHC0009";
    "NSABHC0010"; "NSABHC0011"
  ].

Definition SITE_DATABASE : gset string := list_to_set SITE_DATABASE_items.

(** [d[k] = v] on a dict kept in insertion order. *)
Fixpoint dict_set {V} (k : string) (v : V) (d : list (string * V))
    : list (string * V) :=
  match d with
  | [] => [(k, v)]
  | (k', v') :: d' =>
      if decide (k' = k) then (k, v) :: d' else (k', v') :: dict_set k v d'
  end.

(** [if k in d: del d[k]]. *)
Definition dict_del {V} (k : string) (d : list (string * V))
    : list (string * V) :=
  filter (λ kv, kv.1 ≠ k) d.

(** [sorted(set(l))]. *)
Definition sorted_set (l : list string) : list string :=
  sorted_strings (elements (list_to_set l : gset string)).

Inductive outcome :=
| Done (set_assignments : list (string * assignment)) (rest : list string)
| Eof                    (* [input()] raised: the stream ended *)
| OutOfFuel.

Section assign.
(** SET folder to its numbered folders, for each camera. *)
Variables red_set_folders blue_set_folders : gmap string (list string).

Definition all_set_folders : list string :=
  sorted_set (elements (dom red_set_folders)
              ++ elements (dom blue_set_folders)).

Definition all_numbered (set_folder : string) : list string :=
  sorted_set (default [] (red_set_folders !! set_folder)
              ++ default [] (blue_set_folders !! set_folder)).

(** [while plot_id not in SITE_DATABASE]: asks again until a plot id of
    the database or "BACK" is typed. *)
Fixpoint ask_again (plot_id : string) (inputs : list string)
    : option (string * list string) :=
  if decide (plot_id ∈ SITE_DATABASE) then Some (plot_id, inputs)
  else
    match inputs with
    | [] => None
    | x :: rest =>
        if decide (x = "BACK") then Some (x, rest) else ask_again x rest
    end.

(** What "BACK" does to the loop state. *)
Definition go_back (set_index : nat)
    (set_assignments : list (string * assignment))
    : nat * list (string * assignment) :=
  if decide (0 < set_index) then
    match all_set_folders !! (set_index - 1) with
    | Some prev_set => (set_index - 1, dict_del prev_set set_assignments)
    | None => (set_index - 1, set_assignments)
    end
  else (set_index, set_assignments).

Fixpoint assign_loop (fuel : nat) (set_index : nat)
    (set_assignments : list (string * assignment)) (inputs : list string)
    : outcome :=
  match fuel with
  | 0 => OutOfFuel
  | S fuel =>
      match all_set_folders !! set_index with
      | None => Done set_assignments inputs
      | Some set_folder =>
          match inputs with
          | [] => Eof
          | plot_id :: rest =>
              if decide (plot_id = "BACK") then
                let '(i, sa) := go_back set_index set_assignments in
                assign_loop fuel i sa rest
              else
                match ask_again plot_id rest with
                | None => Eof
                | Some (plot_id, rest) =>
                    if decide (plot_id = "BACK") then
                      let '(i, sa) := go_back set_index set_assignments in
                      assign_loop fuel i sa rest
                    else
                      assign_loop fuel (set_index + 1)
                        (dict_set set_folder
                           (Assignment plot_id (all_numbered set_folder))
                           set_assignments)
                        rest
                end
          end
      end
  end.

(** The loop from its initial state; every turn reads a line, so one
    more turn than lines is enough. *)
Definition assign (inputs : list string) : outcome :=
  assign_loop (S (length inputs)) 0 [] inputs.

End assign.

End Assignment.

Module AssignmentSpec.
Import Assignment.

(** The state between two turns of the assignment loop: the SET folders
    before [set_index] are assigned, in order, each to a plot of the
    database and with its numbered folders. *)
Definition assigned (red_set_folders blue_set_folders
                       : gmap string (list string))
    (set_index : nat) (sa : list (string * Pipeline.assignment)) : Prop :=
  sa.*1 = take set_index (all_set_folders red_set_folders blue_set_folders)
  ∧ set_index ≤ length (all_set_folders red_set_folders blue_set_folders)
  ∧ Forall (λ kv, Pipeline.a_plot_id kv.2 ∈ SITE_DATABASE
                  ∧ Pipeline.numbered_folders kv.2
                    = all_numbered red_set_folders blue_set_folders kv.1) sa.

End AssignmentSpec.

(** ** The navigation loop of [main]

    The seven parts run under a step counter; after each of the first six
    the operator types PROCEED or BACK. The parts themselves are kept as
    entries of a trace, the answers of [proceed_prompt] as booleans; a
    part that raises ends the program, so a trace is that of a run in
    which no part raises. *)

Module Navigation.

Inductive outcome :=
| Finished (trace : list nat) (rest : list bool)
| Waiting (trace : list nat)     (* the answers ended at a prompt *)
| Spins.                         (* a turn that runs no part *)

(** The step after part [current_step], from the answer of the prompt
    that follows it. *)
Definition next_step (current_step : nat) (proceed : bool) : nat :=
  match current_step with
  | 1 => if proceed then 2 else 1
  | 2 => if proceed then 3 else 1
  | 3 => if proceed then 4 else 2
  | 4 => if proceed then 5 else 3
  | 5 => if proceed then 6 else 4
  | 6 => if proceed then 7 else 5
  | _ => current_step
  end.

(** [while current_step <= 7], with the [break] after part 7. *)
Fixpoint main_loop (current_step : nat) (answers : list bool) : outcome :=
  if 7 <? current_step then Finished [] answers
  else if current_step =? 7 then Finished [7] answers
  else if current_step =? 0 then Spins
  else
    match answers with
    | [] => Waiting [current_step]
    | a :: rest =>
        match main_loop (next_step current_step a) rest with
        | Finished trace rest' => Finished (current_step :: trace) rest'
        | Waiting trace => Waiting (current_step :: trace)
        | Spins => Spins
        end
    end.

Definition main (answers : list bool) : outcome := main_loop 1 answers.

(** Neighbours in a trace are the same part or adjacent parts. *)
Fixpoint stepwise (trace : list nat) : Prop :=
  match trace with
  | a :: (b :: _) as t => (a = b ∨ a + 1 = b ∨ b + 1 = a) ∧ stepwise t
  | _ => True
  end.

End Navigation.

(** ** [create_directories] and [create_folder_structure] *)

Module FolderStructure.

(** The values of the structure dictionary. *)
Inductive content :=
| CDict (entries : list (string * content))
| CList (subdirs : list string)
| COther.

(** The [os.makedirs] calls of [create_directories], in order, when none
    raises; [create_content path c] is what is done for the value [c]
    found under a name whose path is [path]. *)
Fixpoint create_content (path : string) (c : content) : list string :=
  match c with
  | CDict entries =>
      path ::
      (fix items (l : list (string * content)) : list string :=
         match l with
         | [] => []
         | (name, c') :: l' =>
             create_content (Packer.join2 path name) c' ++ items l'
         end) entries
  | CList subdirs => path :: (Packer.join2 path <$> subdirs)
  | COther => [path]
  end.

Definition create_directories (base_path : string)
    (structure : list (string * content)) : list string :=
  create_content base_path (CDict structure).

Definition structure (today_str : string) : list (string * content) :=
  [(today_str,
    CDict [("imagery", CDict [("rgb", CList ["level0_raw"]);
                              ("multispec", CList ["level0_raw"])]);
           ("metadata", CDict []);
           ("lidar", CList ["level0_raw"]);
           ("drtk", CDict []);
           ("b-roll", CDict [])])].

Record state := State {
  existing : gset string;         (* the paths that exist *)
  created : list string;          (* the sites whose structure was made *)
  created_count : nat
}.

Section create.
Variables parent_folder today_str : string.
(** The number of [os.makedirs] calls for a site that return before one
    raises; [None] when none raises. *)
Variable makedirs_raises_at : string → option nat.

(** The input loop; the lines are taken after [.strip().upper()].
    [None]: the stream ended before "FINISHED". *)
Fixpoint create_loop (inputs : list string) (st : state)
    : option (state * list string) :=
  match inputs with
  | [] => None
  | site_name :: rest =>
      if decide (site_name = "FINISHED") then Some (st, rest)
      else if decide (site_name = "") then create_loop rest st
      else if decide (site_name ∈ Assignment.SITE_DATABASE) then
        let site_path := Packer.join2 parent_folder site_name in
        if decide (site_path ∈ existing st) then create_loop rest st
        else
          let made := create_directories site_path (structure today_str) in
          match makedirs_raises_at site_path with
          | None =>
              create_loop rest
                (State (existing st ∪ list_to_set made)
                   (created st ++ [site_name]) (created_count st + 1))
          | Some n =>
              create_loop rest
                (State (existing st ∪ list_to_set (take n made))
                   (created st) (created_count st))
          end
      else create_loop rest st
  end.

Definition create_folder_structure (inputs : list string)
    (existing0 : gset string) : option (state * list string) :=
  create_loop inputs (State existing0 [] 0).

End create.

End FolderStructure.

Module FolderStructureSpec.
Import FolderStructure.

(** What holds of the state of the input loop between two lines. *)
Definition sound (parent_folder today_str : string)
    (makedirs_raises_at : string → option nat)
    (existing0 : gset string) (st : state) : Prop :=
  created_count st = length (created st)
  ∧ NoDup (created st)
  ∧ existing0 ⊆ existing st
  ∧ Forall (λ s, s ∈ Assignment.SITE_DATABASE
                 ∧ Packer.join2 parent_folder s ∉ existing0
                 ∧ makedirs_raises_at (Packer.join2 parent_folder s) = None
                 ∧ (∀ d, d ∈ create_directories
                               (Packer.join2 parent_folder s)
                               (structure today_str) →
                         d ∈ existing st))
      (created st).

End FolderStructureSpec.

(** ** Names of one capture *)

Module Naming.

(** The name [<base>_<k>.<ext>] of band [k] of a capture. *)
Definition band_name (base : string) (k : nat) (ext : string) : string :=
  base +:+ "_" +:+ pretty k +:+ "." +:+ ext.

End Naming.

(** ** The configuration file: [load_config], [save_config]

    The values the program saves are path strings and the time stamp. *)

Module Config.

(** What reading [CONFIG_FILE] gives. *)
Inductive config_file :=
| Absent                               (* [os.path.exists] is false *)
| Holds (config : gmap string string)  (* a JSON object *)
| HoldsOther                           (* JSON that is no object, or text
                                          that is not UTF-8: what is
                                          raised is not caught *)
| Unreadable.                          (* [open] or [json.load] raises
                                          [IOError] or [JSONDecodeError] *)

Inductive outcome (A : Type) :=
| Returns (a : A)
| Raises.
Arguments Returns {A} a.
Arguments Raises {A}.

Definition load_config (key : string) (file : config_file)
    : outcome (option string) :=
  match file with
  | Absent => Returns None
  | Holds config => Returns (config !! key)
  | HoldsOther => Raises              (* [config.get]: [AttributeError] *)
  | Unreadable => Returns None
  end.

(** [now] is [datetime.now().isoformat()]; [write data] is the file after
    the attempt to write [data], [Holds data] when nothing raises. *)
Definition save_config (key value now : string)
    (write : gmap string string → config_file) (file : config_file)
    : outcome config_file :=
  match file with
  | HoldsOther => Raises               (* [data[key] = value]: [TypeError] *)
  | _ =>
      let data := match file with Holds config => config | _ => ∅ end in
      let data := <[key := value]> data in
      let data := <["last_updated" := now]> data in
      Returns (write data)
  end.

End Config.

(* ------------------------------------------------------------------ *)
(** * Properties *)

(** ** Python string primitives *)

Lemma str_app_cons (a : ascii) (s t : string) :
  String a s +:+ t = String a (s +:+ t).
Proof. reflexivity. Qed.

Lemma str_app_nil_r (s : string) : s +:+ "" = s.
Proof. induction s as [|a s IH]; [done |]. by rewrite str_app_cons, IH. Qed.

Lemma str_app_assoc (a b c : string) : (a +:+ b) +:+ c = a +:+ (b +:+ c).
Proof. induction a as [|x a IH]; [done |]. by rewrite !str_app_cons, IH. Qed.

Lemma prefix_spec (n s : string) :
  String.prefix n s = true ↔ ∃ r, s = n +:+ r.
Proof.
  revert s. induction n as [|a n IH]; intros s.
  - split; [intros _; by exists s|]. intros _. by destruct s.
  - destruct s as [|b s]; simpl.
    + split; [done|]. intros [r Hr]. rewrite str_app_cons in Hr. discriminate.
    + destruct (Ascii.ascii_dec a b) as [->|Hne].
      * rewrite IH. split; intros [r Hr]; exists r.
        -- rewrite str_app_cons. by f_equal.
        -- rewrite str_app_cons in Hr. by injection Hr.
      * split; [done|]. intros [r Hr]. rewrite str_app_cons in Hr.
        injection Hr as Hr _. congruence.
Qed.

Lemma split_shape (c : ascii) (s : string) :
  (Py.contains c s = false ∧ Py.split c s = [s])
  ∨ (∃ pre x l, Py.contains c s = true ∧ s = pre +:+ String c x
                ∧ Py.contains c x = false ∧ Py.split c s = l ++ [x] ∧ l ≠ []).
Proof.
  induction s as [|a s IH]; simpl; [by left |].
  destruct (decide (a = c)) as [->|Hne].
  - right. destruct IH as [[Hc ->]|(pre & x & l & Hc & -> & Hx & -> & Hl)].
    + by exists "", s, [""].
    + by exists (String c pre), x, ("" :: l).
  - destruct IH as [[Hc ->]|(pre & x & l & Hc & -> & Hx & -> & Hl)]; [by left |].
    right. destruct l as [|h t]; [done |].
    by exists (String a pre), x, (String a h :: t).
Qed.

Lemma split_last_spec (c : ascii) (s : string) :
  ∃ x, last (Py.split c s) = Some x
       ∧ Py.contains c x = false
       ∧ (Py.contains c s = false → x = s)
       ∧ (Py.contains c s = true → ∃ pre, s = pre +:+ String c x).
Proof.
  destruct (split_shape c s) as [[Hc ->]|(pre & x & l & Hc & -> & Hx & -> & Hl)].
  - exists s. split_and!; [done | done | done | congruence].
  - exists x. rewrite last_snoc. split_and!; [done | done | congruence |].
    intros _. by exists pre.
Qed.

Lemma contains_app_sep (c : ascii) (pre x : string) :
  Py.contains c (pre +:+ String c x) = true.
Proof.
  induction pre as [|a pre IH]; simpl.
  - by rewrite decide_True.
  - by destruct (decide (a = c)).
Qed.

Lemma split_last_app_sep (c : ascii) (pre x : string) :
  Py.contains c x = false →
  last (Py.split c (pre +:+ String c x)) = Some x.
Proof.
  intros Hx.
  destruct (split_last_spec c (pre +:+ String c x)) as (y & Hlast & Hy & _ & Hyes).
  rewrite Hlast. f_equal.
  destruct (Hyes (contains_app_sep c pre x)) as [pre' Heq].
  clear Hlast Hyes. revert pre' Heq.
  induction pre as [|a pre IH]; intros [|b pre'] Heq; simpl in Heq.
  - by injection Heq.
  - injection Heq as <- ->. by rewrite contains_app_sep in Hx.
  - injection Heq as -> <-. by rewrite contains_app_sep in Hy.
  - injection Heq as <- Heq. by eapply IH.
Qed.

(** ** FileClassifier *)

Section classifier_facts.
Variable upper : string → string.

Local Notation present_extensions := (Classifier.present_extensions upper).
Local Notation missing := (Classifier.missing upper).
Local Notation classify := (Classifier.classify upper).

Lemma elem_of_present_extensions (F : list string) (e : string) :
  e ∈ present_extensions F ↔
  ∃ f, f ∈ F ∧ Classifier.has_dot f = true
       ∧ e = upper (Classifier.last_dot_part f).
Proof.
  unfold Classifier.present_extensions.
  rewrite elem_of_list_to_set, list_elem_of_fmap.
  split.
  - intros (f & -> & Hf). apply list_elem_of_filter in Hf as [Hd Hf]. eauto.
  - intros (f & Hf & Hd & ->). exists f. split; [done |].
    by apply list_elem_of_filter.
Qed.

Lemma elem_of_missing (R F : list string) (e : string) :
  e ∈ missing R F ↔ e ∈ R ∧ e ∉ present_extensions F.
Proof. unfold Classifier.missing. rewrite list_elem_of_filter. tauto. Qed.

Lemma passed_iff (R F : list string) :
  Classifier.passed (classify R F) = true ↔
  ∀ e, e ∈ R → e ∈ present_extensions F.
Proof.
  simpl. rewrite bool_decide_eq_true. split.
  - intros Hnil e He.
    destruct (decide (e ∈ present_extensions F)) as [|Hn]; [done |].
    assert (e ∈ missing R F) as Hin by by apply elem_of_missing.
    rewrite Hnil in Hin. by apply elem_of_nil in Hin.
  - intros Hall. destruct (missing R F) as [|e m] eqn:E; [done |].
    assert (e ∈ missing R F) as Hin by (rewrite E; left).
    apply elem_of_missing in Hin as [He Hn]. by destruct Hn; apply Hall.
Qed.

End classifier_facts.

(** The scenario of the specification: required [{"JPG","MRK"}] against
    [["a.MRK","b.JPG"]] passes with nothing missing. *)
Example classify_scenario :
  Classifier.classify Py.upper ["JPG"; "MRK"] ["a.MRK"; "b.JPG"]
  = Classifier.Classification true [].
Proof. vm_compute. reflexivity. Qed.

Example classify_lowercase_and_dotless :
  Classifier.classify Py.upper ["JPG"; "MRK"] ["a.b.jpg"; "MRK"; "notes.txt"]
  = Classifier.Classification false ["MRK"].
Proof. vm_compute. reflexivity. Qed.

(** C6. For every required list [R] and every folder listing [F],
    whatever [str.upper] does to the extensions, classification passes
    exactly when every required extension is among the distinct
    uppercased extensions of [F]; that set consists of [str.upper] of
    the text after the last dot of the files that contain a dot (a file
    without a dot contributes nothing); adding files, hence extra
    extensions, never turns a pass into a failure; and the reported
    missing list holds exactly the required extensions absent from the
    folder, in the order of [R]. *)
Theorem classify_passes_iff_required_subset
    (upper : string → string) (R F : list string) :
  (Classifier.passed (Classifier.classify upper R F) = true ↔
     ∀ e, e ∈ R → e ∈ Classifier.present_extensions upper F)
  ∧ (∀ e, e ∈ Classifier.present_extensions upper F ↔
       ∃ pre ext, (pre +:+ String "." ext) ∈ F
                  ∧ Py.contains "." ext = false ∧ e = upper ext)
  ∧ (∀ F', F ⊆ F' →
       Classifier.passed (Classifier.classify upper R F) = true →
       Classifier.passed (Classifier.classify upper R F') = true)
  ∧ (∀ e, e ∈ Classifier.missing_types (Classifier.classify upper R F) ↔
       e ∈ R ∧ e ∉ Classifier.present_extensions upper F)
  ∧ Classifier.missing_types (Classifier.classify upper R F)
    = filter (λ e, e ∉ Classifier.present_extensions upper F) R.
Proof.
  split_and!.
  - apply passed_iff.
  - intros e. rewrite elem_of_present_extensions. split.
    + intros (f & Hf & Hd & ->).
      destruct (split_last_spec "." f) as (x & Hlast & Hx & _ & Hyes).
      destruct (Hyes Hd) as [pre ->].
      exists pre, x. split_and!; [done | done |].
      unfold Classifier.last_dot_part, Py.last_item. by rewrite Hlast.
    + intros (pre & ext & Hf & Hx & ->).
      exists (pre +:+ String "." ext). split_and!; [done | |].
      * apply contains_app_sep.
      * unfold Classifier.last_dot_part, Py.last_item.
        by rewrite split_last_app_sep.
  - intros F' Hsub. rewrite !passed_iff. intros Hall e He.
    apply elem_of_present_extensions.
    destruct (proj1 (elem_of_present_extensions upper F e) (Hall e He))
      as (f & Hf & Hd & ->).
    exists f. split_and!; [by apply Hsub | done | done].
  - intros e. apply elem_of_missing.
  - reflexivity.
Qed.

(** ** CorruptionScanner *)

Example check_tif_little_endian :
  Scanner.check_tif false
    (Scanner.FileView true (Scanner.Returns 8%N)
       (Scanner.Returns [x49; x49; x2a; x00; x08; x00; x00; x00])
       (Scanner.Returns ()))
  = None.
Proof. reflexivity. Qed.

Example check_tif_big_endian_pil_fails :
  Scanner.check_tif true
    (Scanner.FileView true (Scanner.Returns 8%N)
       (Scanner.Returns [x4d; x4d; x00; x2a; x00; x00; x00; x08])
       (Scanner.Raises "cannot identify image file, truncated stream"))
  = Some "PIL verification failed: cannot identify image file, tr".
Proof. reflexivity. Qed.

Example scan_folder_counts :
  Scanner.scan_folder false "NTAFIN0001" "000"
    (λ f, if String.eqb f "b.TIF"
          then Scanner.FileView true (Scanner.Returns 4%N)
                 (Scanner.Returns [x00; x00; x00; x00]) (Scanner.Returns ())
          else Scanner.FileView true (Scanner.Returns 4%N)
                 (Scanner.Returns [x49; x49; x2a; x00]) (Scanner.Returns ()))
    ["a.tif"; "notes.txt"; "b.TIF"]
  = ([Scanner.CorruptEntry "b.TIF" "000" "NTAFIN0001" "Invalid TIFF header"], 2%nat).
Proof. vm_compute. reflexivity. Qed.

(** C7. The TIFF check applies its layers in order and stops at the
    first failure: a missing file gives "File not found" whatever the
    other layers would say; an existing file of size zero gives
    "Zero size"; an existing non-empty file that opens and yields fewer
    than 4 bytes gives "Invalid header (too short)"; an existing
    non-empty file whose first 4 bytes are neither 49 49 2A 00 nor
    4D 4D 00 2A is recorded as corrupt with "Invalid TIFF header", in
    particular when they are all zero. *)
Theorem check_tif_layers (pil : bool) (v : Scanner.file_view) :
  (Scanner.path_exists v = false →
     Scanner.check_tif pil v = Some "File not found")
  ∧ (Scanner.path_exists v = true →
     Scanner.getsize v = Scanner.Returns 0%N →
     Scanner.check_tif pil v = Some "Zero size")
  ∧ (∀ n bytes,
       Scanner.path_exists v = true →
       Scanner.getsize v = Scanner.Returns n → n ≠ 0%N →
       Scanner.contents v = Scanner.Returns bytes →
       (length bytes < 4)%nat →
       Scanner.check_tif pil v = Some "Invalid header (too short)")
  ∧ (∀ n bytes,
       Scanner.path_exists v = true →
       Scanner.getsize v = Scanner.Returns n → n ≠ 0%N →
       Scanner.contents v = Scanner.Returns bytes →
       (4 ≤ length bytes)%nat →
       take 4 bytes ≠ [x49; x49; x2a; x00] →
       take 4 bytes ≠ [x4d; x4d; x00; x2a] →
       Scanner.check_tif pil v = Some "Invalid TIFF header")
  ∧ (∀ n rest,
       Scanner.path_exists v = true →
       Scanner.getsize v = Scanner.Returns n → n ≠ 0%N →
       Scanner.contents v = Scanner.Returns ([x00; x00; x00; x00] ++ rest) →
       Scanner.check_tif pil v = Some "Invalid TIFF header").
Proof.
  assert (∀ n bytes,
       Scanner.path_exists v = true →
       Scanner.getsize v = Scanner.Returns n → n ≠ 0%N →
       Scanner.contents v = Scanner.Returns bytes →
       (4 ≤ length bytes)%nat →
       take 4 bytes ≠ [x49; x49; x2a; x00] →
       take 4 bytes ≠ [x4d; x4d; x00; x2a] →
       Scanner.check_tif pil v = Some "Invalid TIFF header") as Hmagic.
  { intros n bytes He Hs Hn Hc Hlen Hle Hbe. unfold Scanner.check_tif.
    rewrite He, Hs, Hc. simpl. apply N.eqb_neq in Hn. rewrite Hn.
    destruct bytes as [|b0 [|b1 [|b2 [|b3 rest]]]]; simpl in Hlen; try lia.
    simpl in *. unfold Scanner.valid_magic, Scanner.slice. simpl.
    destruct (bool_decide ([b0; b1] = Scanner.II)) eqn:E1;
      destruct (bool_decide ([b2; b3] = Scanner.star_nul)) eqn:E2;
      destruct (bool_decide ([b0; b1] = Scanner.MM)) eqn:E3;
      destruct (bool_decide ([b2; b3] = Scanner.nul_star)) eqn:E4;
      simpl; try reflexivity;
      repeat match goal with
             | H : bool_decide _ = true |- _ => apply bool_decide_eq_true in H
             end;
      unfold Scanner.II, Scanner.star_nul, Scanner.MM, Scanner.nul_star in *;
      exfalso; simplify_eq; (by apply Hle) || (by apply Hbe). }
  split_and!.
  - intros He. unfold Scanner.check_tif. by rewrite He.
  - intros He Hs. unfold Scanner.check_tif. by rewrite He, Hs.
  - intros n bytes He Hs Hn Hc Hlen. unfold Scanner.check_tif.
    rewrite He, Hs, Hc. simpl. apply N.eqb_neq in Hn. rewrite Hn.
    rewrite length_take. by rewrite (proj2 (Nat.ltb_lt _ _)) by lia.
  - exact Hmagic.
  - intros n rest He Hs Hn Hc.
    apply (Hmagic n _ He Hs Hn Hc); simpl; [lia | done | done].
Qed.

(** ** TreeDiffer *)

Lemma get_file_list_snoc (w : list TreeDiffer.walk_entry) (e : TreeDiffer.walk_entry) :
  TreeDiffer.get_file_list (w ++ [e])
  = if TreeDiffer.getsize_raises e then TreeDiffer.get_file_list w
    else <[TreeDiffer.rel_path e := TreeDiffer.true_size e]>
           (TreeDiffer.get_file_list w).
Proof. unfold TreeDiffer.get_file_list. by rewrite foldl_snoc. Qed.

Lemma get_file_list_dom (w : list TreeDiffer.walk_entry) (p : string) :
  is_Some (TreeDiffer.get_file_list w !! p) →
  ∃ e, e ∈ w ∧ TreeDiffer.rel_path e = p ∧ TreeDiffer.getsize_raises e = false.
Proof.
  induction w as [|e w IH] using rev_ind.
  - intros [x Hx]. unfold TreeDiffer.get_file_list in Hx. simpl in Hx.
    by rewrite lookup_empty in Hx.
  - rewrite get_file_list_snoc. destruct (TreeDiffer.getsize_raises e) eqn:Hr.
    + intros H. destruct (IH H) as (e' & ? & ? & ?).
      exists e'. split; [apply elem_of_app; by left | done].
    + destruct (decide (TreeDiffer.rel_path e = p)) as [<-|Hne].
      * intros _. exists e. split; [apply elem_of_app; right; by left | done].
      * rewrite lookup_insert_ne by done. intros H.
        destruct (IH H) as (e' & ? & ? & ?).
        exists e'. split; [apply elem_of_app; by left | done].
Qed.

Lemma get_file_list_readable (w : list TreeDiffer.walk_entry) (e : TreeDiffer.walk_entry) :
  NoDup (TreeDiffer.rel_path <$> w) →
  e ∈ w → TreeDiffer.getsize_raises e = false →
  TreeDiffer.get_file_list w !! TreeDiffer.rel_path e = Some (TreeDiffer.true_size e).
Proof.
  induction w as [|e' w IH] using rev_ind; [by intros _ ?%elem_of_nil |].
  rewrite fmap_app, NoDup_app. intros (Hnd & Hfresh & _) Hin Hr.
  rewrite get_file_list_snoc.
  apply elem_of_app in Hin as [Hin|Hin%list_elem_of_singleton].
  - assert (TreeDiffer.rel_path e ≠ TreeDiffer.rel_path e') as Hne.
    { intros Heq. apply (Hfresh (TreeDiffer.rel_path e)).
      - apply list_elem_of_fmap. eauto.
      - rewrite Heq. simpl. left. }
    destruct (TreeDiffer.getsize_raises e'); [by apply IH |].
    rewrite lookup_insert_ne by done. by apply IH.
  - subst e'. rewrite Hr. by rewrite lookup_insert_eq.
Qed.

Lemma get_file_list_unreadable (w : list TreeDiffer.walk_entry) (e : TreeDiffer.walk_entry) :
  NoDup (TreeDiffer.rel_path <$> w) →
  e ∈ w → TreeDiffer.getsize_raises e = true →
  TreeDiffer.get_file_list w !! TreeDiffer.rel_path e = None.
Proof.
  intros Hnd Hin Hr.
  destruct (TreeDiffer.get_file_list w !! TreeDiffer.rel_path e) as [x|] eqn:E; [| done].
  destruct (get_file_list_dom w (TreeDiffer.rel_path e)) as (e' & Hin' & Hp & Hr');
    [by rewrite E |].
  assert (e' = e) as ->; [| congruence].
  apply list_elem_of_lookup in Hin as [i Hi], Hin' as [j Hj].
  assert (i = j) as ->; [| congruence].
  eapply NoDup_lookup; [exact Hnd | |]; rewrite list_lookup_fmap.
  - by rewrite Hi.
  - rewrite Hj. simpl. by rewrite Hp.
Qed.

Lemma truthy_false (X : gset string) : TreeDiffer.truthy X = false ↔ X = ∅.
Proof.
  unfold TreeDiffer.truthy. rewrite negb_false_iff. apply bool_decide_eq_true.
Qed.

Lemma is_identical_iff (w1 w2 : list TreeDiffer.walk_entry) :
  TreeDiffer.is_identical (TreeDiffer.compare_directories w1 w2) = true ↔
  TreeDiffer.only_in_1 (TreeDiffer.compare_directories w1 w2) = ∅
  ∧ TreeDiffer.only_in_2 (TreeDiffer.compare_directories w1 w2) = ∅
  ∧ TreeDiffer.size_diff (TreeDiffer.compare_directories w1 w2) = ∅.
Proof.
  simpl. rewrite negb_true_iff, !orb_false_iff, !truthy_false. tauto.
Qed.

Lemma compare_same_files (w1 w2 : list TreeDiffer.walk_entry) :
  TreeDiffer.get_file_list w1 = TreeDiffer.get_file_list w2 →
  TreeDiffer.compare_directories w1 w2
  = TreeDiffer.DiffResult ∅ ∅ ∅ ∅ true.
Proof.
  intros Heq. unfold TreeDiffer.compare_directories. rewrite Heq.
  set (files := TreeDiffer.get_file_list w2).
  assert (dom files ∖ dom files = (∅ : gset string)) as -> by set_solver.
  assert (filter (λ f, files !! f ≠ files !! f) (dom files ∩ dom files)
          = (∅ : gset string)) as ->.
  { apply set_eq. intros f. rewrite elem_of_filter. set_solver. }
  unfold TreeDiffer.tagged. rewrite !set_map_empty.
  assert ((∅ : gset (string * string)) ∪ ∅ ∪ ∅ = ∅) as -> by set_solver.
  reflexivity.
Qed.

(** The scenario of the specification: [site/file.jpg] of 100 bytes
    against 90 bytes. *)
Example compare_size_mismatch_scenario :
  TreeDiffer.compare_directories
    [TreeDiffer.WalkEntry "site/file.jpg" 100 false]
    [TreeDiffer.WalkEntry "site/file.jpg" 90 false]
  = TreeDiffer.DiffResult ∅ ∅ {["site/file.jpg"]}
      {[("site", "Size mismatch")]} false.
Proof. vm_compute. reflexivity. Qed.

Example top_folder_examples :
  TreeDiffer.top_folder "a/b/c.tif" = "a"
  ∧ TreeDiffer.top_folder "readme.txt" = "readme.txt"
  ∧ TreeDiffer.top_folder "site/file.jpg" = "site".
Proof. vm_compute. done. Qed.

(** C9. Comparing a directory tree with itself is the identity case: the
    result is identical, and the files only in the primary, the files
    only in the backup and the size mismatches are all empty (so no
    folder is affected); and for any two trees the result is identical
    exactly when those three sets are empty. *)
Theorem compare_directories_self (walk : list TreeDiffer.walk_entry) :
  (TreeDiffer.is_identical (TreeDiffer.compare_directories walk walk) = true
   ∧ TreeDiffer.only_in_1 (TreeDiffer.compare_directories walk walk) = ∅
   ∧ TreeDiffer.only_in_2 (TreeDiffer.compare_directories walk walk) = ∅
   ∧ TreeDiffer.size_diff (TreeDiffer.compare_directories walk walk) = ∅
   ∧ TreeDiffer.affected_folders (TreeDiffer.compare_directories walk walk) = ∅)
  ∧ (∀ walk1 walk2,
       TreeDiffer.is_identical (TreeDiffer.compare_directories walk1 walk2) = true ↔
       TreeDiffer.only_in_1 (TreeDiffer.compare_directories walk1 walk2) = ∅
       ∧ TreeDiffer.only_in_2 (TreeDiffer.compare_directories walk1 walk2) = ∅
       ∧ TreeDiffer.size_diff (TreeDiffer.compare_directories walk1 walk2) = ∅).
Proof.
  split; [| apply is_identical_iff].
  by rewrite (compare_same_files walk walk eq_refl).
Qed.

Lemma get_file_list_skip (pre post : list TreeDiffer.walk_entry) (p : string) (s : N) :
  TreeDiffer.get_file_list (pre ++ TreeDiffer.WalkEntry p s true :: post)
  = TreeDiffer.get_file_list (pre ++ post).
Proof. unfold TreeDiffer.get_file_list. by rewrite !foldl_app. Qed.

(** C10. In the tree comparison a file whose size query raises [OSError]
    is left out of its tree's path-to-size map (each path being walked
    once); so it is never among the size mismatches, whichever side it is
    on; a file unreadable in one tree and readable in the other is
    reported as present only in the other tree; and two trees that differ
    only in a file unreadable in both compare as identical. *)
Theorem unreadable_files_are_omitted (walk1 walk2 : list TreeDiffer.walk_entry) :
  NoDup (TreeDiffer.rel_path <$> walk1) →
  NoDup (TreeDiffer.rel_path <$> walk2) →
  (∀ e, e ∈ walk1 → TreeDiffer.getsize_raises e = true →
     TreeDiffer.get_file_list walk1 !! TreeDiffer.rel_path e = None
     ∧ (TreeDiffer.rel_path e
         ∉ TreeDiffer.size_diff (TreeDiffer.compare_directories walk1 walk2))
     ∧ (TreeDiffer.rel_path e
         ∉ TreeDiffer.size_diff (TreeDiffer.compare_directories walk2 walk1)))
  ∧ (∀ e1 e2, e1 ∈ walk1 → e2 ∈ walk2 →
     TreeDiffer.rel_path e1 = TreeDiffer.rel_path e2 →
     TreeDiffer.getsize_raises e1 = true →
     TreeDiffer.getsize_raises e2 = false →
     (TreeDiffer.rel_path e1
       ∈ TreeDiffer.only_in_2 (TreeDiffer.compare_directories walk1 walk2))
     ∧ (TreeDiffer.rel_path e1
       ∈ TreeDiffer.only_in_1 (TreeDiffer.compare_directories walk2 walk1)))
  ∧ (∀ pre post p s1 s2,
     walk1 = pre ++ TreeDiffer.WalkEntry p s1 true :: post →
     walk2 = pre ++ TreeDiffer.WalkEntry p s2 true :: post →
     TreeDiffer.compare_directories walk1 walk2
     = TreeDiffer.DiffResult ∅ ∅ ∅ ∅ true).
Proof.
  intros Hnd1 Hnd2. split_and!.
  - intros e Hin Hr.
    pose proof (get_file_list_unreadable walk1 e Hnd1 Hin Hr) as Hnone.
    split_and!; [done | |]; simpl; rewrite elem_of_filter, elem_of_intersection,
      !elem_of_dom, Hnone; intros (_ & Hs); destruct Hs as [Hs1 Hs2];
      by (apply is_Some_None in Hs1 || apply is_Some_None in Hs2).
  - intros e1 e2 Hin1 Hin2 Hp Hr1 Hr2.
    pose proof (get_file_list_unreadable walk1 e1 Hnd1 Hin1 Hr1) as Hnone.
    pose proof (get_file_list_readable walk2 e2 Hnd2 Hin2 Hr2) as Hsome.
    rewrite <- Hp in Hsome.
    simpl. rewrite !elem_of_difference, !elem_of_dom, Hnone, Hsome.
    split; (split; [by eexists | by intros ?%is_Some_None]).
  - intros pre post p s1 s2 -> ->. apply compare_same_files.
    by rewrite !get_file_list_skip.
Qed.

Lemma unreadable_files_are_omitted_witness :
  let walk1 := [TreeDiffer.WalkEntry "site/a.tif" 5 true;
                TreeDiffer.WalkEntry "site/b.tif" 7 false;
                TreeDiffer.WalkEntry "site/c.tif" 9 true] in
  let walk2 := [TreeDiffer.WalkEntry "site/a.tif" 6 false;
                TreeDiffer.WalkEntry "site/b.tif" 7 false;
                TreeDiffer.WalkEntry "site/c.tif" 1 true] in
  (NoDup (TreeDiffer.rel_path <$> walk1) ∧ NoDup (TreeDiffer.rel_path <$> walk2))
  ∧ "site/a.tif"
      ∈ TreeDiffer.only_in_2 (TreeDiffer.compare_directories walk1 walk2).
Proof.
  intros walk1 walk2.
  assert (NoDup (TreeDiffer.rel_path <$> walk1)) as Hnd1
    by (apply (bool_decide_unpack _); vm_compute; reflexivity).
  assert (NoDup (TreeDiffer.rel_path <$> walk2)) as Hnd2
    by (apply (bool_decide_unpack _); vm_compute; reflexivity).
  split; [by split |].
  apply (proj1 (proj2 (unreadable_files_are_omitted walk1 walk2 Hnd1 Hnd2))
           (TreeDiffer.WalkEntry "site/a.tif" 5 true)
           (TreeDiffer.WalkEntry "site/a.tif" 6 false)).
  - left.
  - left.
  - reflexivity.
  - reflexivity.
  - reflexivity.
Defined.

(** ** SeriesPacker *)

Example parse_name_examples :
  Packer.parse_name "IMG_0001_11.tif" = ("IMG_0001", Some 11%N)
  ∧ Packer.parse_name "IMG_0001_a.tif" = ("IMG_0001", None)
  ∧ Packer.parse_name "IMG.tif" = ("IMG", None)
  ∧ Packer.parse_name "IMG_0001_.tif" = ("IMG_0001", None)
  ∧ Packer.parse_name "a.b_1" = ("a", None).
Proof. vm_compute. done. Qed.

Example zfill3_examples :
  Packer.zfill3 0 = "000" ∧ Packer.zfill3 12 = "012" ∧ Packer.zfill3 1234 = "1234".
Proof. vm_compute. done. Qed.

Example path_join_example :
  Packer.target_path "/data" "NTAFIN0001" "20251111" 3
  = "/data/NTAFIN0001/20251111/imagery/multispec/level0_raw/003".
Proof. vm_compute. done. Qed.

(** The scenario of the specification with cap 10: folder 000 takes the
    whole 11-file series, folder 001 starts with [IMG_0002_1.tif]. *)
Example pack_scenario :
  (λ st, (Packer.summary st,
          Packer.pl_folder <$> Packer.log st,
          (Packer.filename ∘ Packer.pl_file <$> Packer.log st) !! 11,
          Packer.total_copied st))
    <$> Packer.pack Fixtures.scenario_files 10 "/data" "NTAFIN0001" "20251111"
          Fixtures.makedirs_ok Fixtures.copy_ok ∅
  = Some ([("000", 11); ("001", 1)],
          [0; 0; 0; 0; 0; 0; 0; 0; 0; 0; 0; 1],
          Some "IMG_0002_1.tif",
          12).
Proof. vm_compute. reflexivity. Qed.

(** *** The look-ahead *)

Lemma count_while_le {A} (p : A → bool) (l : list A) :
  Packer.count_while p l ≤ length l.
Proof. induction l as [|x l IH]; simpl; [lia |]. destruct (p x); lia. Qed.

Lemma count_while_take {A} (p : A → bool) (l : list A) (k : nat) (x : A) :
  k < Packer.count_while p l → l !! k = Some x → p x = true.
Proof.
  revert k. induction l as [|y l IH]; intros k Hk Hx; simpl in *; [lia |].
  destruct (p y) eqn:Hy; [| lia].
  destruct k as [|k]; simpl in Hx; [congruence |].
  apply (IH k); [lia | done].
Qed.

Lemma count_while_ge {A} (p : A → bool) (l : list A) (n : nat) :
  (∀ k, k < n → ∃ x, l !! k = Some x ∧ p x = true) →
  n ≤ Packer.count_while p l.
Proof.
  revert n. induction l as [|y l IH]; intros n Hn.
  - destruct n; [simpl; lia |]. destruct (Hn 0) as (x & Hx & _); [lia | done].
  - destruct n as [|n]; [lia |]. simpl.
    destruct (Hn 0) as (x & Hx & Hp); [lia |]. simpl in Hx.
    injection Hx as ->. rewrite Hp.
    apply le_n_S, IH. intros k Hk. apply (Hn (S k)). lia.
Qed.

Lemma same_series_key (b : string) (f : Packer.tif_file) :
  Packer.same_series b f = true ↔ PackerSpec.series_key f = Some b.
Proof.
  unfold Packer.same_series, PackerSpec.series_key.
  destruct (Py.contains "_" _); simpl.
  - rewrite bool_decide_eq_true. split; congruence.
  - split; discriminate.
Qed.

Lemma parse_name_numbered (name b : string) (m : N) :
  Packer.parse_name name = (b, Some m) →
  Py.contains "_" (Packer.name_without_ext name) = true
  ∧ Py.rsplit1_head "_" (Packer.name_without_ext name) = b.
Proof.
  unfold Packer.parse_name, Py.rsplit1_head.
  destruct (Py.contains "_" _); [| discriminate].
  destruct (Py.rsplit_at "_" _) as [[h t]|]; [| discriminate].
  destruct (Packer.isdigit t); [| discriminate].
  destruct (Packer.int_of t); [| discriminate].
  intros [= <- _]. done.
Qed.

Lemma parse_name_series_key (f : Packer.tif_file) (b : string) (m : N) :
  Packer.parse_name (Packer.filename f) = (b, Some m) →
  PackerSpec.series_key f = Some b.
Proof.
  intros [Hc Hb]%parse_name_numbered.
  unfold PackerSpec.series_key. by rewrite Hc, Hb.
Qed.

Lemma add_path_union (p : string) (X : gset string) :
  Packer.add_path p X = {[p]} ∪ X.
Proof.
  destruct X as [m]. unfold Packer.add_path.
  apply set_eq. intros q.
  rewrite elem_of_union, elem_of_singleton.
  unfold elem_of, gset_elem_of, mapset.mapset_elem_of. simpl.
  destruct (decide (p = q)) as [->|Hne].
  - rewrite lookup_insert_eq. naive_solver.
  - rewrite lookup_insert_ne by done. naive_solver.
Qed.

Lemma made_dirs_self (name : string) : name ∈ Packer.made_dirs name.
Proof.
  unfold Packer.made_dirs.
  destruct (String.length name); cbn [Packer.makedirs_chain].
  - set_solver.
  - destruct (Packer.posix_split name) as [h t].
    destruct (if bool_decide (t = "") then Packer.posix_split h else (h, t)).
    set_solver.
Qed.

Lemma add_dirs_union (name : string) (X : gset string) :
  Packer.add_dirs name X = list_to_set (Packer.made_dirs name) ∪ X.
Proof.
  unfold Packer.add_dirs.
  induction (Packer.made_dirs name) as [|d ds IH]; simpl.
  - set_solver.
  - rewrite add_path_union, IH. set_solver.
Qed.

Lemma add_dirs_there (name : string) (X : gset string) :
  list_to_set (Packer.made_dirs name) ⊆ X → Packer.add_dirs name X = X.
Proof. intros H. rewrite add_dirs_union. by apply subseteq_union_1_L. Qed.

Section packer_facts.
Context (L : list Packer.tif_file) (cap : nat).
Context (base plot today : string).
Context (copy2 : string → string → Packer.copy_result).

Local Abbreviation series_count := (Packer.series_count L).
Local Abbreviation copy_one := (Packer.copy_one base plot today copy2).
Local Abbreviation turn := (Packer.turn L cap base plot today copy2).

Lemma series_count_bounds (i : nat) :
  i < length L →
  1 ≤ series_count i ≤ 11 ∧ i + series_count i ≤ length L.
Proof.
  intros Hi. unfold Packer.series_count.
  destruct (lookup_lt_is_Some_2 L i Hi) as [f Hf]. rewrite Hf.
  destruct (Packer.parse_name (Packer.filename f)) as [b [m|]] eqn:Hp; [| lia].
  pose proof (count_while_le (Packer.same_series b) (take 11 (drop i L))) as Hle.
  rewrite length_take, length_drop in Hle.
  assert (1 ≤ Packer.count_while (Packer.same_series b) (take 11 (drop i L))).
  { apply count_while_ge. intros k Hk. assert (k = 0) as -> by lia.
    exists f. split.
    - rewrite lookup_take_lt by lia. rewrite lookup_drop.
      by rewrite Nat.add_0_r.
    - apply same_series_key. by eapply parse_name_series_key. }
  lia.
Qed.

Lemma series_count_members (i : nat) :
  2 ≤ series_count i →
  ∃ b, (∀ j g, j < series_count i → L !! (i + j) = Some g →
          PackerSpec.series_key g = Some b).
Proof.
  unfold Packer.series_count. intros H2.
  destruct (L !! i) as [f0|] eqn:Hf0; [| lia].
  destruct (Packer.parse_name (Packer.filename f0)) as [b [m|]] eqn:Hp; [| lia].
  exists b. intros j g Hj Hg. apply same_series_key.
  eapply count_while_take; [exact Hj |].
  pose proof (count_while_le (Packer.same_series b) (take 11 (drop i L))) as Hle.
  rewrite length_take in Hle.
  rewrite lookup_take_lt by lia. by rewrite lookup_drop.
Qed.

Lemma series_count_covers (i n : nat) (b : string) :
  n ≤ 11 →
  (∃ f m, L !! i = Some f ∧ Packer.parse_name (Packer.filename f) = (b, Some m)) →
  (∀ k, k < n → ∃ f, L !! (i + k) = Some f ∧ PackerSpec.series_key f = Some b) →
  n ≤ series_count i.
Proof.
  intros Hn (f & m & Hf & Hp) Hall. unfold Packer.series_count.
  rewrite Hf, Hp. apply count_while_ge. intros k Hk.
  destruct (Hall k Hk) as (g & Hg & Hkey). exists g. split.
  - rewrite lookup_take_lt by lia. by rewrite lookup_drop.
  - by apply same_series_key.
Qed.

(** *** The copy loop over one series *)

Lemma copy_one_fields (st : Packer.state) (f : Packer.tif_file) :
  ∃ e, Packer.log (copy_one st f) = Packer.log st ++ [e]
       ∧ Packer.pl_file e = f
       ∧ Packer.pl_folder e = Packer.current_folder_num st
       ∧ Packer.pl_dst e
         = Packer.join2 (Packer.target_path base plot today
                           (Packer.current_folder_num st)) (Packer.filename f)
       ∧ Packer.i (copy_one st f) = Packer.i st
       ∧ Packer.current_folder_num (copy_one st f) = Packer.current_folder_num st
       ∧ Packer.summary (copy_one st f) = Packer.summary st
       ∧ Packer.current_folder_count (copy_one st f)
         = Packer.current_folder_count st + (if Packer.counted e then 1 else 0)
       ∧ Packer.total_copied (copy_one st f) + Packer.total_skipped (copy_one st f)
         = Packer.total_copied st + Packer.total_skipped st
           + (if Packer.counted e then 1 else 0)
       ∧ Packer.total_skipped st ≤ Packer.total_skipped (copy_one st f)
       ∧ Packer.dest st ⊆ Packer.dest (copy_one st f)
       ∧ (Packer.counted e = true → Packer.pl_dst e ∈ Packer.dest (copy_one st f))
       ∧ (Packer.pl_dst e ∈ Packer.dest st → Packer.pl_outcome e = Packer.Skipped)
       ∧ (Packer.pl_outcome e = Packer.Skipped →
            Packer.dest (copy_one st f) = Packer.dest st
            ∧ Packer.total_copied (copy_one st f) = Packer.total_copied st
            ∧ Packer.total_skipped (copy_one st f) = Packer.total_skipped st + 1).
Proof.
  unfold Packer.copy_one. rewrite !add_path_union.
  set (dst := Packer.join2 _ _).
  set (entry := Packer.Placement f (Packer.current_folder_num st) dst).
  destruct (decide (dst ∈ Packer.dest st)) as [Hin|Hnin].
  - exists (entry Packer.Skipped). simpl. split_and!; try done; lia.
  - destruct (copy2 _ _) as [|left].
    + exists (entry Packer.Copied). simpl.
      split_and!; try done; try lia; set_solver.
    + exists (entry Packer.Failed). simpl.
      split_and!; try done; try lia. destruct left; set_solver.
Qed.

Lemma copy_series_fields (files : list Packer.tif_file) (st : Packer.state) :
  let st' := foldl copy_one st files in
  ∃ es, Packer.log st' = Packer.log st ++ es
        ∧ Packer.pl_file <$> es = files
        ∧ Forall (λ e, Packer.pl_folder e = Packer.current_folder_num st
                       ∧ Packer.pl_dst e
                         = Packer.join2 (Packer.target_path base plot today
                                           (Packer.current_folder_num st))
                             (Packer.filename (Packer.pl_file e))) es
        ∧ Packer.i st' = Packer.i st
        ∧ Packer.current_folder_num st' = Packer.current_folder_num st
        ∧ Packer.summary st' = Packer.summary st
        ∧ Packer.current_folder_count st'
          = Packer.current_folder_count st
            + length (filter (λ e, Packer.counted e = true) es)
        ∧ Packer.total_copied st' + Packer.total_skipped st'
          = Packer.total_copied st + Packer.total_skipped st
            + length (filter (λ e, Packer.counted e = true) es)
        ∧ Packer.total_skipped st ≤ Packer.total_skipped st'
        ∧ Packer.dest st ⊆ Packer.dest st'
        ∧ Forall (λ e, Packer.counted e = true → Packer.pl_dst e ∈ Packer.dest st') es
        ∧ Forall (λ e, Packer.pl_dst e ∈ Packer.dest st
                       → Packer.pl_outcome e = Packer.Skipped) es
        ∧ (Forall (λ e, Packer.pl_outcome e = Packer.Skipped) es →
             Packer.dest st' = Packer.dest st
             ∧ Packer.total_copied st' = Packer.total_copied st
             ∧ Packer.total_skipped st' = Packer.total_skipped st + length es).
Proof.
  revert st. induction files as [|f files IH] using rev_ind; intros st st'.
  - exists []. subst st'. simpl. rewrite app_nil_r.
    split_and!; try done; lia.
  - subst st'. rewrite foldl_snoc.
    destruct (IH st) as (es & Hlog & Hfiles & Hfold & Hi & Hnum & Hsum & Hcnt
                          & Htot & Hsk & Hdest & Hin & Hpre & Hall).
    set (st1 := foldl copy_one st files) in *.
    destruct (copy_one_fields st1 f) as (e & Hlog' & Hfile' & Hfold' & Hdst' & Hi' & Hnum'
                                         & Hsum' & Hcnt' & Htot' & Hsk' & Hdest' & Hin'
                                         & Hpre' & Hall').
    exists (es ++ [e]). rewrite filter_app, !length_app.
    assert (length (filter (λ e, Packer.counted e = true) [e])
            = if Packer.counted e then 1 else 0) as ->.
    { rewrite filter_cons, filter_nil. by destruct (Packer.counted e). }
    split_and!; try congruence; try lia.
    + by rewrite Hlog', Hlog, app_assoc.
    + by rewrite fmap_app, Hfiles, <- Hfile'.
    + apply Forall_app. split; [done |]. apply Forall_singleton.
      rewrite Hfile'. split; congruence.
    + set_solver.
    + apply Forall_app. split; [| by apply Forall_singleton].
      eapply Forall_impl; [exact Hin |]. simpl. set_solver.
    + apply Forall_app. split; [done |]. apply Forall_singleton.
      intros Hd. apply Hpre'. set_solver.
    + intros [Hes He]%Forall_app. rewrite Forall_singleton in He.
      destruct (Hall Hes) as (E1 & E2 & E3).
      destruct (Hall' He) as (E1' & E2' & E3'). simpl.
      split_and!; [congruence | congruence | lia].
Qed.

(** *** One iteration, and the loop *)

Lemma turn_fields (st : Packer.state) :
  Packer.i st < length L →
  let sc := series_count (Packer.i st) in
  let st1 := Packer.rolled L cap st in
  ∃ es, Packer.log (turn st) = Packer.log st ++ es
        ∧ Packer.pl_file <$> es = take sc (drop (Packer.i st) L)
        ∧ length es = sc
        ∧ Forall (λ e, Packer.pl_folder e = Packer.current_folder_num st1
                       ∧ Packer.pl_dst e
                         = Packer.join2 (Packer.target_path base plot today
                                           (Packer.current_folder_num st1))
                             (Packer.filename (Packer.pl_file e))) es
        ∧ Packer.i (turn st) = Packer.i st + sc
        ∧ Packer.current_folder_num (turn st) = Packer.current_folder_num st1
        ∧ Packer.summary (turn st) = Packer.summary st1
        ∧ Packer.current_folder_count (turn st)
          = Packer.current_folder_count st1
            + length (filter (λ e, Packer.counted e = true) es)
        ∧ Packer.total_copied (turn st) + Packer.total_skipped (turn st)
          = Packer.total_copied st + Packer.total_skipped st
            + length (filter (λ e, Packer.counted e = true) es)
        ∧ Packer.total_skipped st ≤ Packer.total_skipped (turn st)
        ∧ Packer.dest st ⊆ Packer.dest (turn st)
        ∧ Forall (λ e, Packer.counted e = true
                       → Packer.pl_dst e ∈ Packer.dest (turn st)) es
        ∧ Forall (λ e, Packer.pl_dst e ∈ Packer.dest st
                       → Packer.pl_outcome e = Packer.Skipped) es
        ∧ (Forall (λ e, Packer.pl_outcome e = Packer.Skipped) es →
             Packer.dest (turn st)
             = Packer.add_dirs (Packer.target_path base plot today
                                  (Packer.current_folder_num st1))
                 (Packer.dest st)
             ∧ Packer.total_copied (turn st) = Packer.total_copied st
             ∧ Packer.total_skipped (turn st) = Packer.total_skipped st + length es)
        ∧ list_to_set (Packer.made_dirs
                         (Packer.target_path base plot today
                            (Packer.current_folder_num st1)))
          ⊆ Packer.dest (turn st).
Proof.
  intros Hi sc st1. unfold Packer.turn. fold sc. fold st1.
  destruct (copy_series_fields (take sc (drop (Packer.i st) L))
              (Packer.makedirs base plot today st1))
    as (es & Hlog & Hfiles & Hfold & Hi' & Hnum & Hsum & Hcnt & Htot & Hsk
        & Hdest & Hin & Hpre & Hall).
  assert (Packer.log st1 = Packer.log st ∧ Packer.dest st1 = Packer.dest st
          ∧ Packer.total_copied st1 = Packer.total_copied st
          ∧ Packer.total_skipped st1 = Packer.total_skipped st
          ∧ Packer.i st1 = Packer.i st) as (E1 & E2 & E3 & E4 & E5).
  { subst st1. unfold Packer.rolled. by destruct (Packer.must_roll cap st _). }
  pose proof (series_count_bounds (Packer.i st) Hi) as [_ Hle].
  assert (length es = sc) as Hlen.
  { apply (f_equal length) in Hfiles.
    rewrite length_fmap, length_take, length_drop in Hfiles.
    unfold sc in *. lia. }
  cbn [Packer.makedirs Packer.log Packer.dest Packer.i Packer.summary
       Packer.current_folder_num Packer.current_folder_count
       Packer.total_copied Packer.total_skipped] in *.
  rewrite add_dirs_union in *.
  exists es. simpl. rewrite E1, E2, E3, E4, E5 in *.
  split_and!; try done; try lia.
  - set_solver.
  - eapply Forall_impl; [exact Hpre |]. simpl. set_solver.
  - set_solver.
Qed.

Context (mk : string → bool).

Local Abbreviation body := (Packer.body L cap base plot today mk copy2).
Local Abbreviation while_loop :=
  (Packer.while_loop L cap base plot today mk copy2).
Local Abbreviation pack := (Packer.pack L cap base plot today mk copy2).

Lemma body_Some (st st' : Packer.state) :
  body st = Some st' ↔
  mk (Packer.target_path base plot today
        (Packer.current_folder_num (Packer.rolled L cap st))) = false
  ∧ st' = turn st.
Proof.
  unfold Packer.body. destruct (mk _); [naive_solver |].
  split; [by intros [= <-] | by intros [_ ->]].
Qed.

Lemma while_loop_inv (P : Packer.state → Prop) (fuel : nat) (st r : Packer.state) :
  P st →
  (∀ s, P s → Packer.i s < length L → P (turn s)) →
  while_loop fuel st = Some r →
  P r ∧ length L ≤ Packer.i r.
Proof.
  intros HP Hstep. revert st HP.
  induction fuel as [|fuel IH]; intros st HP; simpl;
    destruct (Packer.i st <? length L) eqn:Hc; try discriminate.
  - intros [= <-]. apply Nat.ltb_ge in Hc. done.
  - apply Nat.ltb_lt in Hc. intros Hr.
    apply bind_Some in Hr as (st' & [_ ->]%body_Some & Hr).
    eapply IH; [| exact Hr]. by apply Hstep.
  - intros [= <-]. apply Nat.ltb_ge in Hc. done.
Qed.

Lemma while_loop_total (fuel : nat) (st : Packer.state) :
  (∀ k, mk (Packer.target_path base plot today k) = false) →
  length L - Packer.i st ≤ fuel → is_Some (while_loop fuel st).
Proof.
  intros Hmk. revert st. induction fuel as [|fuel IH]; intros st Hfuel; simpl;
    destruct (Packer.i st <? length L) eqn:Hc; try done.
  - apply Nat.ltb_lt in Hc. lia.
  - apply Nat.ltb_lt in Hc. unfold Packer.body. rewrite Hmk. simpl. apply IH.
    destruct (turn_fields st Hc) as (es & _ & _ & _ & _ & Hi & _).
    pose proof (series_count_bounds (Packer.i st) Hc). lia.
Qed.

(** The loop stops without a result only when [os.makedirs] raises. *)
Lemma while_loop_None (fuel : nat) (st : Packer.state) :
  length L - Packer.i st ≤ fuel → while_loop fuel st = None →
  ∃ k, mk (Packer.target_path base plot today k) = true.
Proof.
  revert st. induction fuel as [|fuel IH]; intros st Hfuel; simpl;
    destruct (Packer.i st <? length L) eqn:Hc; try done.
  - apply Nat.ltb_lt in Hc. lia.
  - apply Nat.ltb_lt in Hc. unfold Packer.body.
    destruct (mk _) eqn:Hmk; [eauto |]. simpl. apply IH.
    destruct (turn_fields st Hc) as (es & _ & _ & _ & _ & Hi & _).
    pose proof (series_count_bounds (Packer.i st) Hc). lia.
Qed.

Lemma pack_total (dest0 : gset string) :
  (∀ k, mk (Packer.target_path base plot today k) = false) →
  is_Some (pack dest0).
Proof.
  intros Hmk. unfold Packer.pack.
  destruct (while_loop_total (length L) (Packer.initial dest0) Hmk) as [r Hr];
    [simpl; lia |].
  rewrite Hr. by eexists.
Qed.

Lemma pack_None (dest0 : gset string) :
  pack dest0 = None →
  ∃ k, mk (Packer.target_path base plot today k) = true.
Proof.
  unfold Packer.pack. intros H. apply fmap_None in H.
  apply (while_loop_None (length L) (Packer.initial dest0)); [simpl; lia | done].
Qed.

End packer_facts.

(** *** The accounting invariant *)

Lemma bin_count_app (b : nat) (l1 l2 : list Packer.placement) :
  PackerSpec.bin_count b (l1 ++ l2)
  = PackerSpec.bin_count b l1 + PackerSpec.bin_count b l2.
Proof. unfold PackerSpec.bin_count. by rewrite filter_app, length_app. Qed.

Lemma bin_count_other (b : nat) (es : list Packer.placement) :
  Forall (λ e, Packer.pl_folder e ≠ b) es → PackerSpec.bin_count b es = 0.
Proof.
  unfold PackerSpec.bin_count. induction 1 as [|e es He _ IH]; [done |].
  rewrite filter_cons_False; [done | tauto].
Qed.

Lemma bin_count_same (b : nat) (es : list Packer.placement) :
  Forall (λ e, Packer.pl_folder e = b) es →
  PackerSpec.bin_count b es = length (filter (λ e, Packer.counted e = true) es).
Proof.
  unfold PackerSpec.bin_count. induction 1 as [|e es He _ IH]; [done |].
  rewrite !filter_cons. destruct (Packer.counted e) eqn:Hc.
  - rewrite decide_True by done. rewrite decide_True by done. simpl. by rewrite IH.
  - rewrite decide_False by (intros [? _]; congruence).
    rewrite decide_False by congruence. done.
Qed.

Lemma sum_list_snoc (l : list nat) (x : nat) : sum_list (l ++ [x]) = sum_list l + x.
Proof. induction l as [|y l IH]; simpl; lia. Qed.

Lemma sum_summary_snoc (l : list (string * nat)) (x : string * nat) :
  sum_list (snd <$> (l ++ [x])) = sum_list (snd <$> l) + x.2.
Proof. rewrite fmap_app. apply sum_list_snoc. Qed.

Lemma summary_ext (l es : list Packer.placement) (n : nat) :
  Forall (λ e, n ≤ Packer.pl_folder e) es →
  (λ b, (Packer.zfill3 b, PackerSpec.bin_count b (l ++ es))) <$> seq 0 n
  = (λ b, (Packer.zfill3 b, PackerSpec.bin_count b l)) <$> seq 0 n.
Proof.
  intros Hes. apply list_fmap_ext. intros k b [-> Hk]%lookup_seq. simpl.
  rewrite bin_count_app, (bin_count_other _ es); [by rewrite Nat.add_0_r |].
  eapply Forall_impl; [exact Hes |]. simpl. lia.
Qed.

Section packer_accounting.
Context (L : list Packer.tif_file) (cap : nat).
Context (base plot today : string).
Context (copy2 : string → string → Packer.copy_result).

Local Abbreviation turn := (Packer.turn L cap base plot today copy2).

Lemma accounted_initial (dest0 : gset string) :
  PackerSpec.accounted L (Packer.initial dest0).
Proof.
  unfold PackerSpec.accounted. simpl. split_and!; try done; lia.
Qed.

Lemma accounted_body (st : Packer.state) :
  PackerSpec.accounted L st → Packer.i st < length L →
  PackerSpec.accounted L (turn st).
Proof.
  intros (Hfiles & Hile & Hsum & Hcnt & Hfold & Hpos & Htot & Hcs) Hi.
  destruct (turn_fields L cap base plot today copy2 st Hi)
    as (es & Hlog & Hesf & Hlen & Hes & Hi' & Hnum' & Hsum' & Hcnt' & Hcs'
        & _ & _ & _).
  pose proof (series_count_bounds L (Packer.i st) Hi) as [_ Hle].
  assert (Forall (λ e, Packer.pl_folder e
                       = Packer.current_folder_num (turn st)) es) as Hes'.
  { rewrite Hnum'. eapply Forall_impl; [exact Hes |]. simpl. tauto. }
  unfold PackerSpec.accounted.
  rewrite Hlog, Hi', Hsum', Hcnt', Hcs', filter_app, length_app.
  rewrite fmap_app, Hfiles, Hesf, take_take_drop.
  rewrite bin_count_app, (bin_count_same _ es Hes').
  rewrite Hnum' in *. unfold Packer.rolled in *.
  destruct (Packer.must_roll cap st (Packer.series_count L (Packer.i st)))
    eqn:Hroll; simpl in *.
  - apply andb_true_iff in Hroll as [Hpos' _]. apply Nat.ltb_lt in Hpos'.
    rewrite (bin_count_other _ (Packer.log st))
      by (eapply Forall_impl; [exact Hfold |]; simpl; lia).
    split_and!; try done; try lia.
    + rewrite Nat.add_1_r, seq_S, fmap_app. simpl.
      rewrite summary_ext
        by (eapply Forall_impl; [exact Hes' |]; simpl; lia).
      rewrite <- Hsum. do 3 f_equal.
      rewrite bin_count_app, (bin_count_other _ es), <- Hcnt; [lia |].
      eapply Forall_impl; [exact Hes' |]. simpl. lia.
    + apply Forall_app. split.
      * eapply Forall_impl; [exact Hfold |]. simpl. lia.
      * eapply Forall_impl; [exact Hes' |]. simpl. lia.
    + apply Forall_app. split; [done |]. by apply Forall_singleton.
    + rewrite sum_summary_snoc. simpl. lia.
  - split_and!; try done; try lia.
    + rewrite summary_ext; [done |].
      eapply Forall_impl; [exact Hes' |]. simpl. lia.
    + apply Forall_app. split; [done |].
      eapply Forall_impl; [exact Hes' |]. simpl. lia.
Qed.

Context (mk : string → bool).

Lemma accounted_pack (dest0 : gset string) (r : Packer.state) :
  Packer.pack L cap base plot today mk copy2 dest0 = Some r →
  Packer.pl_file <$> Packer.log r = L
  ∧ sum_list (snd <$> Packer.summary r)
    = length (filter (λ e, Packer.counted e = true) (Packer.log r))
  ∧ Packer.total_copied r + Packer.total_skipped r
    = length (filter (λ e, Packer.counted e = true) (Packer.log r))
  ∧ (∀ b folder c, Packer.summary r !! b = Some (folder, c) →
       folder = Packer.zfill3 b ∧ 0 < c
       ∧ c = PackerSpec.bin_count b (Packer.log r)).
Proof.
  unfold Packer.pack. intros Hr.
  apply fmap_Some in Hr as (st & Hloop & ->).
  apply (while_loop_inv L cap base plot today copy2 mk (PackerSpec.accounted L))
    in Hloop as [(Hfiles & Hile & Hsum & Hcnt & Hfold & Hpos & Htot & Hcs) Hend];
    [| apply accounted_initial | apply accounted_body].
  assert (Packer.log (Packer.finish st) = Packer.log st) as ->
    by (unfold Packer.finish; by destruct (_ <? _)).
  assert (Packer.total_copied (Packer.finish st) = Packer.total_copied st) as ->
    by (unfold Packer.finish; by destruct (_ <? _)).
  assert (Packer.total_skipped (Packer.finish st) = Packer.total_skipped st) as ->
    by (unfold Packer.finish; by destruct (_ <? _)).
  split_and!; [| | done |].
  - rewrite Hfiles. apply take_ge. lia.
  - unfold Packer.finish. destruct (0 <? _) eqn:Hc; simpl.
    + rewrite sum_summary_snoc. simpl. lia.
    + apply Nat.ltb_ge in Hc. lia.
  - intros b folder c. unfold Packer.finish.
    destruct (0 <? _) eqn:Hc; simpl.
    + apply Nat.ltb_lt in Hc.
      destruct (decide (b < length (Packer.summary st))) as [Hb|Hb].
      * rewrite lookup_app_l by done. rewrite Hsum, list_lookup_fmap.
        intros Hlk. pose proof Hlk as Hlk'.
        rewrite <- list_lookup_fmap, <- Hsum in Hlk'.
        apply list_elem_of_lookup_2 in Hlk'.
        rewrite Forall_forall in Hpos. specialize (Hpos _ Hlk').
        apply fmap_Some in Hlk as (b' & [-> _]%lookup_seq & [= -> ->]).
        simpl in *. done.
      * rewrite lookup_app_r by lia.
        assert (length (Packer.summary st) = Packer.current_folder_num st) as Hl
          by (rewrite Hsum, length_fmap, length_seq; done).
        intros Hlk. apply list_lookup_singleton_Some in Hlk as [Hb0 [= <- <-]].
        assert (b = Packer.current_folder_num st) as -> by lia.
        done.
    + rewrite Hsum, list_lookup_fmap. intros Hlk. pose proof Hlk as Hlk'.
      rewrite <- list_lookup_fmap, <- Hsum in Hlk'.
      apply list_elem_of_lookup_2 in Hlk'.
      rewrite Forall_forall in Hpos. specialize (Hpos _ Hlk').
      apply fmap_Some in Hlk as (b' & [-> _]%lookup_seq & [= -> ->]).
      simpl in *. done.
Qed.

End packer_accounting.

Lemma counted_or_failed (l : list Packer.placement) :
  length (filter (λ e, Packer.counted e = true) l) + PackerSpec.failures l
  = length l.
Proof.
  unfold PackerSpec.failures. induction l as [|e l IH]; [done |].
  rewrite !filter_cons.
  destruct (decide (Packer.pl_outcome e = Packer.Failed)) as [Hf|Hf].
  - rewrite decide_False; [simpl; lia |].
    unfold Packer.counted. rewrite (bool_decide_eq_true_2 _ Hf). done.
  - rewrite decide_True; [simpl; lia |].
    unfold Packer.counted. rewrite (bool_decide_eq_false_2 _ Hf). done.
Qed.

(** *** The name of a folder *)

Lemma pretty_go_length (x : N) (s : string) :
  String.length s ≤ String.length (pretty_N_go x s).
Proof.
  revert s. induction (N.lt_wf_0 x) as [x _ IH]; intros s.
  assert (x = 0 ∨ 0 < x)%N as [->|Hx] by lia; [by rewrite pretty_N_go_0 |].
  rewrite pretty_N_go_step by done.
  etrans; [| apply IH; by apply N.div_lt]. simpl. lia.
Qed.

Lemma pretty_go_no_slash (x : N) (s s' : string) :
  s ≠ String "/" s' → pretty_N_go x s ≠ String "/" s'.
Proof.
  revert s. induction (N.lt_wf_0 x) as [x _ IH]; intros s Hs.
  assert (x = 0 ∨ 0 < x)%N as [->|Hx] by lia; [by rewrite pretty_N_go_0 |].
  rewrite pretty_N_go_step by done. apply IH; [by apply N.div_lt |].
  unfold pretty_N_char. by repeat case_match.
Qed.

Lemma pretty_nat_no_slash (n : nat) : String.prefix "/" (pretty n) = false.
Proof.
  destruct (String.prefix "/" (pretty n)) eqn:E; [| done]. exfalso.
  apply prefix_spec in E as [r Hr]. revert Hr.
  unfold pretty, pretty_nat, pretty, pretty_N.
  destruct (decide (N.of_nat n = 0%N)); [discriminate |].
  by apply pretty_go_no_slash.
Qed.

Lemma pretty_nat_long (n : nat) : 100 ≤ n → 3 ≤ String.length (pretty n).
Proof.
  intros Hn. unfold pretty, pretty_nat, pretty, pretty_N.
  destruct (decide (N.of_nat n = 0%N)); [lia |].
  assert (100 ≤ N.of_nat n)%N as Hx by lia.
  assert (10 ≤ N.of_nat n `div` 10)%N as H1
    by (apply N.div_le_lower_bound; lia).
  assert (1 ≤ N.of_nat n `div` 10 `div` 10)%N as H2
    by (apply N.div_le_lower_bound; lia).
  rewrite 3!pretty_N_go_step by lia.
  etrans; [| apply pretty_go_length]. simpl. lia.
Qed.

Lemma zfill3_small :
  Forall (λ n, Packer.zfill3 n = PackerSpec.zero_padded n) (seq 0 100).
Proof. apply (bool_decide_unpack _). vm_compute. reflexivity. Qed.

(** [str(n).zfill(3)] is [n] in decimal, with zeros in front up to three
    characters. *)
Lemma zfill3_zero_padded (n : nat) : Packer.zfill3 n = PackerSpec.zero_padded n.
Proof.
  destruct (decide (n < 100)) as [Hn|Hn].
  - pose proof zfill3_small as H. rewrite Forall_lookup in H.
    apply (H n). by apply lookup_seq.
  - unfold PackerSpec.zero_padded, Packer.zfill3.
    rewrite (proj2 (Nat.ltb_ge n 10)) by lia.
    rewrite (proj2 (Nat.ltb_ge n 100)) by lia.
    pose proof (pretty_nat_long n ltac:(lia)) as Hl.
    replace (3 - String.length (pretty n)) with 0 by lia. reflexivity.
Qed.

Lemma zfill3_no_slash (n : nat) : String.prefix "/" (Packer.zfill3 n) = false.
Proof.
  rewrite zfill3_zero_padded. unfold PackerSpec.zero_padded.
  destruct (n <? 10); [reflexivity |].
  destruct (n <? 100); [reflexivity |]. apply pretty_nat_no_slash.
Qed.

Lemma str_app_inv_head (p a b : string) : p +:+ a = p +:+ b → a = b.
Proof.
  induction p as [|c p IH]; [done |].
  rewrite !str_app_cons. intros [= H]. by apply IH.
Qed.

Lemma zfill3_succ (n : nat) : Packer.zfill3 (n + 1) ≠ Packer.zfill3 n.
Proof.
  destruct (decide (n + 1 < 100)) as [Hn|Hn].
  - assert (Forall (λ k, Packer.zfill3 (k + 1) ≠ Packer.zfill3 k) (seq 0 100))
      as H by (apply (bool_decide_unpack _); vm_compute; reflexivity).
    rewrite Forall_lookup in H. apply (H n). apply lookup_seq. lia.
  - rewrite !zfill3_zero_padded. unfold PackerSpec.zero_padded.
    rewrite (proj2 (Nat.ltb_ge (n + 1) 10)) by lia.
    rewrite (proj2 (Nat.ltb_ge (n + 1) 100)) by lia.
    destruct (decide (n = 99)) as [->|Hne]; [by vm_compute |].
    rewrite (proj2 (Nat.ltb_ge n 10)) by lia.
    rewrite (proj2 (Nat.ltb_ge n 100)) by lia.
    intros H. apply (inj pretty) in H. lia.
Qed.

(** Folders of different index are different directories. *)
Lemma target_path_succ (base plot today : string) (n : nat) :
  Packer.target_path base plot today (n + 1)
  ≠ Packer.target_path base plot today n.
Proof.
  unfold Packer.target_path, Packer.path_join. simpl.
  generalize (Packer.join2
    (Packer.join2
       (Packer.join2 (Packer.join2 (Packer.join2 base plot) today) "imagery")
       "multispec") "level0_raw").
  intros P. unfold Packer.join2.
  rewrite !zfill3_no_slash.
  destruct (bool_decide (P = "") || Py.endswith P "/");
    intros H; apply str_app_inv_head in H.
  - by apply zfill3_succ in H.
  - rewrite !str_app_cons in H. injection H as H. by apply zfill3_succ in H.
Qed.

(** C5. In an iteration that starts with a non-empty current folder and
    a series that would take its count above the cap, the current folder
    is closed with its count and the folder with the next index is
    opened with the count restarted from 0: its name is the index in
    decimal, zero padded to three digits, it is another directory than
    the folder just closed, it exists afterwards, and every file of the
    series goes into it. The iteration fails only when [os.makedirs]
    raises for the new folder. In particular a series of 11 files that
    arrives at count = cap - 5 goes whole into the new folder. *)
Theorem rollover_opens_next_folder
    (L : list Packer.tif_file) (cap : nat) (base plot today : string)
    (makedirs_raises : string → bool)
    (copy2 : string → string → Packer.copy_result) (st : Packer.state) :
  Packer.i st < length L →
  0 < Packer.current_folder_count st →
  let body := Packer.body L cap base plot today makedirs_raises copy2 in
  let next := Packer.target_path base plot today
                (Packer.current_folder_num st + 1) in
  (cap < Packer.current_folder_count st + Packer.series_count L (Packer.i st) →
   (body st = None ↔ makedirs_raises next = true)
   ∧ ∀ st', body st = Some st' →
       PackerSpec.rolled_over L base plot today
         (Packer.series_count L (Packer.i st)) st st')
  ∧ (Packer.series_count L (Packer.i st) = 11 →
     Packer.current_folder_count st + 5 = cap →
     (body st = None ↔ makedirs_raises next = true)
     ∧ ∀ st', body st = Some st' →
         PackerSpec.rolled_over L base plot today 11 st st').
Proof.
  intros Hi Hpos body next.
  assert (cap < Packer.current_folder_count st + Packer.series_count L (Packer.i st) →
          (body st = None ↔ makedirs_raises next = true)
          ∧ ∀ st', body st = Some st' →
              PackerSpec.rolled_over L base plot today
                (Packer.series_count L (Packer.i st)) st st') as Hgen.
  { intros Hover.
    assert (Packer.must_roll cap st (Packer.series_count L (Packer.i st)) = true)
      as Hroll.
    { unfold Packer.must_roll. apply andb_true_iff.
      split; by apply Nat.ltb_lt. }
    assert (Packer.rolled L cap st = Packer.rollover st) as Hrolled
      by (unfold Packer.rolled; by rewrite Hroll).
    split.
    - subst body next. unfold Packer.body. rewrite Hrolled. simpl.
      by destruct (makedirs_raises _).
    - intros st' [_ ->]%body_Some.
      pose proof (turn_fields L cap base plot today copy2 st Hi) as H.
      cbv zeta in H. rewrite Hrolled in H.
      set (T := Packer.turn L cap base plot today copy2 st) in *.
      destruct H as (es & Hlog & Hfiles & Hlen & Hes & Hi' & Hnum & Hsum
                     & Hcnt & _ & _ & _ & _ & _ & Hmade).
      cbn [Packer.rollover Packer.current_folder_num Packer.summary
           Packer.current_folder_count] in *.
      rewrite Nat.add_0_l in Hcnt.
      unfold PackerSpec.rolled_over. split_and!; try done.
      + by rewrite Hsum, <- zfill3_zero_padded.
      + unfold Packer.target_path, Packer.path_join. simpl.
        by rewrite zfill3_zero_padded.
      + apply target_path_succ.
      + apply Hmade, elem_of_list_to_set, made_dirs_self.
      + exists es. split_and!; done. }
  split; [exact Hgen |].
  intros H11 H5. rewrite <- H11. apply Hgen. lia.
Qed.

Lemma rollover_opens_next_folder_witness :
  let L := Fixtures.series "IMG_0001" 11 ++ Fixtures.series "IMG_0002" 11 in
  let st := Packer.turn L 16 "/data" "NTAFIN0001" "20251111" Fixtures.copy_ok
              (Packer.initial ∅) in
  (Packer.i st < length L ∧ 0 < Packer.current_folder_count st
   ∧ Packer.series_count L (Packer.i st) = 11
   ∧ Packer.current_folder_count st + 5 = 16)
  ∧ PackerSpec.rolled_over L "/data" "NTAFIN0001" "20251111" 11 st
      (Packer.turn L 16 "/data" "NTAFIN0001" "20251111" Fixtures.copy_ok st).
Proof.
  intros L st.
  assert (Packer.i st < length L) as H1 by (vm_compute; lia).
  assert (0 < Packer.current_folder_count st) as H2 by (vm_compute; lia).
  assert (Packer.series_count L (Packer.i st) = 11) as H3 by (vm_compute; reflexivity).
  assert (Packer.current_folder_count st + 5 = 16) as H4 by (vm_compute; reflexivity).
  split; [exact (conj H1 (conj H2 (conj H3 H4))) |].
  exact (proj2 (proj2 (rollover_opens_next_folder L 16 "/data" "NTAFIN0001"
                         "20251111" Fixtures.makedirs_ok Fixtures.copy_ok st
                         H1 H2) H3 H4) _ eq_refl).
Defined.

(** *** The placements and the destination *)

Section packer_replay.
Context (L : list Packer.tif_file) (cap : nat).
Context (base plot today : string).
Context (copy2 : string → string → Packer.copy_result).
Context (dest0 : gset string).

Local Abbreviation copy_one := (Packer.copy_one base plot today copy2).
Local Abbreviation turn := (Packer.turn L cap base plot today copy2).
Local Abbreviation after :=
  (PackerSpec.exists_after base plot today copy2 dest0).
Local Abbreviation replayed :=
  (PackerSpec.replayed base plot today copy2 dest0).
Local Abbreviation made n :=
  (list_to_set (C := gset string)
     (Packer.made_dirs (Packer.target_path base plot today n))).

Lemma exists_after_snoc (l : list Packer.placement) (e : Packer.placement) :
  after (l ++ [e])
  = after l ∪ made (Packer.pl_folder e)
    ∪ (if PackerSpec.left_behind copy2 e then {[Packer.pl_dst e]} else ∅).
Proof.
  unfold PackerSpec.exists_after, PackerSpec.folders_made, PackerSpec.written.
  rewrite bind_app, filter_app, fmap_app, !list_to_set_app_L.
  rewrite filter_cons, filter_nil. simpl. rewrite app_nil_r.
  destruct (PackerSpec.left_behind copy2 e); simpl; set_solver.
Qed.

Lemma replayed_snoc (l : list Packer.placement) (e : Packer.placement) :
  replayed l →
  Packer.pl_outcome e
  = PackerSpec.expected_outcome base plot today copy2 dest0 l e →
  replayed (l ++ [e]).
Proof.
  intros Hl He k e' Hk.
  destruct (decide (k < length l)) as [Hlt|Hge].
  - rewrite lookup_app_l in Hk by done.
    rewrite take_app_le by lia. by apply Hl.
  - rewrite lookup_app_r in Hk by lia.
    apply list_lookup_singleton_Some in Hk as [Hk0 <-].
    assert (k = length l) as -> by lia.
    by rewrite take_app_length.
Qed.

(** One copy keeps the destination what the placements say. *)
Lemma copy_one_replay (st : Packer.state) (f : Packer.tif_file) :
  Packer.dest st = after (Packer.log st) ∪ made (Packer.current_folder_num st) →
  replayed (Packer.log st) →
  Packer.dest (copy_one st f)
  = after (Packer.log (copy_one st f)) ∪ made (Packer.current_folder_num st)
  ∧ replayed (Packer.log (copy_one st f))
  ∧ Packer.current_folder_num (copy_one st f) = Packer.current_folder_num st
  ∧ made (Packer.current_folder_num st) ⊆ after (Packer.log (copy_one st f)).
Proof.
  intros Hd Hr. unfold Packer.copy_one. rewrite !add_path_union.
  set (dst := Packer.join2 _ _).
  set (entry := Packer.Placement f (Packer.current_folder_num st) dst).
  assert (∀ o, Packer.pl_outcome (entry o)
               = PackerSpec.expected_outcome base plot today copy2 dest0
                   (Packer.log st) (entry o) →
          replayed (Packer.log st ++ [entry o])) as Hsnoc
    by (intros o; by apply replayed_snoc).
  assert (∀ o, PackerSpec.expected_outcome base plot today copy2 dest0
                 (Packer.log st) (entry o)
               = if decide (dst ∈ Packer.dest st) then Packer.Skipped
                 else match copy2 (Packer.full_path f) dst with
                      | Packer.CopyDone => Packer.Copied
                      | Packer.CopyRaised _ => Packer.Failed
                      end) as Hexp.
  { intros o. unfold PackerSpec.expected_outcome. simpl. rewrite <- Hd.
    by destruct (decide _). }
  destruct (decide (dst ∈ Packer.dest st)) as [Hin|Hnin].
  - cbn [Packer.dest Packer.log Packer.current_folder_num].
    rewrite exists_after_snoc. simpl.
    split_and!; [set_solver | | done | set_solver].
    apply Hsnoc. by rewrite Hexp.
  - destruct (copy2 (Packer.full_path f) dst) as [|left] eqn:Hc;
      cbn [Packer.dest Packer.log Packer.current_folder_num];
      rewrite exists_after_snoc; unfold PackerSpec.left_behind;
      cbn [Packer.pl_outcome Packer.pl_folder Packer.pl_dst Packer.pl_file
           entry].
    + split_and!; [set_solver | | done | set_solver].
      apply Hsnoc. by rewrite Hexp, ?Hc.
    + rewrite Hc. split_and!; [destruct left; set_solver | | done | set_solver].
      apply Hsnoc. by rewrite Hexp, ?Hc.
Qed.

Lemma copy_series_replay (files : list Packer.tif_file) (st : Packer.state) :
  Packer.dest st = after (Packer.log st) ∪ made (Packer.current_folder_num st) →
  replayed (Packer.log st) →
  let st' := foldl copy_one st files in
  Packer.dest st' = after (Packer.log st') ∪ made (Packer.current_folder_num st)
  ∧ replayed (Packer.log st')
  ∧ Packer.current_folder_num st' = Packer.current_folder_num st
  ∧ (files ≠ [] → made (Packer.current_folder_num st) ⊆ after (Packer.log st')).
Proof.
  intros Hd Hr. induction files as [|f files IH] using rev_ind; [done |].
  cbv zeta in *. rewrite foldl_snoc.
  destruct IH as (Hd' & Hr' & Hn' & _).
  rewrite <- Hn' in Hd'.
  destruct (copy_one_replay _ f Hd' Hr') as (H1 & H2 & H3 & H4).
  rewrite Hn' in *. split_and!; [done | done | congruence | done].
Qed.

Lemma turn_replay (st : Packer.state) :
  Packer.i st < length L →
  Packer.dest st = after (Packer.log st) →
  replayed (Packer.log st) →
  Packer.dest (turn st) = after (Packer.log (turn st))
  ∧ replayed (Packer.log (turn st)).
Proof.
  intros Hi Hd Hr. unfold Packer.turn.
  set (st1 := Packer.makedirs base plot today (Packer.rolled L cap st)).
  assert (Packer.log st1 = Packer.log st
          ∧ Packer.dest st1
            = after (Packer.log st1) ∪ made (Packer.current_folder_num st1))
    as [El Ed].
  { subst st1. unfold Packer.makedirs, Packer.rolled.
    destruct (Packer.must_roll cap st _);
      cbn [Packer.dest Packer.log Packer.current_folder_num Packer.rollover];
      rewrite add_dirs_union, Hd; split; (done || set_solver). }
  pose proof (series_count_bounds L (Packer.i st) Hi) as [[Hsc _] Hle].
  assert (take (Packer.series_count L (Packer.i st)) (drop (Packer.i st) L) ≠ [])
    as Hne.
  { intros E. apply (f_equal length) in E.
    rewrite length_take, length_drop in E. simpl in E. lia. }
  rewrite <- El in Hr.
  destruct (copy_series_replay
              (take (Packer.series_count L (Packer.i st)) (drop (Packer.i st) L))
              st1 Ed Hr) as (H1 & H2 & _ & H4).
  cbn [Packer.advance Packer.dest Packer.log].
  split; [| done]. rewrite H1. specialize (H4 Hne). set_solver.
Qed.

Context (mk : string → bool).

(** When the packer returns, its placements tell what exists at the
    destination, and each placement has the outcome that the state of
    the destination and the copy give it. *)
Lemma pack_replayed (r : Packer.state) :
  Packer.pack L cap base plot today mk copy2 dest0 = Some r →
  Packer.dest r = after (Packer.log r) ∧ replayed (Packer.log r).
Proof.
  unfold Packer.pack. intros Hr. apply fmap_Some in Hr as (st & Hloop & ->).
  assert (Packer.log (Packer.finish st) = Packer.log st
          ∧ Packer.dest (Packer.finish st) = Packer.dest st) as [-> ->]
    by (unfold Packer.finish; by destruct (_ <? _)).
  apply (while_loop_inv L cap base plot today copy2 mk
           (λ s, Packer.dest s = after (Packer.log s) ∧ replayed (Packer.log s)))
    in Hloop as [H _]; [done | |].
  - split.
    + unfold PackerSpec.exists_after, PackerSpec.folders_made,
        PackerSpec.written. simpl. set_solver.
    + intros k e Hk. simpl in Hk. by rewrite lookup_nil in Hk.
  - intros s [Hd Hr'] Hi. by apply turn_replay.
Qed.

End packer_replay.

(** A placement fails exactly where the copy raises on a path that does
    not exist yet. *)
Lemma replayed_failed (base plot today : string)
    (copy2 : string → string → Packer.copy_result) (dest0 : gset string)
    (l : list Packer.placement) (e : Packer.placement) :
  PackerSpec.replayed base plot today copy2 dest0 l → e ∈ l →
  Packer.pl_outcome e = Packer.Failed →
  ∃ left, copy2 (Packer.full_path (Packer.pl_file e)) (Packer.pl_dst e)
          = Packer.CopyRaised left.
Proof.
  intros Hr [k Hk]%list_elem_of_lookup Hf. rewrite (Hr k e Hk) in Hf.
  unfold PackerSpec.expected_outcome in Hf.
  destruct (decide _); [discriminate |].
  destruct (copy2 _ _) as [|left]; [discriminate | by exists left].
Qed.

Section packer_more.
Context (L : list Packer.tif_file) (cap : nat).
Context (base plot today : string).
Context (copy2 : string → string → Packer.copy_result).

Local Abbreviation copy_one := (Packer.copy_one base plot today copy2).

Lemma copy_one_entry (st : Packer.state) (f : Packer.tif_file) :
  ∃ e, Packer.log (copy_one st f) = Packer.log st ++ [e]
       ∧ Packer.pl_dst e
         = Packer.join2 (Packer.target_path base plot today (Packer.pl_folder e))
             (Packer.filename (Packer.pl_file e))
       ∧ Packer.pl_folder e = Packer.current_folder_num st
       ∧ (Packer.pl_outcome e = Packer.Skipped ↔ Packer.pl_dst e ∈ Packer.dest st)
       ∧ Packer.dest st ⊆ Packer.dest (copy_one st f)
       ∧ Packer.dest (copy_one st f) ⊆ {[Packer.pl_dst e]} ∪ Packer.dest st
       ∧ (Packer.pl_outcome e = Packer.Copied →
          Packer.pl_dst e ∈ Packer.dest (copy_one st f)).
Proof.
  unfold Packer.copy_one. rewrite !add_path_union.
  set (dst := Packer.join2 _ _).
  set (entry := Packer.Placement f (Packer.current_folder_num st) dst).
  destruct (decide (dst ∈ Packer.dest st)) as [Hin|Hnin].
  - exists (entry Packer.Skipped). simpl. split_and!; try done; set_solver.
  - destruct (copy2 _ _) as [|left].
    + exists (entry Packer.Copied). simpl.
      split_and!; try done; try set_solver.
    + exists (entry Packer.Failed). simpl.
      split_and!; try done; try (destruct left; set_solver).
Qed.

Context (mk : string → bool).

(** A property kept by each primitive step of the loop holds of the
    result. *)
Lemma pack_induction (P : Packer.state → Prop) (dest0 : gset string)
    (r : Packer.state) :
  P (Packer.initial dest0) →
  (∀ st f, P st → P (copy_one st f)) →
  (∀ st, P st → P (Packer.rollover st)) →
  (∀ st, P st → P (Packer.makedirs base plot today st)) →
  (∀ st n, P st → P (Packer.advance n st)) →
  (∀ st, P st → P (Packer.finish st)) →
  Packer.pack L cap base plot today mk copy2 dest0 = Some r → P r.
Proof.
  intros Hinit Hcopy Hroll Hmake Hadv Hfin Hr.
  unfold Packer.pack in Hr. apply fmap_Some in Hr as (st & Hloop & ->).
  apply Hfin.
  apply (while_loop_inv L cap base plot today copy2 mk P) in Hloop as [H _];
    [done | done |].
  intros s Hs _. unfold Packer.turn. apply Hadv.
  assert (P (Packer.makedirs base plot today (Packer.rolled L cap s))) as H1.
  { apply Hmake. unfold Packer.rolled. destruct (Packer.must_roll _ _ _); auto. }
  revert H1. generalize (Packer.makedirs base plot today (Packer.rolled L cap s)).
  induction (take _ _) as [|f fs IH] using rev_ind; intros s1 Hs1; [done |].
  rewrite foldl_snoc. apply Hcopy. by apply IH.
Qed.

Lemma capacity_kept (dest0 : gset string) (r : Packer.state) :
  Packer.pack L cap base plot today mk copy2 dest0 = Some r →
  Forall (λ x, x.2 ≤ cap ∨ x.2 ≤ 11) (Packer.summary r).
Proof.
  unfold Packer.pack. intros Hr. apply fmap_Some in Hr as (st & Hloop & ->).
  apply (while_loop_inv L cap base plot today copy2 mk
           (λ s, (Packer.current_folder_count s ≤ cap
                  ∨ Packer.current_folder_count s ≤ 11)
                 ∧ Forall (λ x, x.2 ≤ cap ∨ x.2 ≤ 11) (Packer.summary s)))
    in Hloop as [[Hc Hs] _].
  - unfold Packer.finish. destruct (_ <? _); [| done].
    simpl. apply Forall_app. split; [done |]. by apply Forall_singleton.
  - simpl. split; [lia | done].
  - intros s [Hc Hs] Hi.
    destruct (turn_fields L cap base plot today copy2 s Hi)
      as (es & _ & _ & Hlen & _ & _ & _ & Hsum & Hcnt & _).
    pose proof (series_count_bounds L (Packer.i s) Hi) as [[_ H11] _].
    pose proof (length_filter (λ e, Packer.counted e = true) es) as Hf.
    rewrite Hsum, Hcnt. unfold Packer.rolled, Packer.must_roll in *.
    destruct (0 <? Packer.current_folder_count s) eqn:H0; simpl.
    + destruct (cap <? _) eqn:Hover; simpl.
      * split; [lia |]. apply Forall_app. split; [done |].
        by apply Forall_singleton.
      * apply Nat.ltb_ge in Hover. split; [lia | done].
    + apply Nat.ltb_ge in H0. split; [lia | done].
Qed.

End packer_more.

(** Every placement is at the path of its folder and file name. *)
Lemma placements_at_target
    (L : list Packer.tif_file) (cap : nat) (base plot today : string)
    (copy2 : string → string → Packer.copy_result) (mk : string → bool)
    (dest0 : gset string) (r : Packer.state) :
  Packer.pack L cap base plot today mk copy2 dest0 = Some r →
  Forall (λ e, Packer.pl_dst e
               = Packer.join2 (Packer.target_path base plot today
                                 (Packer.pl_folder e))
                   (Packer.filename (Packer.pl_file e)))
    (Packer.log r).
Proof.
  apply (pack_induction L cap base plot today copy2 mk
           (λ st, Forall (λ e, Packer.pl_dst e
                       = Packer.join2 (Packer.target_path base plot today
                                         (Packer.pl_folder e))
                           (Packer.filename (Packer.pl_file e)))
                    (Packer.log st))).
  - constructor.
  - intros st f Hall.
    destruct (copy_one_entry base plot today copy2 st f)
      as (e & Hlog & Hdst & _).
    rewrite Hlog. apply Forall_app. split; [done |]. by apply Forall_singleton.
  - intros st H. exact H.
  - intros st H. exact H.
  - intros st n H. exact H.
  - intros st H. unfold Packer.finish. by destruct (_ <? _).
Qed.

(** The claim C4 as it is written fails when a copy raises: the failed
    file is in no folder's count. One file, an empty destination and a
    copy that raises give an empty summary. *)
Lemma sum_of_counts_misses_failed_copy :
  ¬ (∀ (L : list Packer.tif_file) (cap : nat) (base plot today : string)
       (makedirs_raises : string → bool)
       (copy2 : string → string → Packer.copy_result) (dest0 : gset string)
       (r : Packer.state),
       Packer.pack L cap base plot today makedirs_raises copy2 dest0 = Some r →
       sum_list (snd <$> Packer.summary r) = length L).
Proof.
  intros Hclaim.
  specialize (Hclaim [Fixtures.red "IMG_0001_1.tif"] Pipeline.MAX_FILES_PER_FOLDER
                "/data" "NTAFIN0001" "20251111" Fixtures.makedirs_ok
                Fixtures.copy_fails ∅).
  destruct (Packer.pack _ _ _ _ _ _ _ _) as [r|] eqn:Hr; [| by vm_compute in Hr].
  specialize (Hclaim r eq_refl).
  vm_compute in Hr. injection Hr as <-. simpl in Hclaim. discriminate.
Qed.

Lemma no_failures_counted (l : list Packer.placement) :
  PackerSpec.failures l = 0 ↔ Forall (λ e, Packer.counted e = true) l.
Proof.
  unfold PackerSpec.failures. induction l as [|e l IH]; [done |].
  rewrite filter_cons, Forall_cons. unfold Packer.counted at 1.
  destruct (decide (Packer.pl_outcome e = Packer.Failed)) as [Hf|Hf].
  - rewrite (bool_decide_eq_true_2 _ Hf). simpl. split; [lia | by intros [? _]].
  - rewrite (bool_decide_eq_false_2 _ Hf). simpl. rewrite IH. tauto.
Qed.

(** C4, amended. For every file list and cap the packer ends with a
    summary unless [os.makedirs] raises for one of its folders, and then
    its placements partition the input: every input file has exactly one
    placement, in input order, hence one folder, at the path of that
    folder and its file name. Each placement has the outcome that the
    destination and the copy give it: skipped when its path exists by
    then, copied when [shutil.copy2] returns, failed when it raises. The counts of the emitted folders add up to the number of
    files copied or already present, which is the length of the input
    minus the number of files whose copy raised, and the length of the
    input when no copy of a file of the input raises; the b-th emitted
    folder is numbered b, is non-empty, and its count is the number of its
    files that were copied or were already present at the destination (a
    skipped file counts like a copied one). *)
Theorem pack_partitions_input
    (L : list Packer.tif_file) (cap : nat) (base plot today : string)
    (makedirs_raises : string → bool)
    (copy2 : string → string → Packer.copy_result) (dest0 : gset string) :
  let pack := Packer.pack L cap base plot today makedirs_raises copy2 dest0 in
  (pack = None →
   ∃ k, makedirs_raises (Packer.target_path base plot today k) = true)
  ∧ ((∀ k, makedirs_raises (Packer.target_path base plot today k) = false) →
     is_Some pack)
  ∧ ∀ r, pack = Some r →
      Packer.pl_file <$> Packer.log r = L
      ∧ Forall (λ e, Packer.pl_dst e
                     = Packer.join2 (Packer.target_path base plot today
                                       (Packer.pl_folder e))
                         (Packer.filename (Packer.pl_file e)))
          (Packer.log r)
      ∧ PackerSpec.replayed base plot today copy2 dest0 (Packer.log r)
      ∧ sum_list (snd <$> Packer.summary r) + PackerSpec.failures (Packer.log r)
        = length L
      ∧ sum_list (snd <$> Packer.summary r)
        = Packer.total_copied r + Packer.total_skipped r
      ∧ (Forall (λ f, ∀ dst, copy2 (Packer.full_path f) dst = Packer.CopyDone) L →
         sum_list (snd <$> Packer.summary r) = length L)
      ∧ (∀ b folder c, Packer.summary r !! b = Some (folder, c) →
           folder = Packer.zfill3 b ∧ 0 < c
           ∧ c = PackerSpec.bin_count b (Packer.log r))
      ∧ (∀ e, e ∈ Packer.log r →
           (Packer.pl_dst e ∈ dest0 → Packer.pl_outcome e = Packer.Skipped)
           ∧ (Packer.pl_outcome e = Packer.Skipped → Packer.counted e = true)).
Proof.
  cbv zeta. split; [apply pack_None |]. split; [apply pack_total |].
  intros r Hr.
  destruct (accounted_pack L cap base plot today copy2 makedirs_raises dest0 r Hr)
    as (Hfiles & Hsum & Htot & Hbins).
  destruct (pack_replayed L cap base plot today copy2 dest0 makedirs_raises r Hr)
    as [_ Hrep].
  pose proof (counted_or_failed (Packer.log r)) as Hcf.
  apply (f_equal length) in Hfiles as Hlen. rewrite length_fmap in Hlen.
  split_and!;
    [exact Hfiles
    | exact (placements_at_target L cap base plot today copy2 makedirs_raises
               dest0 r Hr)
    | exact Hrep | lia | lia | | exact Hbins |].
  - intros Hok.
    assert (PackerSpec.failures (Packer.log r) = 0) as Hnone; [| lia].
    apply no_failures_counted, Forall_forall. intros e He.
    unfold Packer.counted.
    destruct (decide (Packer.pl_outcome e = Packer.Failed)) as [Hf|Hf];
      [| by rewrite (bool_decide_eq_false_2 _ Hf)].
    destruct (replayed_failed base plot today copy2 dest0 _ e Hrep He Hf)
      as [left Hleft].
    assert (Packer.pl_file e ∈ L) as Hin
      by (rewrite <- Hfiles; by apply list_elem_of_fmap_2).
    rewrite Forall_forall in Hok. rewrite (Hok _ Hin) in Hleft. discriminate.
  - intros e He. split;
      [| intros Hsk; unfold Packer.counted; by rewrite Hsk].
    intros Hd. apply list_elem_of_lookup in He as [k Hk].
    rewrite (Hrep k e Hk). unfold PackerSpec.expected_outcome.
    rewrite decide_True; [done |].
    unfold PackerSpec.exists_after. set_solver.
Qed.

(** *** Series are kept together *)

Lemma series_at_members (L : list Packer.tif_file) (i0 n : nat) (b : string) :
  PackerSpec.series_at L i0 n b →
  ∀ k, k < n → ∃ f, L !! (i0 + k) = Some f ∧ PackerSpec.series_key f = Some b.
Proof.
  intros (Hlen & _ & Hall & _) k Hk.
  destruct (lookup_lt_is_Some_2 L (i0 + k)) as [f Hf]; [lia |].
  exists f. split; [done |].
  rewrite Forall_lookup in Hall. apply (Hall k).
  rewrite lookup_take_lt by done. by rewrite lookup_drop.
Qed.

Section packer_series.
Context (L : list Packer.tif_file) (cap : nat).
Context (base plot today : string).
Context (copy2 : string → string → Packer.copy_result).

Local Abbreviation turn := (Packer.turn L cap base plot today copy2).

Lemma series_kept_initial (dest0 : gset string) :
  PackerSpec.series_kept L (Packer.initial dest0).
Proof.
  split; [apply accounted_initial |]. simpl. intros; lia.
Qed.

Lemma series_kept_body (st : Packer.state) :
  PackerSpec.series_kept L st → Packer.i st < length L →
  PackerSpec.series_kept L (turn st).
Proof.
  intros [Hacc Hkept] Hi.
  split; [by apply accounted_body |].
  destruct Hacc as (Hfiles & Hile & _).
  assert (length (Packer.log st) = Packer.i st) as Hloglen.
  { apply (f_equal length) in Hfiles.
    rewrite length_fmap, length_take in Hfiles. lia. }
  destruct (turn_fields L cap base plot today copy2 st Hi)
    as (es & Hlog & Hesf & Hlen & Hes & Hi' & _).
  pose proof (series_count_bounds L (Packer.i st) Hi) as [Hsc1 Hsc2].
  set (sc := Packer.series_count L (Packer.i st)) in *.
  intros i0 n b Hn Hser Hlt. rewrite Hi' in *.
  destruct (decide (i0 < Packer.i st)) as [Hbefore|Hnot].
  - destruct (Hkept i0 n b Hn Hser Hbefore) as [Hle [folder Hsame]].
    split; [lia |]. exists folder. intros k Hk.
    destruct (Hsame k Hk) as (e & He & Hfile & Hfold).
    exists e. split_and!; [| done | done].
    rewrite Hlog. by apply lookup_app_l_Some.
  - destruct (decide (i0 = Packer.i st)) as [->|Hne].
    + assert (n ≤ sc) as Hcover.
      { apply (series_count_covers L (Packer.i st) n b);
          [done | | by apply series_at_members].
        destruct Hser as (_ & [m Hm] & _).
        apply fmap_Some in Hm as (f & Hf & Hp). simpl in Hp. eauto. }
      split; [lia |].
      exists (Packer.current_folder_num (Packer.rolled L cap st)).
      intros k Hk.
      destruct (lookup_lt_is_Some_2 es k) as [e He]; [lia |].
      exists e. split_and!.
      * rewrite Hlog, lookup_app_r by lia.
        by replace (Packer.i st + k - length (Packer.log st)) with k by lia.
      * assert ((Packer.pl_file <$> es) !! k = Some (Packer.pl_file e)) as Hk'
          by (by rewrite list_lookup_fmap, He).
        rewrite Hesf, lookup_take_lt, lookup_drop in Hk' by lia. done.
      * rewrite Forall_lookup in Hes. by destruct (Hes k e He).
    + exfalso.
      assert (2 ≤ sc) as H2 by lia.
      destruct (series_count_members L (Packer.i st) H2) as [b' Hb'].
      destruct Hser as (Hlen0 & [m Hm] & _ & Hleft).
      apply fmap_Some in Hm as (f & Hf & Hp). simpl in Hp. symmetry in Hp.
      apply parse_name_series_key in Hp.
      assert (b = b') as <-.
      { specialize (Hb' (i0 - Packer.i st) f).
        replace (Packer.i st + (i0 - Packer.i st)) with i0 in Hb' by lia.
        fold sc in Hb'. rewrite Hb' in Hp by (done || lia). congruence. }
      destruct Hleft as [->|Hleft]; [lia |]. apply Hleft.
      destruct (lookup_lt_is_Some_2 L (i0 - 1)) as [g Hg]; [lia |].
      rewrite Hg. simpl. do 2 f_equal.
      apply (Hb' (i0 - 1 - Packer.i st) g); fold sc; [lia |].
      by replace (Packer.i st + (i0 - 1 - Packer.i st)) with (i0 - 1) by lia.
Qed.

Context (mk : string → bool).

Lemma series_kept_pack (dest0 : gset string) (r : Packer.state) :
  Packer.pack L cap base plot today mk copy2 dest0 = Some r →
  ∀ i0 n b, n ≤ 11 → PackerSpec.series_at L i0 n b →
    PackerSpec.same_folder L (Packer.log r) i0 n.
Proof.
  unfold Packer.pack. intros Hr i0 n b Hn Hser.
  apply fmap_Some in Hr as (st & Hloop & ->).
  apply (while_loop_inv L cap base plot today copy2 mk (PackerSpec.series_kept L))
    in Hloop as [[_ Hkept] Hend];
    [| apply series_kept_initial | apply series_kept_body].
  assert (Packer.log (Packer.finish st) = Packer.log st) as ->
    by (unfold Packer.finish; by destruct (_ <? _)).
  apply (Hkept i0 n b Hn Hser).
  destruct Hser as (_ & [m Hm] & _).
  apply fmap_Some in Hm as (f & Hf%lookup_lt_Some & _). lia.
Qed.

End packer_series.

Example full_card_run :
  Packer.filename <$> take 12 (drop 2189 Fixtures.full_card)
  = ["IMG_0199_1.tif"; "IMG_0199_10.tif"; "IMG_0199_11.tif"; "IMG_0199_12.tif";
     "IMG_0199_2.tif"; "IMG_0199_3.tif"; "IMG_0199_4.tif"; "IMG_0199_5.tif";
     "IMG_0199_6.tif"; "IMG_0199_7.tif"; "IMG_0199_8.tif"; "IMG_0199_9.tif"].
Proof. vm_compute. reflexivity. Qed.

Lemma full_card_folders :
  (λ r, (Packer.pl_folder <$> Packer.log r !! 2189,
         Packer.pl_folder <$> Packer.log r !! 2200,
         Packer.summary r))
    <$> Packer.pack Fixtures.full_card Pipeline.MAX_FILES_PER_FOLDER
          "/data" "NTAFIN0001" "20251111" Fixtures.makedirs_ok
          Fixtures.copy_ok ∅
  = Some (Some 0, Some 1, [("000", 2200); ("001", 1)]).
Proof. vm_compute. reflexivity. Qed.

(** The claim C2 as it is written fails for a run longer than the
    look-ahead of 11: with the cap of the program, 2189 files in folder 000
    and then twelve files of one base name, eleven of the twelve go to
    folder 000 and the twelfth opens folder 001. *)
Lemma run_of_twelve_is_split :
  ¬ (∀ (L : list Packer.tif_file) (cap : nat) (base plot today : string)
       (makedirs_raises : string → bool)
       (copy2 : string → string → Packer.copy_result) (dest0 : gset string)
       (r : Packer.state) (i0 n : nat),
       PackerSpec.sorted_by_filename L →
       Packer.pack L cap base plot today makedirs_raises copy2 dest0 = Some r →
       PackerSpec.maximal_run L i0 n →
       PackerSpec.same_folder L (Packer.log r) i0 n).
Proof.
  intros Hclaim.
  destruct (pack_total Fixtures.full_card Pipeline.MAX_FILES_PER_FOLDER
              "/data" "NTAFIN0001" "20251111" Fixtures.copy_ok
              Fixtures.makedirs_ok ∅ (λ _, eq_refl)) as [r Hr].
  pose proof full_card_folders as Hf. rewrite Hr in Hf. simpl in Hf.
  injection Hf as Hf0 Hf1 _.
  destruct (Hclaim Fixtures.full_card Pipeline.MAX_FILES_PER_FOLDER
              "/data" "NTAFIN0001" "20251111" Fixtures.makedirs_ok
              Fixtures.copy_ok ∅ r 2189 12)
    as [folder Hsame]; [| exact Hr | |].
  - unfold PackerSpec.sorted_by_filename. vm_compute. reflexivity.
  - split_and!.
    + lia.
    + apply Nat.leb_le. vm_compute. reflexivity.
    + exists "IMG_0199". apply (bool_decide_unpack _). vm_compute. exact I.
    + right. vm_compute. discriminate.
    + vm_compute. discriminate.
  - destruct (Hsame 0) as (e0 & He0 & _ & Hfold0); [lia |].
    destruct (Hsame 11) as (e1 & He1 & _ & Hfold1); [lia |].
    change (2189 + 0) with 2189 in He0. change (2189 + 11) with 2200 in He1.
    rewrite He0 in Hf0. rewrite He1 in Hf1. simpl in Hf0, Hf1.
    congruence.
Qed.

(** C2, amended. For every file list and cap the packer puts into one
    output folder every run of at most 11 consecutive files that begins
    with a file carrying a numeric suffix [_<digits>], whose files share
    the text before their last underscore, and that no file with that base
    name precedes; the cap plays no part, so such a series longer than the
    cap goes whole into one oversized folder. The packer reaches its
    summary whenever [os.makedirs] raises for none of its folders. *)
Theorem numbered_series_never_split
    (L : list Packer.tif_file) (cap : nat) (base plot today : string)
    (makedirs_raises : string → bool)
    (copy2 : string → string → Packer.copy_result) (dest0 : gset string)
    (i0 n : nat) (b : string) :
  n ≤ 11 →
  PackerSpec.series_at L i0 n b →
  (∀ r, Packer.pack L cap base plot today makedirs_raises copy2 dest0 = Some r →
        PackerSpec.same_folder L (Packer.log r) i0 n)
  ∧ ((∀ k, makedirs_raises (Packer.target_path base plot today k) = false) →
     ∃ r, Packer.pack L cap base plot today makedirs_raises copy2 dest0 = Some r
          ∧ PackerSpec.same_folder L (Packer.log r) i0 n).
Proof.
  intros Hn Hser.
  assert (∀ r, Packer.pack L cap base plot today makedirs_raises copy2 dest0
               = Some r →
               PackerSpec.same_folder L (Packer.log r) i0 n) as Hkept
    by (intros r Hr; by eapply series_kept_pack).
  split; [exact Hkept |]. intros Hmk.
  destruct (pack_total L cap base plot today copy2 makedirs_raises dest0 Hmk)
    as [r Hr].
  exists r. split; [done | by apply Hkept].
Qed.

Lemma numbered_series_never_split_witness :
  (11 ≤ 11 ∧ PackerSpec.series_at Fixtures.scenario_files 0 11 "IMG_0001")
  ∧ ∃ r, Packer.pack Fixtures.scenario_files 10 "/data" "NTAFIN0001" "20251111"
           Fixtures.makedirs_ok Fixtures.copy_ok ∅ = Some r
         ∧ PackerSpec.same_folder Fixtures.scenario_files (Packer.log r) 0 11.
Proof.
  assert (PackerSpec.series_at Fixtures.scenario_files 0 11 "IMG_0001") as Hser.
  { split_and!.
    - apply Nat.leb_le. vm_compute. reflexivity.
    - exists 1%N. vm_compute. reflexivity.
    - apply (bool_decide_unpack _). vm_compute. exact I.
    - by left. }
  split; [split; [lia | exact Hser] |].
  exact (proj2 (numbered_series_never_split Fixtures.scenario_files 10 "/data"
                  "NTAFIN0001" "20251111" Fixtures.makedirs_ok Fixtures.copy_ok
                  ∅ 0 11 "IMG_0001" (le_n 11) Hser) (λ _, eq_refl)).
Defined.

(** *** Running the packer again *)


Lemma all_counted_length (l : list Packer.placement) :
  Forall (λ e, Packer.counted e = true) l →
  length (filter (λ e, Packer.counted e = true) l) = length l.
Proof.
  induction 1 as [|e l He _ IH]; [done |].
  rewrite filter_cons_True by done. simpl. by rewrite IH.
Qed.

Lemma skipped_counted (l : list Packer.placement) :
  Forall (λ e, Packer.pl_outcome e = Packer.Skipped) l →
  Forall (λ e, Packer.counted e = true) l.
Proof.
  intros H. eapply Forall_impl; [exact H |].
  intros e He. unfold Packer.counted. by rewrite He.
Qed.

Section packer_rerun.
Context (L : list Packer.tif_file) (cap : nat).
Context (base plot today : string).
Context (copy2 copy2' : string → string → Packer.copy_result).

Local Abbreviation turn1 := (Packer.turn L cap base plot today copy2).
Local Abbreviation turn2 := (Packer.turn L cap base plot today copy2').

Lemma same_control_step (s1 s2 : Packer.state) :
  PackerSpec.same_control s1 s2 → Packer.i s1 < length L →
  ∀ es1, Packer.log (turn1 s1) = Packer.log s1 ++ es1 →
  Forall (λ e, Packer.counted e = true) es1 →
  (∀ e, e ∈ es1 → Packer.pl_dst e ∈ Packer.dest s2) →
  list_to_set (Packer.made_dirs
                 (Packer.target_path base plot today
                    (Packer.current_folder_num (Packer.rolled L cap s1))))
  ⊆ Packer.dest s2 →
  ∃ es2, Packer.log (turn2 s2) = Packer.log s2 ++ es2
         ∧ length es2 = length es1
         ∧ Forall (λ e, Packer.pl_outcome e = Packer.Skipped) es2
         ∧ PackerSpec.same_control (turn1 s1) (turn2 s2)
         ∧ Packer.dest (turn2 s2) = Packer.dest s2
         ∧ Packer.total_copied (turn2 s2) = Packer.total_copied s2
         ∧ Packer.total_skipped (turn2 s2) = Packer.total_skipped s2 + length es2
         ∧ Packer.i (turn2 s2) = Packer.i s2 + length es2
         ∧ Packer.current_folder_num (Packer.rolled L cap s2)
           = Packer.current_folder_num (Packer.rolled L cap s1).
Proof.
  intros (Hi12 & Hnum & Hcnt & Hsum) Hi es1 Hlog1 Hcounted Hdst Hmade.
  destruct (turn_fields L cap base plot today copy2 s1 Hi)
    as (es1' & Hlog1' & Hf1 & Hlen1 & Hes1 & Hi1 & Hnum1 & Hsum1 & Hcnt1 & _).
  assert (es1' = es1) as ->
    by (apply (app_inv_head (Packer.log s1)); congruence).
  assert (Packer.i s2 < length L) as Hi2 by lia.
  destruct (turn_fields L cap base plot today copy2' s2 Hi2)
    as (es2 & Hlog2 & Hf2 & Hlen2 & Hes2 & Hi2' & Hnum2 & Hsum2 & Hcnt2 & _ & _
        & _ & _ & Hpre & Hall & _).
  rewrite <- Hi12 in *.
  set (sc := Packer.series_count L (Packer.i s1)) in *.
  assert (Packer.current_folder_num (Packer.rolled L cap s2)
          = Packer.current_folder_num (Packer.rolled L cap s1)
          ∧ Packer.summary (Packer.rolled L cap s2)
            = Packer.summary (Packer.rolled L cap s1)
          ∧ Packer.current_folder_count (Packer.rolled L cap s2)
            = Packer.current_folder_count (Packer.rolled L cap s1))
    as (En & Es & Ec).
  { unfold Packer.rolled, Packer.must_roll. rewrite <- Hi12, Hcnt.
    destruct (_ && _); simpl; by rewrite ?Hnum, ?Hsum, ?Hcnt. }
  rewrite En, Es, Ec in *.
  assert (Forall (λ e, Packer.pl_outcome e = Packer.Skipped) es2) as Hskip.
  { apply Forall_lookup. intros k e2 He2.
    rewrite Forall_lookup in Hpre. apply (Hpre k e2 He2).
    destruct (lookup_lt_is_Some_2 es1 k) as [e1 He1];
      [apply lookup_lt_Some in He2; lia |].
    assert (Packer.pl_file e1 = Packer.pl_file e2) as Hsame.
    { assert ((Packer.pl_file <$> es1) !! k = (Packer.pl_file <$> es2) !! k)
        as Hk by congruence.
      rewrite !list_lookup_fmap, He1, He2 in Hk. simpl in Hk. congruence. }
    rewrite Forall_lookup in Hes1, Hes2.
    destruct (Hes1 k e1 He1) as [_ Hd1]. destruct (Hes2 k e2 He2) as [_ Hd2].
    rewrite Hd2, <- Hsame, <- Hd1. apply Hdst.
    by eapply list_elem_of_lookup_2. }
  destruct (Hall Hskip) as (Hd & Hc & Hs).
  rewrite add_dirs_there in Hd by done.
  exists es2. split_and!; try done; try lia.
  unfold PackerSpec.same_control.
  rewrite Hi1, Hi2', Hnum1, Hnum2, Hsum1, Hsum2, Hcnt1, Hcnt2.
  rewrite (all_counted_length es1 Hcounted).
  rewrite (all_counted_length es2 (skipped_counted es2 Hskip)).
  split_and!; try done; lia.
Qed.

Context (mk : string → bool).

Local Abbreviation loop1 := (Packer.while_loop L cap base plot today mk copy2).
Local Abbreviation loop2 := (Packer.while_loop L cap base plot today mk copy2').

Lemma extends_loop (fuel : nat) (s f : Packer.state) :
  loop1 fuel s = Some f →
  PackerSpec.extends s f ∧ Packer.dest s ⊆ Packer.dest f.
Proof.
  intros Hloop.
  apply (while_loop_inv L cap base plot today copy2 mk
           (λ x, PackerSpec.extends s x ∧ Packer.dest s ⊆ Packer.dest x))
    in Hloop as [H _]; [done | |].
  - split; [| done]. split; [exists []; by rewrite app_nil_r | done].
  - intros s' [[[l Hl] Hex] Hsub] Hi.
    destruct (turn_fields L cap base plot today copy2 s' Hi)
      as (es & Hlog & _ & _ & _ & _ & _ & _ & _ & _ & _ & Hdest & Hin & _).
    split; [| set_solver]. split.
    + exists (l ++ es). by rewrite Hlog, Hl, app_assoc.
    + intros H0. rewrite Hlog. apply Forall_app. split; [| done].
      eapply Forall_impl; [exact (Hex H0) |]. simpl. set_solver.
Qed.

Lemma rerun_simulation (fuel : nat) (s1 s2 f1 : Packer.state) :
  loop1 fuel s1 = Some f1 →
  Forall (λ e, Packer.counted e = true) (Packer.log f1) →
  PackerSpec.same_control s1 s2 →
  (∀ e, e ∈ Packer.log f1 → Packer.pl_dst e ∈ Packer.dest s2) →
  Packer.dest f1 ⊆ Packer.dest s2 →
  ∃ f2, loop2 fuel s2 = Some f2
        ∧ PackerSpec.same_control f1 f2
        ∧ Packer.dest f2 = Packer.dest s2
        ∧ Packer.total_copied f2 = Packer.total_copied s2
        ∧ Packer.total_skipped f2 + Packer.i s2
          = Packer.total_skipped s2 + Packer.i f2
        ∧ ∃ l, Packer.log f2 = Packer.log s2 ++ l
               ∧ Forall (λ e, Packer.pl_outcome e = Packer.Skipped) l.
Proof.
  revert s1 s2.
  induction fuel as [|fuel IH]; intros s1 s2 Hloop Hok Hctl Hdst Hsub;
    pose proof Hctl as (Hi12 & _); simpl in *; rewrite <- Hi12;
    destruct (Packer.i s1 <? length L) eqn:Hc; try discriminate.
  - injection Hloop as <-. exists s2. split_and!; try done; try lia.
    exists []. by rewrite app_nil_r.
  - apply Nat.ltb_lt in Hc.
    apply bind_Some in Hloop as (s1' & Hbody & Hloop).
    apply body_Some in Hbody as [Hmk ->].
    destruct (extends_loop fuel (turn1 s1) f1 Hloop) as [[[l1 Hl1] _] Hmono].
    destruct (turn_fields L cap base plot today copy2 s1 Hc)
      as (es1 & Hlog1 & Hrest).
    assert (list_to_set (Packer.made_dirs
                           (Packer.target_path base plot today
                              (Packer.current_folder_num (Packer.rolled L cap s1))))
            ⊆ Packer.dest s2) as Hmade.
    { destruct Hrest as (_ & _ & _ & _ & _ & _ & _ & _ & _ & _ & _ & _ & _ & Hm).
      set_solver. }
    assert (Forall (λ e, Packer.counted e = true) es1) as Hes1.
    { rewrite Hl1, Hlog1 in Hok.
      by apply Forall_app in Hok as [[_ ?]%Forall_app _]. }
    destruct (same_control_step s1 s2 Hctl Hc es1 Hlog1 Hes1)
      as (es2 & Hlog2 & Hlen & Hskip & Hctl' & Hd & Hcp & Hsk & Hi2 & Hn2);
      [| exact Hmade |].
    { intros e He. apply Hdst. rewrite Hl1, Hlog1. set_solver. }
    destruct (IH (turn1 s1) (turn2 s2) Hloop Hok Hctl')
      as (f2 & Hloop2 & Hctl2 & Hd2 & Hcp2 & Hsk2 & l2 & Hl2 & Hskip2).
    { intros e He. rewrite Hd. by apply Hdst. }
    { by rewrite Hd. }
    exists f2.
    assert (Packer.body L cap base plot today mk copy2' s2 = Some (turn2 s2))
      as Hb2 by (apply body_Some; by rewrite Hn2).
    rewrite Hb2. simpl.
    split_and!; try done; try congruence; try lia.
    exists (es2 ++ l2). split; [by rewrite Hl2, Hlog2, app_assoc |].
    by apply Forall_app.
  - injection Hloop as <-. exists s2. split_and!; try done; try lia.
    exists []. by rewrite app_nil_r.
Qed.

Lemma pack_rerun (dest0 : gset string) (r1 : Packer.state) :
  Packer.pack L cap base plot today mk copy2 dest0 = Some r1 →
  PackerSpec.failures (Packer.log r1) = 0 →
  ∃ r2, Packer.pack L cap base plot today mk copy2' (Packer.dest r1) = Some r2
        ∧ Packer.dest r2 = Packer.dest r1
        ∧ Packer.summary r2 = Packer.summary r1
        ∧ Packer.total_copied r2 = 0
        ∧ Packer.total_skipped r2 = length L
        ∧ Packer.total_skipped r1 ≤ Packer.total_skipped r2
        ∧ Forall (λ e, Packer.pl_outcome e = Packer.Skipped) (Packer.log r2).
Proof.
  intros Hr1 Hnofail.
  pose proof (accounted_pack L cap base plot today copy2 mk dest0 r1 Hr1)
    as (Hfiles1 & _ & Htot1 & _).
  unfold Packer.pack in Hr1. apply fmap_Some in Hr1 as (f1 & Hloop & ->).
  assert (∀ st, Packer.log (Packer.finish st) = Packer.log st
                ∧ Packer.dest (Packer.finish st) = Packer.dest st
                ∧ Packer.total_copied (Packer.finish st) = Packer.total_copied st
                ∧ Packer.total_skipped (Packer.finish st) = Packer.total_skipped st)
    as Hfin by (intros st; unfold Packer.finish; by destruct (_ <? _)).
  destruct (Hfin f1) as (El & Ed & Ec & Es). rewrite El, Ed, Ec, Es in *.
  apply no_failures_counted in Hnofail.
  destruct (extends_loop _ _ _ Hloop) as [[_ Hexist] _].
  specialize (Hexist (Forall_nil_2 _)).
  destruct (rerun_simulation _ (Packer.initial dest0)
              (Packer.initial (Packer.dest f1)) f1 Hloop Hnofail)
    as (f2 & Hloop2 & Hctl & Hd2 & Hcp2 & _ & l2 & Hl2 & Hskip).
  { done. }
  { intros e He. rewrite Forall_forall in Hexist, Hnofail. simpl. eauto. }
  { done. }
  simpl in *.
  assert (Packer.pack L cap base plot today mk copy2' (Packer.dest f1)
          = Some (Packer.finish f2)) as Hr2
    by (unfold Packer.pack; by rewrite Hloop2).
  pose proof (accounted_pack L cap base plot today copy2' mk _ _ Hr2)
    as (Hfiles2 & _ & Htot2 & _).
  exists (Packer.finish f2).
  destruct (Hfin f2) as (El2 & Ed2 & Ec2 & Es2). rewrite El2, Ed2, Ec2, Es2 in *.
  rewrite Hl2 in *.
  rewrite (all_counted_length l2 (skipped_counted l2 Hskip)) in Htot2.
  apply (f_equal length) in Hfiles1, Hfiles2. rewrite length_fmap in Hfiles1, Hfiles2.
  pose proof (length_filter (λ e, Packer.counted e = true) (Packer.log f1)).
  split_and!; try done; try lia.
  destruct Hctl as (_ & Hn & Hc & Hs). unfold Packer.finish.
  rewrite <- Hn, <- Hc, <- Hs. by destruct (_ <? _).
Qed.

End packer_rerun.

(** ** The multi-spectral pipeline *)

Example collect_two_plots :
  let files_by_plot :=
    Pipeline.collect "/red" "/blue" Fixtures.two_plots_listdir Fixtures.two_plots in
  (map Packer.full_path <$> files_by_plot !! "NTAFIN0001")
  = Some ["/red/0000SET/000/IMG_0000_1.tif"]
  ∧ (map Packer.full_path <$> files_by_plot !! "NTAFIN0002")
    = Some ["/red/0001SET/000/IMG_0100_1.tif"]
  ∧ Pipeline.plot_order files_by_plot = ["NTAFIN0001"; "NTAFIN0002"].
Proof. vm_compute. done. Qed.

(** C1, on the code. Two SET folders are assigned to two plots, each
    with one file on the RED card. The packing stage runs once, for the
    plot that sorts last: the combined summary has the one entry
    [NTAFIN0002], the one placement is that plot's file in its folder 000,
    and for [NTAFIN0001] nothing is copied and no folder is made. *)
Lemma only_last_plot_is_packed :
  (λ r, (fst <$> Pipeline.all_summaries r,
         Packer.pl_dst <$> Pipeline.placements r,
         bool_decide
           ("/data/NTAFIN0001/20251111/imagery/multispec/level0_raw/000/IMG_0000_1.tif"
              ∈ Pipeline.final_dest r),
         bool_decide ("/data/NTAFIN0001" ∈ Pipeline.final_dest r)))
    <$> Pipeline.transfer "/red" "/blue" "/data" "20251111"
          Fixtures.two_plots_listdir Fixtures.two_plots Fixtures.makedirs_ok
          Fixtures.copy_ok ∅
  = Some (["NTAFIN0002"],
          ["/data/NTAFIN0002/20251111/imagery/multispec/level0_raw/000/IMG_0100_1.tif"],
          false, false).
Proof. vm_compute. reflexivity. Qed.

Lemma rerun_after_failed_copy :
  (t1 ← Pipeline.transfer "/red" "/blue" "/data" "20251111"
          Fixtures.card_listdir Fixtures.one_plot Fixtures.makedirs_ok
          (Fixtures.fails_on "/red/0000SET/000/IMG_0000_1.tif") ∅;
   t2 ← Pipeline.transfer "/red" "/blue" "/data" "20251111"
          Fixtures.card_listdir Fixtures.one_plot Fixtures.makedirs_ok
          Fixtures.copy_ok (Pipeline.final_dest t1);
   Some (PackerSpec.failures (Pipeline.placements t1),
         Pipeline.folders ∘ snd <$> Pipeline.all_summaries t1,
         Pipeline.folders ∘ snd <$> Pipeline.all_summaries t2,
         bool_decide
           ("/data/NTAFIN0001/20251111/imagery/multispec/level0_raw/000/IMG_0199_9.tif"
              ∈ Pipeline.final_dest t1),
         bool_decide
           ("/data/NTAFIN0001/20251111/imagery/multispec/level0_raw/001/IMG_0199_9.tif"
              ∈ Pipeline.final_dest t1),
         bool_decide
           ("/data/NTAFIN0001/20251111/imagery/multispec/level0_raw/001/IMG_0199_9.tif"
              ∈ Pipeline.final_dest t2),
         PackerSpec.failures (Pipeline.placements t2)))
  = Some (1, [[("000", 2200)]], [[("000", 2200); ("001", 1)]],
          true, false, true, 0).
Proof. vm_compute. reflexivity. Qed.

(** The claim C8 as it is written fails after a run in which a copy
    raised. On a card of 2201 files the copy of the first file raises in
    the first run, so folder 000 ends with the other 2200 files; the second
    run copies that file, counts 2200 files before the last one and puts
    the last one into folder 001: the destination has changed and holds
    [IMG_0199_9.tif] twice. *)
Lemma rerun_after_error_changes_destination :
  ¬ (∀ (red blue base today : string) (listdir : string → option (list string))
       (set_assignments : list (string * Pipeline.assignment))
       (makedirs_raises : string → bool)
       (copy2 copy2' : string → string → Packer.copy_result)
       (dest0 : gset string) (t1 t2 : Pipeline.transfer_result),
       Pipeline.transfer red blue base today listdir set_assignments
         makedirs_raises copy2 dest0 = Some t1 →
       Pipeline.transfer red blue base today listdir set_assignments
         makedirs_raises copy2' (Pipeline.final_dest t1) = Some t2 →
       Pipeline.final_dest t2 = Pipeline.final_dest t1
       ∧ PackerSpec.failures (Pipeline.placements t2) = 0
       ∧ Pipeline.grand_total_skipped t1 ≤ Pipeline.grand_total_skipped t2).
Proof.
  intros Hclaim. pose proof rerun_after_failed_copy as Hrun.
  apply bind_Some in Hrun as (t1 & H1 & Hrun).
  apply bind_Some in Hrun as (t2 & H2 & Hrun).
  injection Hrun as _ _ _ _ Hnot Hin _.
  destruct (Hclaim _ _ _ _ _ _ _ _ _ _ t1 t2 H1 H2) as (Heq & _).
  rewrite Heq in Hin. congruence.
Qed.

(** X6. After a run of the multi-spectral stage that reached its summary
    and in which no copy raised, a second run with the same cards,
    assignment and date on the destination that the first run left, with
    [os.makedirs] raising for no folder for which it did not raise
    before, copies nothing and raises nothing, whatever the copies would
    do: every file is skipped as already existing, the destination is
    unchanged, the skipped count is the number of files and not below
    that of the first run, and the same folders with the same counts are
    reported. *)
Lemma transfer_rerun (red blue base today : string)
    (listdir : string → option (list string))
    (set_assignments : list (string * Pipeline.assignment))
    (makedirs_raises : string → bool)
    (copy2 copy2' : string → string → Packer.copy_result)
    (dest0 : gset string) (t1 : Pipeline.transfer_result) :
  Pipeline.transfer red blue base today listdir set_assignments
    makedirs_raises copy2 dest0 = Some t1 →
  PackerSpec.failures (Pipeline.placements t1) = 0 →
  ∃ t2, Pipeline.transfer red blue base today listdir set_assignments
          makedirs_raises copy2' (Pipeline.final_dest t1) = Some t2
        ∧ Pipeline.final_dest t2 = Pipeline.final_dest t1
        ∧ PackerSpec.failures (Pipeline.placements t2) = 0
        ∧ Forall (λ e, Packer.pl_outcome e = Packer.Skipped) (Pipeline.placements t2)
        ∧ Pipeline.grand_total_copied t2 = 0
        ∧ Pipeline.grand_total_skipped t2 = length (Pipeline.placements t1)
        ∧ Pipeline.grand_total_skipped t1 ≤ Pipeline.grand_total_skipped t2
        ∧ (Pipeline.folders ∘ snd <$> Pipeline.all_summaries t2)
          = (Pipeline.folders ∘ snd <$> Pipeline.all_summaries t1).
Proof.
  unfold Pipeline.transfer. intros H1 Hnofail.
  destruct (last _) as [plot_id|]; [| discriminate].
  set (L := default [] _) in *.
  destruct (Packer.pack L _ _ _ _ makedirs_raises copy2 dest0) as [r1|] eqn:Hr1;
    [| discriminate].
  injection H1 as <-. simpl in *.
  destruct (pack_rerun L Pipeline.MAX_FILES_PER_FOLDER base plot_id today
              copy2 copy2' makedirs_raises dest0 r1 Hr1 Hnofail)
    as (r2 & Hr2 & Hd & Hs & Hc & Hsk & Hle & Hskip).
  pose proof (accounted_pack _ _ _ _ _ _ _ _ _ Hr1) as (Hfiles & _).
  apply (f_equal length) in Hfiles. rewrite length_fmap in Hfiles.
  rewrite Hr2. eexists. split; [done |]. simpl.
  split_and!; try done; try lia.
  - apply no_failures_counted. by apply skipped_counted.
  - by rewrite Hs.
Qed.

(** ** Further properties of the packer *)

(** X1. The packing loop reaches its summary whenever [os.makedirs]
    raises for none of its folders, and then no emitted folder is over
    the cap unless it holds a single series: every count in the summary
    is at most the cap or at most 11, so with a cap of at least 11 (the
    program's is 2200) no folder is over the cap. *)
Theorem folder_counts_bounded
    (L : list Packer.tif_file) (cap : nat) (base plot today : string)
    (makedirs_raises : string → bool)
    (copy2 : string → string → Packer.copy_result) (dest0 : gset string) :
  let pack := Packer.pack L cap base plot today makedirs_raises copy2 dest0 in
  ((∀ k, makedirs_raises (Packer.target_path base plot today k) = false) →
   is_Some pack)
  ∧ (pack = None →
     ∃ k, makedirs_raises (Packer.target_path base plot today k) = true)
  ∧ ∀ r, pack = Some r →
      Forall (λ x, x.2 ≤ cap ∨ x.2 ≤ 11) (Packer.summary r)
      ∧ (11 ≤ cap → Forall (λ x, x.2 ≤ cap) (Packer.summary r)).
Proof.
  cbv zeta. split; [apply pack_total |]. split; [apply pack_None |].
  intros r Hr.
  pose proof (capacity_kept L cap base plot today copy2 makedirs_raises
                dest0 r Hr) as H.
  split; [done |]. intros Hcap.
  eapply Forall_impl; [exact H |]. simpl. lia.
Qed.

(** X2. When the packing loop reaches its summary, every file of the
    input has its placement, in input order, at
    [<base>/<plot>/<date>/imagery/multispec/level0_raw/<folder>/<file name>]
    with the folder index in three digits, and along the input the folder
    index never decreases. *)
Theorem placements_follow_layout
    (L : list Packer.tif_file) (cap : nat) (base plot today : string)
    (makedirs_raises : string → bool)
    (copy2 : string → string → Packer.copy_result) (dest0 : gset string)
    (r : Packer.state) :
  Packer.pack L cap base plot today makedirs_raises copy2 dest0 = Some r →
  Packer.pl_file <$> Packer.log r = L
  ∧ Forall (λ e, Packer.pl_dst e
                 = Packer.join2
                     (Packer.path_join base
                        [plot; today; "imagery"; "multispec"; "level0_raw";
                         PackerSpec.zero_padded (Packer.pl_folder e)])
                     (Packer.filename (Packer.pl_file e)))
      (Packer.log r)
  ∧ (∀ j k e1 e2, j ≤ k →
       Packer.log r !! j = Some e1 → Packer.log r !! k = Some e2 →
       Packer.pl_folder e1 ≤ Packer.pl_folder e2).
Proof.
  intros Hr.
  split; [by destruct (accounted_pack _ _ _ _ _ _ _ _ _ Hr) |].
  apply (pack_induction L cap base plot today copy2 makedirs_raises
           (λ st, Forall (λ e, Packer.pl_dst e
                       = Packer.join2 (Packer.target_path base plot today
                                         (Packer.pl_folder e))
                           (Packer.filename (Packer.pl_file e))
                       ∧ Packer.pl_folder e ≤ Packer.current_folder_num st)
                    (Packer.log st)
                  ∧ (∀ j k e1 e2, j ≤ k →
                       Packer.log st !! j = Some e1 → Packer.log st !! k = Some e2 →
                       Packer.pl_folder e1 ≤ Packer.pl_folder e2)))
    in Hr as [Hall Hmono].
  - split; [| done]. eapply Forall_impl; [exact Hall |]. simpl.
    intros e [-> _]. unfold Packer.target_path, Packer.path_join. simpl.
    by rewrite zfill3_zero_padded.
  - simpl. split; [done |]. intros j k e1 e2 _ H. by rewrite lookup_nil in H.
  - intros st f [Hall Hmono].
    destruct (copy_one_entry base plot today copy2 st f)
      as (e & Hlog & Hdst & Hfold & _).
    assert (Packer.current_folder_num (Packer.copy_one base plot today copy2 st f)
            = Packer.current_folder_num st) as Hnum.
    { unfold Packer.copy_one. destruct (decide _); [done |].
      by destruct (copy2 _ _). }
    rewrite Hlog, Hnum. split.
    + apply Forall_app. split; [done |]. apply Forall_singleton. split; [done | lia].
    + intros j k e1 e2 Hjk H1 H2.
      destruct (decide (k < length (Packer.log st))) as [Hk|Hk].
      * rewrite lookup_app_l in H1, H2 by lia.
        exact (Hmono j k e1 e2 Hjk H1 H2).
      * rewrite lookup_app_r in H2 by lia.
        apply list_lookup_singleton_Some in H2 as [_ <-].
        destruct (decide (j < length (Packer.log st))) as [Hj|Hj].
        -- rewrite lookup_app_l in H1 by lia.
           rewrite Forall_lookup in Hall. destruct (Hall j e1 H1). lia.
        -- rewrite lookup_app_r in H1 by lia.
           apply list_lookup_singleton_Some in H1 as [_ <-]. lia.
  - intros st [Hall Hmono]. simpl. split; [| done].
    eapply Forall_impl; [exact Hall |]. simpl. intros e [? ?]. split; [done | lia].
  - intros st H. done.
  - intros st n H. done.
  - intros st H. unfold Packer.finish. by destruct (_ <? _).
Qed.

Lemma placements_follow_layout_witness :
  ∃ r, Packer.pack Fixtures.scenario_files 10 "/data" "NTAFIN0001" "20251111"
         Fixtures.makedirs_ok Fixtures.copy_ok ∅ = Some r
       ∧ Packer.pl_file <$> Packer.log r = Fixtures.scenario_files.
Proof.
  destruct (pack_total Fixtures.scenario_files 10 "/data" "NTAFIN0001"
              "20251111" Fixtures.copy_ok Fixtures.makedirs_ok ∅
              (λ _, eq_refl)) as [r Hr].
  exists r. split; [exact Hr |].
  exact (proj1 (placements_follow_layout Fixtures.scenario_files 10 "/data"
                  "NTAFIN0001" "20251111" Fixtures.makedirs_ok Fixtures.copy_ok
                  ∅ r Hr)).
Defined.

(** X3. When the packing loop reaches its summary, it has only added to
    the destination, and the paths that exist are exactly those that
    existed before, the folders that [os.makedirs] made (each folder that
    holds a placement, with its parents) and the destinations of the
    files that a copy left behind. A file is copied only to a path that
    did not exist when its copy ran, not even as a folder or as a file
    left earlier in the same run, and that path exists afterwards; a
    file is skipped only when its path existed by then. *)
Theorem pack_only_adds
    (L : list Packer.tif_file) (cap : nat) (base plot today : string)
    (makedirs_raises : string → bool)
    (copy2 : string → string → Packer.copy_result) (dest0 : gset string)
    (r : Packer.state) :
  Packer.pack L cap base plot today makedirs_raises copy2 dest0 = Some r →
  let before k :=
    PackerSpec.exists_after base plot today copy2 dest0
      (take k (Packer.log r)) in
  let folder e :=
    list_to_set (C := gset string)
      (Packer.made_dirs
         (Packer.target_path base plot today (Packer.pl_folder e))) in
  dest0 ⊆ Packer.dest r
  ∧ Packer.dest r
    = dest0
      ∪ PackerSpec.folders_made base plot today (Packer.log r)
      ∪ PackerSpec.written copy2 (Packer.log r)
  ∧ (∀ k e, Packer.log r !! k = Some e →
       Packer.pl_outcome e = Packer.Copied →
       Packer.pl_dst e ∉ before k ∪ folder e
       ∧ copy2 (Packer.full_path (Packer.pl_file e)) (Packer.pl_dst e)
         = Packer.CopyDone
       ∧ Packer.pl_dst e ∈ Packer.dest r)
  ∧ (∀ k e, Packer.log r !! k = Some e →
       Packer.pl_outcome e = Packer.Skipped ↔
       Packer.pl_dst e ∈ before k ∪ folder e).
Proof.
  intros Hr before folder.
  destruct (pack_replayed L cap base plot today copy2 dest0 makedirs_raises
              r Hr) as [Hd Hrep].
  split; [rewrite Hd; unfold PackerSpec.exists_after; set_solver |].
  split; [exact Hd |]. split.
  - intros k e Hk Hc. pose proof (Hrep k e Hk) as He.
    unfold PackerSpec.expected_outcome in He. fold (before k) (folder e) in He.
    rewrite Hc in He. destruct (decide _) as [|Hnin]; [discriminate |].
    split; [exact Hnin |]. split.
    + by destruct (copy2 _ _).
    + rewrite Hd. unfold PackerSpec.exists_after, PackerSpec.written.
      apply elem_of_union_r, elem_of_list_to_set, list_elem_of_fmap_2.
      apply list_elem_of_filter. split.
      * unfold PackerSpec.left_behind. by rewrite Hc.
      * by eapply list_elem_of_lookup_2.
  - intros k e Hk. pose proof (Hrep k e Hk) as He.
    unfold PackerSpec.expected_outcome in He. fold (before k) (folder e) in He.
    rewrite He. destruct (decide _) as [Hin|Hnin]; [done |].
    split; [| done]. by destruct (copy2 _ _).
Qed.

Lemma pack_only_adds_witness :
  ∃ r, Packer.pack Fixtures.scenario_files 10 "/data" "NTAFIN0001" "20251111"
         Fixtures.makedirs_ok Fixtures.copy_ok ∅ = Some r
       ∧ Packer.dest r
         = ∅ ∪ PackerSpec.folders_made "/data" "NTAFIN0001" "20251111"
                 (Packer.log r)
           ∪ PackerSpec.written Fixtures.copy_ok (Packer.log r).
Proof.
  destruct (pack_total Fixtures.scenario_files 10 "/data" "NTAFIN0001"
              "20251111" Fixtures.copy_ok Fixtures.makedirs_ok ∅
              (λ _, eq_refl)) as [r Hr].
  exists r. split; [exact Hr |].
  exact (proj1 (proj2 (pack_only_adds Fixtures.scenario_files 10 "/data"
                         "NTAFIN0001" "20251111" Fixtures.makedirs_ok
                         Fixtures.copy_ok ∅ r Hr))).
Defined.

(** ** The sort by file name *)

Section sort_by_facts.
Context {A : Type} (key : A → string).

Local Abbreviation R := (λ a b : A, String.le (key a) (key b)).

Lemma insert_by_perm (x : A) (l : list A) :
  Pipeline.insert_by key x l ≡ₚ x :: l.
Proof.
  induction l as [|y l IH]; simpl; [done |].
  destruct (String.leb (key x) (key y)); [done |].
  rewrite IH. apply Permutation_swap.
Qed.

Lemma sort_by_perm (l : list A) : Pipeline.sort_by key l ≡ₚ l.
Proof.
  induction l as [|x l IH]; simpl; [done |].
  rewrite insert_by_perm. by rewrite IH.
Qed.

Lemma insert_by_sorted (x : A) (l : list A) :
  StronglySorted R l → StronglySorted R (Pipeline.insert_by key x l).
Proof.
  induction 1 as [|y l Hs IH Hy]; simpl.
  - repeat constructor.
  - destruct (String.leb (key x) (key y)) eqn:Hxy.
    + constructor; [by constructor |].
      assert (String.le (key x) (key y)) as Hle
        by (unfold String.le; by rewrite Hxy).
      constructor; [done |].
      eapply Forall_impl; [exact Hy |]. simpl. intros z Hz.
      by etrans.
    + constructor; [done |].
      rewrite (insert_by_perm x l). constructor; [| done].
      destruct (total String.le (key x) (key y)) as [Hle|Hle]; [| done].
      unfold String.le in Hle. rewrite Hxy in Hle. done.
Qed.

Lemma sort_by_sorted (l : list A) : StronglySorted R (Pipeline.sort_by key l).
Proof.
  induction l as [|x l IH]; simpl; [constructor |]. by apply insert_by_sorted.
Qed.

Lemma insert_by_stable (k : string) (x : A) (l : list A) :
  filter (λ z, key z = k) (Pipeline.insert_by key x l)
  = filter (λ z, key z = k) (x :: l).
Proof.
  induction l as [|y l IH]; simpl; [done |].
  destruct (String.leb (key x) (key y)) eqn:Hxy; [done |].
  rewrite (filter_cons _ y), IH, !filter_cons.
  destruct (decide (key x = k)) as [Hx|Hx];
    destruct (decide (key y = k)) as [Hy|Hy]; try done.
  exfalso. assert (String.le (key x) (key y)) as Hle
    by (rewrite Hx, Hy; reflexivity).
  unfold String.le in Hle. by rewrite Hxy in Hle.
Qed.

Lemma sort_by_stable (k : string) (l : list A) :
  filter (λ z, key z = k) (Pipeline.sort_by key l) = filter (λ z, key z = k) l.
Proof.
  induction l as [|x l IH]; simpl; [done |].
  rewrite insert_by_stable, !filter_cons, IH. done.
Qed.

Lemma sorted_last_greatest (l : list A) (x : A) :
  StronglySorted R l → last l = Some x → ∀ y, y ∈ l → R y x.
Proof.
  intros Hs Hlast y Hy. apply last_Some in Hlast as [l' ->].
  apply elem_of_app in Hy as [Hy|Hy%list_elem_of_singleton].
  - induction l' as [|z l' IH]; [by apply elem_of_nil in Hy |].
    simpl in Hs. apply StronglySorted_inv in Hs as [Hs Hz].
    apply elem_of_cons in Hy as [->|Hy]; [| by apply IH].
    rewrite Forall_forall in Hz. apply Hz. set_solver.
  - subst. simpl. reflexivity.
Qed.

End sort_by_facts.

(** X4. The list that the packer is given is the plot's files sorted as
    [list.sort(key=file name)] sorts them: the same files, in ascending
    file-name order by code point, files of one name in the order in which
    they were collected. *)
Theorem sort_by_filename_spec (l : list Packer.tif_file) :
  Pipeline.sort_by Packer.filename l ≡ₚ l
  ∧ StronglySorted (λ a b, String.le (Packer.filename a) (Packer.filename b))
      (Pipeline.sort_by Packer.filename l)
  ∧ (∀ name, filter (λ f, Packer.filename f = name)
               (Pipeline.sort_by Packer.filename l)
             = filter (λ f, Packer.filename f = name) l).
Proof.
  split_and!.
  - apply sort_by_perm.
  - apply sort_by_sorted.
  - intros name. apply sort_by_stable.
Qed.

(** ** Which plot the pipeline packs *)

Section collect_facts.
Context (red blue : string) (listdir : string → option (list string)).

Lemma add_camera_dom (camera source set_folder num_folder plot_id : string)
    (m : gmap string (list Packer.tif_file)) :
  dom (Pipeline.add_camera listdir camera source set_folder num_folder plot_id m)
  = dom m.
Proof.
  unfold Pipeline.add_camera. destruct (listdir _); [| done].
  apply dom_alter_L.
Qed.

Lemma collect_set_dom (m : gmap string (list Packer.tif_file))
    (item : string * Pipeline.assignment) :
  dom (Pipeline.collect_set red blue listdir m item)
  = {[Pipeline.a_plot_id item.2]} ∪ dom m.
Proof.
  destruct item as [set_folder a]. unfold Pipeline.collect_set. simpl.
  set (m1 := if decide (Pipeline.a_plot_id a ∈ dom m) then m
             else <[Pipeline.a_plot_id a := []]> m).
  assert (dom m1 = {[Pipeline.a_plot_id a]} ∪ dom m) as <-.
  { subst m1. destruct (decide _); [set_solver |]. by rewrite dom_insert_L. }
  generalize m1. clear m1.
  induction (Pipeline.numbered_folders a) as [|n ns IH] using rev_ind;
    intros m1; [done |].
  rewrite foldl_snoc, !add_camera_dom. apply IH.
Qed.

Lemma collect_dom (sa : list (string * Pipeline.assignment)) :
  dom (Pipeline.collect red blue listdir sa)
  = list_to_set (Pipeline.a_plot_id ∘ snd <$> sa).
Proof.
  unfold Pipeline.collect.
  induction sa as [|item sa IH] using rev_ind;
    [simpl; apply dom_empty_L |].
  rewrite foldl_snoc, collect_set_dom, IH, fmap_app, list_to_set_app_L.
  simpl. set_solver.
Qed.

Lemma add_camera_files (camera source set_folder num_folder plot_id : string)
    (m : gmap string (list Packer.tif_file)) (q : string)
    (f : Packer.tif_file) :
  f ∈ default [] (Pipeline.add_camera listdir camera source set_folder
                    num_folder plot_id m !! q) →
  f ∈ default [] (m !! q) ∨ (q = plot_id ∧ Packer.source_set f = set_folder).
Proof.
  unfold Pipeline.add_camera. destruct (listdir _) as [names|]; [| by left].
  destruct (decide (q = plot_id)) as [->|Hne].
  - rewrite lookup_alter_eq. destruct (m !! plot_id) as [l|]; simpl; [| by left].
    intros [Hf|Hf]%elem_of_app; [by left | right].
    apply list_elem_of_fmap in Hf as (name & -> & _). done.
  - rewrite lookup_alter_ne by done. by left.
Qed.

Lemma collect_set_files (m : gmap string (list Packer.tif_file))
    (item : string * Pipeline.assignment) (q : string) (f : Packer.tif_file) :
  f ∈ default [] (Pipeline.collect_set red blue listdir m item !! q) →
  f ∈ default [] (m !! q)
  ∨ (q = Pipeline.a_plot_id item.2 ∧ Packer.source_set f = item.1).
Proof.
  destruct item as [set_folder a]. unfold Pipeline.collect_set. simpl.
  set (m1 := if decide (Pipeline.a_plot_id a ∈ dom m) then m
             else <[Pipeline.a_plot_id a := []]> m).
  assert (f ∈ default [] (m1 !! q) → f ∈ default [] (m !! q)) as Hm1.
  { subst m1. destruct (decide _); [done |].
    destruct (decide (q = Pipeline.a_plot_id a)) as [->|Hne].
    - rewrite lookup_insert_eq. simpl. by intros ?%elem_of_nil.
    - by rewrite lookup_insert_ne. }
  revert Hm1. generalize m1. clear m1.
  induction (Pipeline.numbered_folders a) as [|n ns IH] using rev_ind;
    intros m1 Hm1; [by left; apply Hm1 |].
  rewrite foldl_snoc.
  intros [Hf|Hf]%add_camera_files; [| by right].
  apply add_camera_files in Hf as [Hf|Hf]; [| by right].
  by apply (IH m1).
Qed.

Lemma collect_files (sa : list (string * Pipeline.assignment)) (q : string)
    (f : Packer.tif_file) :
  f ∈ default [] (Pipeline.collect red blue listdir sa !! q) →
  ∃ a, (Packer.source_set f, a) ∈ sa ∧ Pipeline.a_plot_id a = q.
Proof.
  unfold Pipeline.collect.
  induction sa as [|item sa IH] using rev_ind.
  - simpl. rewrite lookup_empty. simpl. by intros ?%elem_of_nil.
  - rewrite foldl_snoc. intros Hf.
    apply collect_set_files in Hf as [Hf|[-> Hs]].
    + destruct (IH Hf) as (a & Ha & Hq). exists a. split; [| done].
      apply elem_of_app. by left.
    + exists item.2. split; [| done]. rewrite Hs.
      apply elem_of_app. right. destruct item. simpl. by left.
Qed.

End collect_facts.

Lemma distinct_keys_one_value {A B} (l : list (A * B)) (x : A) (y1 y2 : B) :
  NoDup l.*1 → (x, y1) ∈ l → (x, y2) ∈ l → y1 = y2.
Proof.
  induction l as [|[x' y'] l IH]; simpl; [by intros _ ?%elem_of_nil |].
  intros [Hx Hnd]%NoDup_cons H1 H2.
  apply elem_of_cons in H1 as [H1|H1]; apply elem_of_cons in H2 as [H2|H2].
  - congruence.
  - injection H1 as -> ->. exfalso. apply Hx.
    apply list_elem_of_fmap. by exists (x', y2).
  - injection H2 as -> ->. exfalso. apply Hx.
    apply list_elem_of_fmap. by exists (x', y1).
  - by apply IH.
Qed.

(** X5. With at least one SET folder assigned the stage packs one plot
    only: the assigned plot id that is greatest in code-point order. It
    reaches its summary whenever [os.makedirs] raises for none of that
    plot's folders, and without a summary some [os.makedirs] raised. The
    combined summary has that one entry, and the placements are exactly
    the files collected for that plot, in the order of the sort by file
    name; with the SET folders being the distinct keys of the
    assignment, a file collected for any other plot gets no placement. *)
Theorem transfer_packs_greatest_plot
    (red blue base today : string) (listdir : string → option (list string))
    (set_assignments : list (string * Pipeline.assignment))
    (makedirs_raises : string → bool)
    (copy2 : string → string → Packer.copy_result) (dest0 : gset string) :
  set_assignments ≠ [] →
  let transfer :=
    Pipeline.transfer red blue base today listdir set_assignments
      makedirs_raises copy2 dest0 in
  let collected := Pipeline.collect red blue listdir set_assignments in
  ∃ plot,
    plot ∈ (Pipeline.a_plot_id ∘ snd <$> set_assignments)
    ∧ (∀ q, q ∈ (Pipeline.a_plot_id ∘ snd <$> set_assignments) →
         String.le q plot)
    ∧ ((∀ k, makedirs_raises (Packer.target_path base plot today k) = false) →
       is_Some transfer)
    ∧ (transfer = None →
       ∃ k, makedirs_raises (Packer.target_path base plot today k) = true)
    ∧ ∀ t, transfer = Some t →
        fst <$> Pipeline.all_summaries t = [plot]
        ∧ Packer.pl_file <$> Pipeline.placements t
          = Pipeline.sort_by Packer.filename (default [] (collected !! plot))
        ∧ (NoDup set_assignments.*1 →
           ∀ q f, q ≠ plot → f ∈ default [] (collected !! q) →
                  f ∉ Packer.pl_file <$> Pipeline.placements t).
Proof.
  intros Hne. cbv zeta. unfold Pipeline.transfer.
  set (fbp := Pipeline.collect red blue listdir set_assignments).
  set (order := Pipeline.plot_order (Pipeline.sort_by Packer.filename <$> fbp)).
  assert (order ≡ₚ elements (dom fbp)) as Hperm.
  { subst order. unfold Pipeline.plot_order, Pipeline.sorted_strings.
    rewrite sort_by_perm. by rewrite dom_fmap_L. }
  assert (∀ q, q ∈ order ↔ q ∈ (Pipeline.a_plot_id ∘ snd <$> set_assignments))
    as Hmem.
  { intros q. rewrite Hperm, elem_of_elements. subst fbp.
    rewrite collect_dom. apply elem_of_list_to_set. }
  destruct (last order) as [plot|] eqn:Hlast.
  2:{ exfalso. apply last_None in Hlast.
      destruct set_assignments as [|item sa]; [done |].
      assert (Pipeline.a_plot_id item.2 ∈ order) as Hin
        by (apply Hmem; simpl; left).
      rewrite Hlast in Hin. by apply elem_of_nil in Hin. }
  exists plot.
  assert (plot ∈ order) as Hin.
  { apply last_Some in Hlast as [l' ->]. set_solver. }
  assert ((Pipeline.sort_by Packer.filename <$> fbp) !! plot
          = Pipeline.sort_by Packer.filename <$> fbp !! plot) as Hlook
    by apply lookup_fmap.
  assert (default [] ((Pipeline.sort_by Packer.filename <$> fbp) !! plot)
          = Pipeline.sort_by Packer.filename (default [] (fbp !! plot))) as Hfiles.
  { rewrite Hlook. by destruct (fbp !! plot). }
  rewrite Hfiles. clear Hlook Hfiles.
  set (files := Pipeline.sort_by Packer.filename (default [] (fbp !! plot))).
  split; [by apply Hmem |]. split.
  { intros q Hq%Hmem.
    apply (sorted_last_greatest id order plot); [| done | done].
    apply (sort_by_sorted id). }
  split.
  { intros Hmk.
    destruct (pack_total files Pipeline.MAX_FILES_PER_FOLDER base plot today
                copy2 makedirs_raises dest0 Hmk) as [r ->]. by eexists. }
  split.
  { intros Hnone.
    apply (pack_None files Pipeline.MAX_FILES_PER_FOLDER base plot today copy2
             makedirs_raises dest0).
    by destruct (Packer.pack _ _ _ _ _ _ _ _). }
  intros t Ht.
  destruct (Packer.pack _ _ _ _ _ _ _ _) as [r|] eqn:Hr; [| done].
  injection Ht as <-. simpl.
  destruct (accounted_pack _ _ _ _ _ _ _ _ _ Hr) as (Hlog & _).
  split; [done |]. split; [exact Hlog |].
  intros Hnd q f Hq Hf. rewrite Hlog. subst files.
  rewrite sort_by_perm. intros Hf'.
  apply collect_files in Hf as (a1 & H1 & E1).
  apply collect_files in Hf' as (a2 & H2 & E2).
  apply Hq. rewrite <- E1, <- E2. f_equal.
  exact (distinct_keys_one_value _ _ _ _ Hnd H1 H2).
Qed.

Lemma transfer_packs_greatest_plot_witness :
  Fixtures.two_plots ≠ []
  ∧ ∃ plot,
      plot ∈ (Pipeline.a_plot_id ∘ snd <$> Fixtures.two_plots)
      ∧ is_Some (Pipeline.transfer "/red" "/blue" "/data" "20251111"
                   Fixtures.two_plots_listdir Fixtures.two_plots
                   Fixtures.makedirs_ok Fixtures.copy_ok ∅).
Proof.
  assert (Fixtures.two_plots ≠ []) as Hne by discriminate.
  split; [exact Hne |].
  destruct (transfer_packs_greatest_plot "/red" "/blue" "/data" "20251111"
              Fixtures.two_plots_listdir Fixtures.two_plots
              Fixtures.makedirs_ok Fixtures.copy_ok ∅ Hne)
    as (plot & Hin & _ & Hsome & _).
  exists plot. split; [exact Hin |]. apply Hsome. intros k. reflexivity.
Defined.

Lemma clean_first_run :
  PackerSpec.failures ∘ Pipeline.placements
    <$> Pipeline.transfer "/red" "/blue" "/data" "20251111"
          Fixtures.two_plots_listdir Fixtures.two_plots Fixtures.makedirs_ok
          Fixtures.copy_ok ∅
  = Some 0.
Proof. vm_compute. reflexivity. Qed.

Lemma transfer_rerun_witness :
  ∃ t1, (Pipeline.transfer "/red" "/blue" "/data" "20251111"
           Fixtures.two_plots_listdir Fixtures.two_plots Fixtures.makedirs_ok
           Fixtures.copy_ok ∅
         = Some t1
         ∧ PackerSpec.failures (Pipeline.placements t1) = 0)
        ∧ ∃ t2, Pipeline.transfer "/red" "/blue" "/data" "20251111"
                  Fixtures.two_plots_listdir Fixtures.two_plots
                  Fixtures.makedirs_ok Fixtures.copy_fails
                  (Pipeline.final_dest t1) = Some t2
                ∧ Pipeline.final_dest t2 = Pipeline.final_dest t1.
Proof.
  pose proof clean_first_run as Hrun.
  apply fmap_Some in Hrun as (t1 & H1 & Hf). simpl in Hf. symmetry in Hf.
  exists t1. split; [exact (conj H1 Hf) |].
  destruct (transfer_rerun "/red" "/blue" "/data" "20251111"
              Fixtures.two_plots_listdir Fixtures.two_plots
              Fixtures.makedirs_ok Fixtures.copy_ok
              Fixtures.copy_fails ∅ t1 H1 Hf) as (t2 & H2 & Hd & _).
  exists t2. exact (conj H2 Hd).
Defined.

(** ** Corruption checks *)

(** X7. The TIFF check passes a file exactly when the file exists, its
    size is read and is not zero, it opens and its first four bytes are
    49 49 2A 00 or 4D 4D 00 2A, and, where PIL is available, the image
    verifies. *)
Theorem check_tif_passes_iff (pil : bool) (v : Scanner.file_view) :
  Scanner.check_tif pil v = None ↔
  Scanner.path_exists v = true
  ∧ (∃ n, Scanner.getsize v = Scanner.Returns n ∧ n ≠ 0%N)
  ∧ (∃ bytes, Scanner.contents v = Scanner.Returns bytes
              ∧ (take 4 bytes = [x49; x49; x2a; x00]
                 ∨ take 4 bytes = [x4d; x4d; x00; x2a]))
  ∧ (pil = true → ∃ u, Scanner.pil_verify v = Scanner.Returns u).
Proof.
  unfold Scanner.check_tif.
  destruct (Scanner.path_exists v); simpl; [| split; [done | by intros [? _]]].
  destruct (Scanner.getsize v) as [n|msg];
    [| split; [done | by intros (_ & (? & ? & ?) & _)]].
  destruct (n =? 0)%N eqn:Hn.
  { apply N.eqb_eq in Hn. split; [done |].
    intros (_ & (n' & [= <-] & Hne) & _). done. }
  apply N.eqb_neq in Hn.
  destruct (Scanner.contents v) as [bytes|msg];
    [| split; [done | by intros (_ & _ & (? & ? & ?) & _)]].
  assert (Scanner.valid_magic (take 4 bytes) = true
          ↔ (4 ≤ length bytes)
            ∧ (take 4 bytes = [x49; x49; x2a; x00]
               ∨ take 4 bytes = [x4d; x4d; x00; x2a])) as Hmagic.
  { unfold Scanner.valid_magic, Scanner.slice.
    rewrite orb_true_iff, !andb_true_iff, !bool_decide_eq_true.
    unfold Scanner.II, Scanner.star_nul, Scanner.MM, Scanner.nul_star.
    destruct bytes as [|b0 [|b1 [|b2 [|b3 rest]]]]; simpl;
      (split;
       [ intros [[H1 H2]|[H1 H2]]; simplify_eq; (split; [lia | auto])
       | intros [Hl [H|H]]; simplify_eq; try lia; auto ]). }
  rewrite length_take.
  destruct (4 `min` length bytes <? 4) eqn:Hlen.
  { apply Nat.ltb_lt in Hlen. split; [done |].
    intros (_ & _ & (bytes' & [= <-] & Hm) & _).
    assert (length (take 4 bytes) = 4) as Hl
      by (destruct Hm as [-> | ->]; done).
    rewrite length_take in Hl. lia. }
  apply Nat.ltb_ge in Hlen.
  destruct (Scanner.valid_magic (take 4 bytes)) eqn:Hv; simpl.
  - destruct (proj1 Hmagic eq_refl) as [_ Hv'].
    destruct pil.
    + destruct (Scanner.pil_verify v) as [u|msg].
      * split; [| done]. intros _. split_and!; eauto.
      * split; [done |]. intros (_ & _ & _ & Hp).
        destruct (Hp eq_refl) as [u Hu]. done.
    + split; [| done]. intros _. split_and!; eauto. done.
  - split; [done |]. intros (_ & _ & (bytes' & [= <-] & Hm) & _).
    assert (false = true) as Habs by (apply Hmagic; split; [lia | done]).
    discriminate.
Qed.

(** X8. The generic check of the verification stages is weaker than the
    TIFF check on the same observations: whatever it flags, the TIFF check
    flags too, so a file that passes the TIFF check passes the generic
    one; it passes exactly the files that exist, have a readable non-zero
    size and can be opened; and a file of four zero bytes passes it while
    the TIFF check rejects it. *)
Theorem generic_check_weaker_than_tif (pil : bool) (v : Scanner.file_view) :
  (Integrity.check_file_corruption v = true → is_Some (Scanner.check_tif pil v))
  ∧ (Scanner.check_tif pil v = None → Integrity.check_file_corruption v = false)
  ∧ (Integrity.check_file_corruption v = false ↔
     Scanner.path_exists v = true
     ∧ (∃ n, Scanner.getsize v = Scanner.Returns n ∧ n ≠ 0%N)
     ∧ (∃ bytes, Scanner.contents v = Scanner.Returns bytes))
  ∧ (let zeros := Scanner.FileView true (Scanner.Returns 4%N)
                    (Scanner.Returns [x00; x00; x00; x00]) (Scanner.Returns ()) in
     Integrity.check_file_corruption zeros = false
     ∧ Scanner.check_tif pil zeros = Some "Invalid TIFF header").
Proof.
  assert (Integrity.check_file_corruption v = false ↔
          Scanner.path_exists v = true
          ∧ (∃ n, Scanner.getsize v = Scanner.Returns n ∧ n ≠ 0%N)
          ∧ (∃ bytes, Scanner.contents v = Scanner.Returns bytes)) as Hgen.
  { unfold Integrity.check_file_corruption.
    destruct (Scanner.path_exists v); simpl; [| split; [done | by intros [? _]]].
    destruct (Scanner.getsize v) as [n|msg];
      [| split; [done | by intros (_ & (? & ? & ?) & _)]].
    destruct (n =? 0)%N eqn:Hn.
    { apply N.eqb_eq in Hn. split; [done |].
      intros (_ & (n' & [= <-] & Hne) & _). done. }
    apply N.eqb_neq in Hn.
    destruct (Scanner.contents v) as [bytes|msg];
      [| split; [done | by intros (_ & _ & (? & ?))]].
    split; [| done]. intros _. split_and!; eauto. }
  assert (Scanner.check_tif pil v = None →
          Integrity.check_file_corruption v = false) as Hweak.
  { intros (He & Hs & (bytes & Hc & _) & _)%check_tif_passes_iff.
    apply Hgen. eauto. }
  split_and!; [| done | done | by destruct pil].
  intros Hc. destruct (Scanner.check_tif pil v) as [reason|] eqn:Ht; [by eexists |].
  rewrite (Hweak eq_refl) in Hc. discriminate.
Qed.

Lemma scan_folder_snoc (pil : bool) (plot folder : string)
    (view : string → Scanner.file_view) (listing : list string) (f : string) :
  Scanner.scan_folder pil plot folder view (listing ++ [f])
  = let '(corrupt, checked) := Scanner.scan_folder pil plot folder view listing in
    if Scanner.is_tif_name f then
      match Scanner.check_tif pil (view f) with
      | Some reason =>
          (corrupt ++ [Scanner.CorruptEntry f folder plot reason], S checked)
      | None => (corrupt, S checked)
      end
    else (corrupt, checked).
Proof.
  unfold Scanner.scan_folder. rewrite foldl_snoc.
  by destruct (foldl _ _ listing).
Qed.

(** X9. The scan of one output folder counts exactly the files whose
    upper-cased name ends in .TIF or .TIFF; it reports, in listing order,
    exactly those of them that fail the TIFF check, each with the folder,
    the plot and the reason of the check; files of other types are neither
    counted nor reported. *)
Theorem scan_folder_spec (pil : bool) (plot folder : string)
    (view : string → Scanner.file_view) (listing : list string) :
  let tifs := filter (λ f, Scanner.is_tif_name f = true) listing in
  Scanner.scan_folder pil plot folder view listing
  = (omap (λ f, Scanner.CorruptEntry f folder plot
                  <$> Scanner.check_tif pil (view f)) tifs,
     length tifs).
Proof.
  induction listing as [|f listing IH] using rev_ind; [done |].
  rewrite scan_folder_snoc. simpl in IH. rewrite IH. cbv zeta.
  rewrite filter_app, omap_app, length_app, filter_cons, filter_nil.
  destruct (Scanner.is_tif_name f) eqn:Hf; simpl.
  - destruct (Scanner.check_tif pil (view f)); simpl.
    + f_equal. lia.
    + rewrite app_nil_r. f_equal. lia.
  - rewrite app_nil_r. f_equal. lia.
Qed.

(** ** [verify_data_integrity] *)

Lemma check_site_closed (files : list (string * Scanner.file_view)) :
  Integrity.check_site files
  = (length files,
     fst <$> filter (λ x, Integrity.check_file_corruption x.2 = true) files).
Proof.
  unfold Integrity.check_site.
  induction files as [|[p v] files IH] using rev_ind; [done |].
  rewrite foldl_snoc, IH, filter_app, fmap_app, length_app, filter_cons, filter_nil.
  simpl. destruct (Integrity.check_file_corruption v) eqn:Hv; simpl.
  - f_equal. lia.
  - rewrite app_nil_r. f_equal. lia.
Qed.

Lemma verify_snoc (listing : list Integrity.site_entry) (e : Integrity.site_entry) :
  Integrity.verify_data_integrity (listing ++ [e])
  = let acc := Integrity.verify_data_integrity listing in
    if negb (Integrity.is_dir e) then acc
    else
      let corrupt :=
        fst <$> filter (λ x, Integrity.check_file_corruption x.2 = true)
                  (Integrity.site_files e) in
      Integrity.Verification (S (Integrity.total_sites acc))
        (Integrity.total_files acc + length (Integrity.site_files e))
        (Integrity.total_corrupt acc + length corrupt)
        (Integrity.site_reports acc
           ++ [Integrity.SiteReport (Integrity.site_folder e)
                 (length (Integrity.site_files e)) corrupt
                 (bool_decide (corrupt = []))]).
Proof.
  unfold Integrity.verify_data_integrity. rewrite foldl_snoc.
  destruct (negb _); [done |]. by rewrite check_site_closed.
Qed.

Lemma sum_list_fmap_snoc {A} (f : A → nat) (l : list A) (x : A) :
  sum_list (f <$> (l ++ [x])) = sum_list (f <$> l) + f x.
Proof. rewrite fmap_app. apply sum_list_snoc. Qed.

(** X10. The verification of a base directory reports one row per entry
    that is a directory, in listing order, and skips the other entries; a
    row counts every file found under the site and lists exactly the
    files that fail the generic check; a site is PASSED exactly when that
    list is empty; the totals are the sums over the rows, so no corrupt
    file is reported in total exactly when every site is PASSED. *)
Theorem verify_data_integrity_totals (listing : list Integrity.site_entry) :
  let r := Integrity.verify_data_integrity listing in
  let sites := filter (λ e, Integrity.is_dir e = true) listing in
  Integrity.site_reports r
  = (λ e, let corrupt :=
            fst <$> filter (λ x, Integrity.check_file_corruption x.2 = true)
                      (Integrity.site_files e) in
          Integrity.SiteReport (Integrity.site_folder e)
            (length (Integrity.site_files e)) corrupt
            (bool_decide (corrupt = []))) <$> sites
  ∧ Integrity.total_sites r = length sites
  ∧ Integrity.total_files r
    = sum_list (Integrity.sr_files <$> Integrity.site_reports r)
  ∧ Integrity.total_corrupt r
    = sum_list (length ∘ Integrity.sr_corrupt_files <$> Integrity.site_reports r)
  ∧ (Integrity.total_corrupt r = 0 ↔
     Forall (λ s, Integrity.sr_passed s = true) (Integrity.site_reports r)).
Proof.
  induction listing as [|e listing IH] using rev_ind.
  - simpl. split_and!; done.
  - cbv zeta in *. destruct IH as (Hrep & Hsites & Hfiles & Hcorrupt & Hall).
    rewrite verify_snoc, filter_app, filter_cons, filter_nil. cbv zeta.
    destruct (Integrity.is_dir e) eqn:Hd; simpl.
    + rewrite !sum_list_fmap_snoc, length_app. simpl.
      split_and!.
      * by rewrite fmap_app, <- Hrep.
      * lia.
      * lia.
      * lia.
      * rewrite Forall_app, Forall_singleton. simpl.
        rewrite bool_decide_eq_true, <- Hall.
        split.
        -- intros H0. split; [lia |]. apply length_zero_iff_nil. lia.
        -- intros [H0 ->]. simpl. lia.
    + rewrite !app_nil_r. done.
Qed.

(** ** More on [compare_directories] *)

Lemma elem_of_size_diff (w1 w2 : list TreeDiffer.walk_entry) (p : string) :
  p ∈ TreeDiffer.size_diff (TreeDiffer.compare_directories w1 w2) ↔
  ∃ s1 s2, TreeDiffer.get_file_list w1 !! p = Some s1
           ∧ TreeDiffer.get_file_list w2 !! p = Some s2 ∧ s1 ≠ s2.
Proof.
  simpl. rewrite elem_of_filter, elem_of_intersection, !elem_of_dom.
  split.
  - intros (Hne & [s1 H1] & [s2 H2]). exists s1, s2.
    split_and!; [done | done | congruence].
  - intros (s1 & s2 & H1 & H2 & Hne). rewrite H1, H2.
    split_and!; [congruence | by eexists | by eexists].
Qed.

(** X11. Two trees compare as identical exactly when their walks give the
    same map from relative path to size: the same readable files with the
    same sizes. Content is not looked at. *)
Theorem identical_iff_same_sizes (walk1 walk2 : list TreeDiffer.walk_entry) :
  TreeDiffer.is_identical (TreeDiffer.compare_directories walk1 walk2) = true ↔
  TreeDiffer.get_file_list walk1 = TreeDiffer.get_file_list walk2.
Proof.
  split; [| intros H; by rewrite (compare_same_files _ _ H)].
  intros (H1 & H2 & Hd)%is_identical_iff.
  apply map_eq. intros p.
  destruct (TreeDiffer.get_file_list walk1 !! p) as [s1|] eqn:E1;
    destruct (TreeDiffer.get_file_list walk2 !! p) as [s2|] eqn:E2; try done.
  - destruct (decide (s1 = s2)) as [->|Hne]; [done |].
    assert (p ∈ TreeDiffer.size_diff (TreeDiffer.compare_directories walk1 walk2))
      as Hin by (apply elem_of_size_diff; eauto).
    rewrite Hd in Hin. by apply not_elem_of_empty in Hin.
  - assert (p ∈ TreeDiffer.only_in_1 (TreeDiffer.compare_directories walk1 walk2))
      as Hin.
    { simpl. rewrite elem_of_difference, !elem_of_dom, E1, E2.
      split; [by eexists | by intros ?%is_Some_None]. }
    rewrite H1 in Hin. by apply not_elem_of_empty in Hin.
  - assert (p ∈ TreeDiffer.only_in_2 (TreeDiffer.compare_directories walk1 walk2))
      as Hin.
    { simpl. rewrite elem_of_difference, !elem_of_dom, E1, E2.
      split; [by eexists | by intros ?%is_Some_None]. }
    rewrite H2 in Hin. by apply not_elem_of_empty in Hin.
Qed.

(** X12. Exchanging primary and backup exchanges the two one-sided sets
    and leaves the size mismatches and the verdict as they are. *)
Theorem compare_directories_swap (walk1 walk2 : list TreeDiffer.walk_entry) :
  TreeDiffer.only_in_1 (TreeDiffer.compare_directories walk2 walk1)
  = TreeDiffer.only_in_2 (TreeDiffer.compare_directories walk1 walk2)
  ∧ TreeDiffer.only_in_2 (TreeDiffer.compare_directories walk2 walk1)
    = TreeDiffer.only_in_1 (TreeDiffer.compare_directories walk1 walk2)
  ∧ TreeDiffer.size_diff (TreeDiffer.compare_directories walk2 walk1)
    = TreeDiffer.size_diff (TreeDiffer.compare_directories walk1 walk2)
  ∧ TreeDiffer.is_identical (TreeDiffer.compare_directories walk2 walk1)
    = TreeDiffer.is_identical (TreeDiffer.compare_directories walk1 walk2).
Proof.
  assert (TreeDiffer.size_diff (TreeDiffer.compare_directories walk2 walk1)
          = TreeDiffer.size_diff (TreeDiffer.compare_directories walk1 walk2))
    as Hd.
  { apply set_eq. intros p. rewrite !elem_of_size_diff. naive_solver. }
  split_and!; [done | done | done |].
  apply eq_true_iff_eq. rewrite !identical_iff_same_sizes. naive_solver.
Qed.


(** ** More on the string primitives *)


Lemma rsplit_at_None (c : ascii) (s : string) :
  Py.rsplit_at c s = None ↔ Py.contains c s = false.
Proof.
  induction s as [|a s IH]; simpl; [done |].
  destruct (Py.rsplit_at c s) as [[h t]|].
  - destruct (decide (a = c)); split; try done.
    intros H. apply IH in H. done.
  - destruct (decide (a = c)); [done |]. by rewrite <- IH.
Qed.

Lemma rsplit_at_Some (c : ascii) (s h t : string) :
  Py.rsplit_at c s = Some (h, t) ↔
  s = h +:+ String c t ∧ Py.contains c t = false.
Proof.
  revert h t. induction s as [|a s IH]; intros h t; simpl.
  - split; [done |]. intros [H _]. by destruct h.
  - destruct (Py.rsplit_at c s) as [[h' t']|] eqn:E.
    + destruct (proj1 (IH h' t') eq_refl) as [-> Ht'].
      split.
      * intros [= <- <-]. done.
      * intros [Heq Ht]. destruct h as [|b h]; simpl in Heq.
        -- injection Heq as -> Heq. subst t.
           by rewrite contains_app_sep in Ht.
        -- injection Heq as -> Heq.
           assert (Some (h', t') = Some (h, t)) as [= -> ->]
             by (by apply IH).
           done.
    + apply rsplit_at_None in E.
      destruct (decide (a = c)) as [->|Hne].
      * split.
        -- intros [= <- <-]. done.
        -- intros [Heq Ht]. destruct h as [|b h]; simpl in Heq.
           ++ by injection Heq as ->.
           ++ injection Heq as -> Heq. subst s.
              by rewrite contains_app_sep in E.
      * split; [done |]. intros [Heq Ht].
        destruct h as [|b h]; simpl in Heq.
        -- by injection Heq as ->.
        -- injection Heq as -> Heq. subst s. by rewrite contains_app_sep in E.
Qed.

Lemma split_no_sep (c : ascii) (s : string) :
  Py.contains c s = false → Py.split c s = [s].
Proof. intros H. by destruct (split_shape c s) as [[_ ?]|(? & ? & ? & ? & _)]; [| congruence]. Qed.

Lemma split_app_sep (c : ascii) (a b : string) :
  Py.split c (a +:+ String c b) = Py.split c a ++ Py.split c b.
Proof.
  induction a as [|x a IH]; simpl.
  - by rewrite decide_True.
  - destruct (decide (x = c)); rewrite IH; [done |].
    destruct (Py.split c a) as [|h t] eqn:E; [| done].
    destruct (split_shape c a) as [[_ H]|(? & ? & l & _ & _ & _ & H & _)];
      rewrite H in E; [done | by destruct l].
Qed.

Lemma contains_app (c : ascii) (a b : string) :
  Py.contains c (a +:+ b) = Py.contains c a || Py.contains c b.
Proof.
  induction a as [|x a IH]; simpl; [done |]. by destruct (decide (x = c)).
Qed.

(** ** The plot id of a folder name *)

(** X14. The plot id read from a folder name is its second-to-last
    token between hyphens: for a name that ends in [-p-c], or that is
    [p-c], with no hyphen in [p] and [c], it is [p]; for a name without
    hyphen it is "UNKNOWN". *)
Theorem extract_plot_id_spec (pre p c : string) :
  Py.contains "-" p = false → Py.contains "-" c = false →
  Classifier.extract_plot_id (pre +:+ "-" +:+ p +:+ "-" +:+ c) = p
  ∧ Classifier.extract_plot_id (p +:+ "-" +:+ c) = p
  ∧ Classifier.extract_plot_id c = "UNKNOWN".
Proof.
  intros Hp Hc. unfold Classifier.extract_plot_id, Py.item_m2.
  change (pre +:+ "-" +:+ p +:+ "-" +:+ c)
    with (pre +:+ String "-" (p +:+ String "-" c)).
  change (p +:+ "-" +:+ c) with (p +:+ String "-" c).
  rewrite !split_app_sep, (split_no_sep _ p Hp), (split_no_sep _ c Hc).
  split_and!; [| done | done].
  rewrite !reverse_app. done.
Qed.

Lemma extract_plot_id_spec_witness :
  (Py.contains "-" "NTAFIN0001" = false ∧ Py.contains "-" "L2" = false)
  ∧ Classifier.extract_plot_id "DJI_202511110930_001-NTAFIN0001-L2" = "NTAFIN0001".
Proof.
  split; [split; reflexivity |].
  exact (proj1 (extract_plot_id_spec "DJI_202511110930_001" "NTAFIN0001" "L2"
                  eq_refl eq_refl)).
Defined.

(** ** The top folder of a relative path *)

Lemma rstrip_cons_ne (c a : ascii) (s : string) :
  a ≠ c → TreeDiffer.rstrip c (String a s) = String a (TreeDiffer.rstrip c s).
Proof.
  intros Hne. simpl. destruct (TreeDiffer.rstrip c s); [| done].
  by rewrite decide_False.
Qed.

Lemma rstrip_sep_free_prefix (c : ascii) (seg w : string) :
  Py.contains c seg = false →
  TreeDiffer.rstrip c (seg +:+ w) = seg +:+ TreeDiffer.rstrip c w.
Proof.
  induction seg as [|a seg IH]; intros Hseg; [done |].
  simpl in Hseg. destruct (decide (a = c)) as [|Hne]; [done |].
  change (String a seg +:+ w) with (String a (seg +:+ w)).
  rewrite rstrip_cons_ne by done. by rewrite IH.
Qed.

Lemma rstrip_starts (c : ascii) (w : string) :
  TreeDiffer.rstrip c (String c w) = ""
  ∨ ∃ w', TreeDiffer.rstrip c (String c w) = String c w'.
Proof.
  simpl. destruct (TreeDiffer.rstrip c w); [| right; by eexists].
  left. by rewrite decide_True.
Qed.

Lemma first_sep_prefix (c : ascii) (seg h t rest : string) :
  Py.contains c seg = false →
  h +:+ String c t = seg +:+ String c rest →
  ∃ w, h = seg +:+ w ∧ (w = "" ∨ ∃ w', w = String c w').
Proof.
  revert h. induction seg as [|a seg IH]; intros h Hseg Heq.
  - exists h. split; [done |]. destruct h as [|x h]; [by left |].
    simpl in Heq. injection Heq as -> _. right. by eexists.
  - simpl in Hseg. destruct (decide (a = c)) as [|Hne]; [done |].
    destruct h as [|x h]; simpl in Heq; injection Heq as Hx Heq; [congruence |].
    subst x. destruct (IH h Hseg Heq) as (w & -> & Hw). by exists w.
Qed.

Lemma split_head_sep_free (c : ascii) (seg w : string) :
  Py.contains c seg = false →
  (w = "" ∨ ∃ w', w = String c w') →
  head (Py.split c (seg +:+ w)) = Some seg.
Proof.
  intros Hseg [->|[w' ->]].
  - rewrite str_app_nil_r. by rewrite split_no_sep.
  - rewrite split_app_sep, split_no_sep by done. done.
Qed.

(** X15. The folder under which a difference is reported is the first
    segment of the relative path: [seg] for a path [seg/rest] with a
    non-empty first segment, and the file name itself for a file at the top
    of the tree. *)
Theorem top_folder_first_segment (seg rest : string) :
  seg ≠ "" → Py.contains "/" seg = false →
  TreeDiffer.top_folder (seg +:+ "/" +:+ rest) = seg
  ∧ TreeDiffer.top_folder seg = seg.
Proof.
  intros Hne Hseg. split; [| unfold TreeDiffer.top_folder; by rewrite Hseg].
  change (seg +:+ "/" +:+ rest) with (seg +:+ String "/" rest).
  unfold TreeDiffer.top_folder, TreeDiffer.dirname.
  rewrite contains_app_sep.
  destruct (Py.rsplit_at "/" (seg +:+ String "/" rest)) as [[h t]|] eqn:E.
  2:{ apply rsplit_at_None in E. by rewrite contains_app_sep in E. }
  apply rsplit_at_Some in E as [Heq Ht]. symmetry in Heq.
  destruct (first_sep_prefix "/" seg h t rest Hseg Heq) as (w & -> & Hw).
  assert (TreeDiffer.all_char "/" ((seg +:+ w) +:+ "/") = false) as ->.
  { destruct seg as [|a seg]; [done |]. simpl in *.
    destruct (decide (a = "/"%char)); [done |].
    by rewrite bool_decide_eq_false_2. }
  rewrite str_app_assoc.
  rewrite rstrip_sep_free_prefix by done.
  assert (TreeDiffer.rstrip "/" (w +:+ "/") = ""
          ∨ ∃ w', TreeDiffer.rstrip "/" (w +:+ "/") = String "/" w') as Hr.
  { destruct Hw as [->|[w' ->]]; apply rstrip_starts. }
  by rewrite (split_head_sep_free "/" seg _ Hseg Hr).
Qed.

Lemma top_folder_first_segment_witness :
  ("NTAFIN0001" ≠ "" ∧ Py.contains "/" "NTAFIN0001" = false)
  ∧ TreeDiffer.top_folder "NTAFIN0001/20251111/lidar/level0_raw/a.ldr"
    = "NTAFIN0001".
Proof.
  assert ("NTAFIN0001" ≠ "") as H1 by discriminate.
  split; [split; [exact H1 | reflexivity] |].
  exact (proj1 (top_folder_first_segment "NTAFIN0001"
                  "20251111/lidar/level0_raw/a.ldr" H1 eq_refl)).
Defined.

(** ** Names that follow the camera's convention *)





(** ** The folder transfers *)

Example lidar_transfer_example :
  FolderTransfer.transfer_folders Py.upper FolderTransfer.lidar "/sd" "/data"
    "20251111" Fixtures.makedirs_ok FolderFixtures.copies
    FolderFixtures.lidar_card ∅
  = FolderTransfer.Summary FolderFixtures.lidar_dest FolderFixtures.lidar_rows.
Proof. vm_compute. reflexivity. Qed.

(** A card root that holds files but no folder: nothing is classified and
    nothing is copied, in either transfer. *)
Example flat_card_is_left :
  FolderTransfer.transfer_folders Py.upper FolderTransfer.lidar "/sd" "/data"
    "20251111" Fixtures.makedirs_ok FolderFixtures.copies
    FolderFixtures.flat_card ∅
  = FolderTransfer.NothingToCopy
  ∧ FolderTransfer.transfer_folders Py.upper FolderTransfer.p1_rgb "/sd" "/data"
      "20251111" Fixtures.makedirs_ok FolderFixtures.copies
      FolderFixtures.lidar_card ∅
    = FolderTransfer.NothingToCopy.
Proof. split; vm_compute; reflexivity. Qed.

Section folder_transfer_facts.
Import FolderTransfer FolderTransferSpec.
Context (upper : string → string) (k : kind).
Context (base_target_dir today_str : string).

Local Notation tgt := (target_path k base_target_dir today_str).
Local Notation dst := (dest_folder k base_target_dir today_str).
Local Notation process' := (process upper k base_target_dir today_str).
Local Notation loop := (transfer_loop upper k base_target_dir today_str).
Local Notation skipped w :=
  (bool_decide (files w = []) || negb (takes k (basename (root w)))).

Lemma taken_snoc (walk : list walked) (w : walked) :
  taken k (walk ++ [w]) = taken k walk ++ (if skipped w then [] else [w]).
Proof.
  unfold taken. rewrite filter_app. f_equal.
  rewrite filter_cons, filter_nil.
  destruct (decide (files w ≠ [] ∧ takes k (basename (root w)) = true))
    as [[H1 H2]|Hn].
  - rewrite bool_decide_eq_false_2 by done. rewrite H2. reflexivity.
  - case_bool_decide as Hf; [reflexivity |].
    destruct (takes k (basename (root w))) eqn:Ht; [| reflexivity].
    exfalso. apply Hn. done.
Qed.

Lemma transfer_loop_snoc mk copy (walk : list walked) (w : walked) dest0 :
  loop mk copy (walk ++ [w]) dest0
  = loop mk copy walk dest0 ≫= λ '(dest, summary), process' mk copy dest summary w.
Proof. unfold transfer_loop. by rewrite foldl_snoc. Qed.

(** What one passage through the body of the loop does. *)
Lemma process_spec mk copy (d : gset string) (s : list row) (w : walked) :
  match process' mk copy d s w with
  | None =>
      skipped w = false ∧ complete upper k w
      ∧ mk (tgt (basename (root w))) = true
  | Some (d', s') =>
      if skipped w then d' = d ∧ s' = s
      else
        ∃ r, s' = s ++ [r]
             ∧ describes upper k w r
             ∧ d ⊆ d'
             ∧ (complete upper k w →
                mk (tgt (basename (root w))) = false
                ∧ list_to_set (Packer.made_dirs (tgt (basename (root w)))) ⊆ d')
             ∧ (∀ p, p ∈ d' → p ∉ d →
                  complete upper k w
                  ∧ (p = dst (basename (root w))
                     ∨ p ∈ Packer.made_dirs (tgt (basename (root w)))))
             ∧ (r_copy_status r = "Copied" ∨ r_copy_status r = "Already exists" →
                dst (basename (root w)) ∈ d')
             ∧ (is_error r = false → complete upper k w →
                dst (basename (root w)) ∈ d')
  end.
Proof.
  unfold process, complete.
  destruct (skipped w) eqn:Hskip; [done |].
  destruct (decide (Classifier.missing upper (required k) (files w) = []))
    as [Hmiss|Hmiss];
    [rewrite (bool_decide_eq_true_2 _ Hmiss)
    | rewrite (bool_decide_eq_false_2 _ Hmiss)].
  - destruct (mk _) eqn:Hmk; [done |].
    rewrite add_dirs_union.
    set (made := list_to_set (Packer.made_dirs (tgt (basename (root w))))).
    destruct (decide (dst (basename (root w)) ∈ made ∪ d)) as [Hin|Hnin].
    + eexists. split; [reflexivity |].
      split.
      { unfold describes. cbn [r_folder r_files r_plot_id r_copy_status].
        rewrite bool_decide_eq_true_2 by done. split_and!; auto. }
      split; [set_solver |]. split; [intros _; split; [done | set_solver] |].
      split.
      { intros p Hp Hnp. split; [done |]. right.
        apply elem_of_union in Hp as [Hp|Hp]; [| done].
        by apply elem_of_list_to_set in Hp. }
      split; intros; exact Hin.
    + destruct (copy _ _) as [|msg left] eqn:Ec.
      * eexists. split; [reflexivity |]. rewrite add_path_union.
        split.
        { unfold describes. cbn [r_folder r_files r_plot_id r_copy_status].
          rewrite bool_decide_eq_true_2 by done. split_and!; auto. }
        split; [set_solver |]. split; [intros _; split; [done | set_solver] |].
        split.
        { intros p Hp Hnp. split; [done |].
          apply elem_of_union in Hp as [Hp%elem_of_singleton|Hp]; [by left |].
          right. apply elem_of_union in Hp as [Hp|Hp]; [| done].
          by apply elem_of_list_to_set in Hp. }
        split; intros; set_solver.
      * eexists. split; [reflexivity |].
        split.
        { unfold describes. cbn [r_folder r_files r_plot_id r_copy_status].
          rewrite bool_decide_eq_true_2 by done. split_and!; eauto. }
        split; [destruct left; [rewrite add_path_union |]; set_solver |].
        split.
        { intros _. split; [done |].
          destruct left; [rewrite add_path_union |]; set_solver. }
        split.
        { intros p Hp Hnp. split; [done |].
          assert (p = dst (basename (root w)) ∨ p ∈ made ∪ d) as [->|Hp'].
          { destruct left; [rewrite add_path_union in Hp |]; set_solver. }
          - by left.
          - right. apply elem_of_union in Hp' as [Hp'|Hp']; [| done].
            by apply elem_of_list_to_set in Hp'. }
        split.
        -- cbn [r_copy_status]. intros [Hc|Hc]; discriminate Hc.
        -- unfold is_error. cbn [r_copy_status]. intros Hc.
           vm_compute in Hc. discriminate Hc.
  - eexists. split; [reflexivity |].
    split.
    { unfold describes. cbn [r_folder r_files r_plot_id r_copy_status].
      rewrite bool_decide_eq_false_2 by done. split_and!; auto. }
    split; [done |]. split; [done |]. split; [done |].
    split.
    + cbn [r_copy_status]. intros [Hc|Hc]; discriminate Hc.
    + done.
Qed.

(** What the loop leaves: the rows, the paths, and where it stopped. *)
Lemma transfer_loop_spec mk copy (walk : list walked) (dest0 : gset string) :
  match loop mk copy walk dest0 with
  | None =>
      ∃ w, w ∈ taken k walk ∧ complete upper k w
           ∧ mk (tgt (basename (root w))) = true
  | Some (dest, summary) =>
      (∀ w, w ∈ taken k walk → complete upper k w →
         mk (tgt (basename (root w))) = false
         ∧ list_to_set (Packer.made_dirs (tgt (basename (root w)))) ⊆ dest)
      ∧ Forall2 (describes upper k) (taken k walk) summary
      ∧ dest0 ⊆ dest
      ∧ (∀ p, p ∈ dest → p ∉ dest0 →
           ∃ w, w ∈ taken k walk ∧ complete upper k w
                ∧ (p = dst (basename (root w))
                   ∨ p ∈ Packer.made_dirs (tgt (basename (root w)))))
      ∧ (∀ w r, (w, r) ∈ zip (taken k walk) summary →
           r_copy_status r = "Copied" ∨ r_copy_status r = "Already exists" →
           dst (basename (root w)) ∈ dest)
  end.
Proof.
  induction walk as [|w walk IH] using rev_ind.
  - simpl. split; [by intros w ?%elem_of_nil |].
    split; [constructor |]. split; [done |]. split; [done |].
    intros w r Hin. by apply elem_of_nil in Hin.
  - rewrite transfer_loop_snoc, taken_snoc.
    destruct (loop mk copy walk dest0) as [[dm sm]|]; simpl.
    2:{ destruct IH as (w0 & Hin & Hc & Hmk). exists w0.
        split; [apply elem_of_app; by left | done]. }
    destruct IH as (IH0 & IH1 & IH2 & IH3 & IH4).
    pose proof (process_spec mk copy dm sm w) as Hp.
    destruct (process' mk copy dm sm w) as [[d' s']|].
    2:{ destruct Hp as (Hskip & Hc & Hmk). rewrite Hskip. exists w.
        split; [apply elem_of_app; right; by left | done]. }
    destruct (skipped w).
    { destruct Hp as [-> ->]. rewrite app_nil_r. done. }
    destruct Hp as (r & -> & Hd & Hsub & Hmade & Hnew & Hcop & _).
    assert (Hlen : length (taken k walk) = length sm)
      by (eapply Forall2_length; exact IH1).
    split.
    { intros w0 [Hin|Hin%list_elem_of_singleton]%elem_of_app Hc.
      - destruct (IH0 w0 Hin Hc) as [? ?]. split; [done |]. set_solver.
      - subst w0. by apply Hmade. }
    split; [apply Forall2_app; [exact IH1 | by constructor] |].
    split; [set_solver |]. split.
    + intros p Hp Hp0. destruct (decide (p ∈ dm)) as [Hm|Hm].
      * destruct (IH3 p Hm Hp0) as (w0 & ? & ? & ?).
        exists w0. rewrite elem_of_app. eauto.
      * destruct (Hnew p Hp Hm) as [? ?]. exists w.
        rewrite elem_of_app, list_elem_of_singleton. eauto.
    + intros w0 r0 Hin Hs. rewrite zip_with_app in Hin by exact Hlen.
      apply elem_of_app in Hin as [Hin|Hin].
      * apply Hsub. by eapply IH4.
      * simpl in Hin. apply list_elem_of_singleton in Hin.
        injection Hin as -> ->. by apply Hcop.
Qed.

(** A second run on a destination that holds what a first run without
    errors left. *)
Lemma rerun_folders_inv mk copy mk' copy' (walk : list walked)
    (dest0 : gset string) :
  ∀ dest summary,
  loop mk copy walk dest0 = Some (dest, summary) →
  Forall (λ r, is_error r = false) summary →
  (∀ w, w ∈ taken k walk → complete upper k w →
     mk' (tgt (basename (root w))) = false) →
  ∀ D, dest ⊆ D →
  loop mk' copy' walk D = Some (D, settled <$> summary).
Proof.
  induction walk as [|w walk IH] using rev_ind;
    intros dest summary E Herr Hmk' D HD.
  - by injection E as <- <-.
  - rewrite transfer_loop_snoc in E. rewrite transfer_loop_snoc.
    rewrite taken_snoc in Hmk'.
    destruct (loop mk copy walk dest0) as [[dm sm]|] eqn:Em; [| done].
    simpl in E.
    pose proof (process_spec mk copy dm sm w) as Hp. rewrite E in Hp.
    destruct (skipped w) eqn:Hskip.
    { destruct Hp as [-> ->].
      rewrite (IH dm sm eq_refl Herr) with (D := D); [| | done].
      - simpl. unfold process. by rewrite Hskip.
      - intros w0 Hin. apply Hmk'. rewrite app_nil_r. done. }
    destruct Hp as (r & -> & Hd & Hsub & Hmade & _ & _ & Hok).
    apply Forall_app in Herr as [Herr1 Herr2].
    inversion Herr2 as [|? ? Hr _]; subst.
    rewrite (IH dm sm eq_refl Herr1) with (D := D); [| | set_solver].
    2:{ intros w0 Hin. apply Hmk'. apply elem_of_app. by left. }
    simpl. rewrite fmap_app. simpl.
    unfold process in E |- *. rewrite Hskip in E |- *.
    destruct (decide (Classifier.missing upper (required k) (files w) = []))
      as [Hc|Hc];
      [rewrite (bool_decide_eq_true_2 _ Hc) in E |- *
      | rewrite (bool_decide_eq_false_2 _ Hc) in E |- *].
    + destruct (Hmade Hc) as [Hmk Hdirs]. rewrite Hmk in E.
      rewrite (Hmk' w) by (try done; apply elem_of_app; right; by left).
      rewrite (add_dirs_there _ D) by set_solver.
      rewrite decide_True by (pose proof (Hok Hr Hc); set_solver).
      f_equal. f_equal. f_equal. f_equal.
      destruct (decide _) in E.
      * injection E as _ E. apply app_inv_head in E.
        injection E as <-. reflexivity.
      * destruct (copy _ _) as [|msg left].
        -- injection E as _ E. apply app_inv_head in E.
           injection E as <-. reflexivity.
        -- injection E as _ E. apply app_inv_head in E.
           injection E as <-. vm_compute in Hr. discriminate Hr.
    + injection E as _ E. apply app_inv_head in E. injection E as <-.
      reflexivity.
Qed.

End folder_transfer_facts.

(** X17. A folder transfer ends before its loop, with no summary, exactly
    when its test before the loop finds nothing to copy; it is left
    without a summary when [os.makedirs] raises for the target of a
    complete folder that it takes; otherwise it reaches its summary.
    The summary has one row per walked folder that holds files (and, for
    RGB, has "-P1" in its name), in walk order, with the folder's name
    and number of files; a folder lacking a required type gets plot
    "UNKNOWN" and a status listing exactly the missing types, any other
    folder its plot id and one of the three copy statuses. The
    destination only grows: for every complete folder the target folder
    and the folders above it exist afterwards, every new path is the
    destination folder of a complete folder or one of the folders that
    [os.makedirs] made for it, and a folder reported as "Copied" or
    "Already exists" is in the destination afterwards. *)
Theorem transfer_folders_spec (upper : string → string)
    (k : FolderTransfer.kind) (source_folder base today : string)
    (makedirs_raises : string → bool)
    (copy : string → string → FolderTransfer.tree_result)
    (walk : list FolderTransfer.walked) (dest0 : gset string) :
  let target w :=
    FolderTransfer.target_path k base today
      (FolderTransfer.basename (FolderTransfer.root w)) in
  let dest_folder w :=
    FolderTransfer.dest_folder k base today
      (FolderTransfer.basename (FolderTransfer.root w)) in
  let taken := FolderTransfer.taken k walk in
  match FolderTransfer.transfer_folders upper k source_folder base today
          makedirs_raises copy walk dest0 with
  | FolderTransfer.NothingToCopy =>
      FolderTransfer.something_to_copy k source_folder walk = false
  | FolderTransfer.MakedirsRaised =>
      FolderTransfer.something_to_copy k source_folder walk = true
      ∧ ∃ w, w ∈ taken ∧ FolderTransferSpec.complete upper k w
             ∧ makedirs_raises (target w) = true
  | FolderTransfer.Summary dest summary =>
      FolderTransfer.something_to_copy k source_folder walk = true
      ∧ (∀ w, w ∈ taken → FolderTransferSpec.complete upper k w →
           makedirs_raises (target w) = false
           ∧ list_to_set (Packer.made_dirs (target w)) ⊆ dest)
      ∧ Forall2 (FolderTransferSpec.describes upper k) taken summary
      ∧ dest0 ⊆ dest
      ∧ (∀ p, p ∈ dest → p ∉ dest0 →
           ∃ w, w ∈ taken ∧ FolderTransferSpec.complete upper k w
                ∧ (p = dest_folder w ∨ p ∈ Packer.made_dirs (target w)))
      ∧ (∀ w r, (w, r) ∈ zip taken summary →
           FolderTransfer.r_copy_status r = "Copied"
           ∨ FolderTransfer.r_copy_status r = "Already exists" →
           dest_folder w ∈ dest)
  end.
Proof.
  cbv zeta. unfold FolderTransfer.transfer_folders.
  destruct (FolderTransfer.something_to_copy k source_folder walk); [| done].
  pose proof (transfer_loop_spec upper k base today makedirs_raises copy
                walk dest0) as H.
  destruct (FolderTransfer.transfer_loop _ _ _ _ _ _ _ _) as [[dest summary]|].
  - split; [done | exact H].
  - split; [done | exact H].
Qed.

(** X18. After a folder transfer that reached its summary and in which no
    copy raised, a second run over the same card on the same day, on the
    destination the first run left, with [os.makedirs] not raising for
    the targets it meets again, copies nothing whatever
    [copy_with_speed] would do: the destination is unchanged, every
    folder reported as "Copied" is now reported as "Already exists",
    every other row is repeated as it was, and no row says "Copied". A
    transfer that ended before its loop ends there again. *)
Theorem folder_transfer_rerun (upper : string → string)
    (k : FolderTransfer.kind) (source_folder base today : string)
    (makedirs_raises makedirs_raises' : string → bool)
    (copy copy' : string → string → FolderTransfer.tree_result)
    (walk : list FolderTransfer.walked) (dest0 : gset string) :
  let first :=
    FolderTransfer.transfer_folders upper k source_folder base today
      makedirs_raises copy walk dest0 in
  let second :=
    FolderTransfer.transfer_folders upper k source_folder base today
      makedirs_raises' copy' walk in
  (first = FolderTransfer.NothingToCopy →
   ∀ D, second D = FolderTransfer.NothingToCopy)
  ∧ ∀ dest summary,
      first = FolderTransfer.Summary dest summary →
      Forall (λ r, FolderTransferSpec.is_error r = false) summary →
      (∀ w, w ∈ FolderTransfer.taken k walk →
         FolderTransferSpec.complete upper k w →
         makedirs_raises'
           (FolderTransfer.target_path k base today
              (FolderTransfer.basename (FolderTransfer.root w))) = false) →
      second dest
      = FolderTransfer.Summary dest (FolderTransferSpec.settled <$> summary)
      ∧ Forall (λ r, FolderTransfer.r_copy_status r ≠ "Copied")
          (FolderTransferSpec.settled <$> summary)
      ∧ FolderTransfer.r_folder <$> (FolderTransferSpec.settled <$> summary)
        = FolderTransfer.r_folder <$> summary.
Proof.
  cbv zeta. unfold FolderTransfer.transfer_folders.
  destruct (FolderTransfer.something_to_copy k source_folder walk).
  2:{ split; [done |]. intros dest summary E. discriminate E. }
  split.
  { intros E. by destruct (FolderTransfer.transfer_loop _ _ _ _ _ _ _ _)
      as [[? ?]|]. }
  intros dest summary E Herr Hmk.
  destruct (FolderTransfer.transfer_loop upper k base today makedirs_raises
              copy walk dest0) as [[d s]|] eqn:Eloop; [| discriminate E].
  injection E as -> ->. split.
  - rewrite (rerun_folders_inv upper k base today makedirs_raises copy
               makedirs_raises' copy' walk dest0 dest summary Eloop Herr Hmk
               dest); done.
  - split.
    + apply Forall_fmap, Forall_forall. intros r _. simpl.
      unfold FolderTransferSpec.settled. case_bool_decide; [discriminate | done].
    + rewrite <- list_fmap_compose. apply list_fmap_ext. intros _ r _. simpl.
      unfold FolderTransferSpec.settled. by case_bool_decide.
Qed.

Lemma folder_transfer_rerun_witness :
  FolderTransfer.transfer_folders Py.upper FolderTransfer.lidar "/sd" "/data"
    "20251111" Fixtures.makedirs_ok FolderFixtures.disk_full
    FolderFixtures.lidar_card FolderFixtures.lidar_dest
  = FolderTransfer.Summary FolderFixtures.lidar_dest
      (FolderTransferSpec.settled <$> FolderFixtures.lidar_rows).
Proof.
  refine (proj1 (proj2 (folder_transfer_rerun Py.upper FolderTransfer.lidar
    "/sd" "/data" "20251111" Fixtures.makedirs_ok Fixtures.makedirs_ok
    FolderFixtures.copies FolderFixtures.disk_full
    FolderFixtures.lidar_card ∅) FolderFixtures.lidar_dest
    FolderFixtures.lidar_rows lidar_transfer_example _ _)).
  - repeat constructor.
  - intros w _ _. reflexivity.
Defined.

(** ** The "-P1" filter *)


(** [needle in s] holds exactly when [s] has [needle] as a substring. *)
Lemma instr_spec (needle s : string) :
  FolderTransfer.instr needle s = true ↔ ∃ a b, s = a +:+ needle +:+ b.
Proof.
  induction s as [|c s IH]; cbn [FolderTransfer.instr].
  - rewrite orb_false_r, prefix_spec. split.
    + intros [r Hr]. by exists "", r.
    + intros (a & b & H). destruct a as [|x a].
      * by exists b.
      * rewrite str_app_cons in H. discriminate.
  - rewrite orb_true_iff, prefix_spec, IH. split.
    + intros [[r Hr]|(a & b & H)].
      * by exists "", r.
      * exists (String c a), b. rewrite str_app_cons. by f_equal.
    + intros (a & b & H). destruct a as [|x a].
      * left. by exists b.
      * right. rewrite str_app_cons in H. injection H as _ H. by exists a, b.
Qed.

Lemma item_m2_snoc (l : list string) (x : string) :
  Py.item_m2 (l ++ [x]) = last l.
Proof.
  unfold Py.item_m2. rewrite reverse_app. simpl.
  destruct l as [|y l] using rev_ind; [done|].
  rewrite reverse_app, last_snoc. reflexivity.
Qed.

(** X19. In the RGB transfer the [IndexError] branch of the plot id is
    never taken: a folder name that passes the "-P1" test has at least
    two hyphen-separated tokens. For a name [a-P1b] with no hyphen in
    [b] the plot id is the text of [a] after its last hyphen. *)
Theorem p1_plot_id_never_falls_back (name : string) :
  FolderTransfer.takes FolderTransfer.p1_rgb name = true →
  (∃ p, Py.item_m2 (Py.split "-" name) = Some p)
  ∧ (∀ a b, name = a +:+ "-P1" +:+ b → Py.contains "-" b = false →
       Some (Classifier.extract_plot_id name) = last (Py.split "-" a)).
Proof.
  simpl. intros H. apply instr_spec in H as (a & b & ->). split.
  - replace (a +:+ "-P1" +:+ b) with (a +:+ String "-" ("P1" +:+ b))
      by (by rewrite !str_app_cons).
    destruct (split_shape "-" (a +:+ String "-" ("P1" +:+ b)))
      as [[Hc _]|(pre & x & l & _ & _ & _ & -> & Hl)].
    + by rewrite contains_app_sep in Hc.
    + rewrite item_m2_snoc. destruct l as [|y l] using rev_ind; [done|].
      rewrite last_snoc. by exists y.
  - intros a' b' -> Hb'. unfold Classifier.extract_plot_id.
    replace (a' +:+ "-P1" +:+ b') with (a' +:+ String "-" ("P1" +:+ b'))
      by (by rewrite !str_app_cons).
    rewrite split_app_sep.
    rewrite (split_no_sep "-" ("P1" +:+ b'))
      by (rewrite contains_app; by rewrite Hb').
    rewrite item_m2_snoc.
    destruct (split_last_spec "-" a') as (x & -> & _). reflexivity.
Qed.

Lemma p1_plot_id_never_falls_back_witness :
  Some (Classifier.extract_plot_id "DJI_202511110930_002-NTAFIN0001-P1")
  = last (Py.split "-" "DJI_202511110930_002-NTAFIN0001").
Proof.
  exact (proj2 (p1_plot_id_never_falls_back
    "DJI_202511110930_002-NTAFIN0001-P1" eq_refl)
    "DJI_202511110930_002-NTAFIN0001" "" eq_refl eq_refl).
Defined.

(** ** The backup loop *)

Section backup_facts.
Import Backup.
Variables primary_dir backup_dir : string.

Lemma sites_snoc (listing : list entry) (e : entry) :
  sites (listing ++ [e])
  = sites listing ++ (if e_isdir e then [e_name e] else []).
Proof.
  unfold sites. rewrite filter_app, fmap_app. f_equal.
  rewrite filter_cons, filter_nil. by destruct (e_isdir e).
Qed.

Lemma backup_loop_snoc copy (listing : list entry) (e : entry) b0 :
  backup_loop primary_dir backup_dir copy (listing ++ [e]) b0
  = step primary_dir backup_dir copy
      (backup_loop primary_dir backup_dir copy listing b0) e.
Proof. unfold backup_loop. apply foldl_snoc. Qed.

(** [os.path.join(backup_dir, name)] separates the names of a listing: a
    name of a directory entry is not empty and holds no separator. *)
Lemma site_dst_inj (a b : string) :
  String.prefix "/" a = false → String.prefix "/" b = false →
  site_dst backup_dir a = site_dst backup_dir b → a = b.
Proof.
  intros Ha Hb. unfold site_dst, Packer.join2. rewrite Ha, Hb.
  destruct (bool_decide (backup_dir = "") || Py.endswith backup_dir "/").
  - induction backup_dir as [|c s IH]; [done|].
    rewrite !str_app_cons. intros H. injection H as H. by apply IH.
  - induction backup_dir as [|c s IH].
    + intros H. by injection H.
    + rewrite !str_app_cons. intros H. injection H as H. by apply IH.
Qed.


Lemma filter_snoc_length (P : string → Prop) `{∀ x, Decision (P x)}
    (l : list string) (x : string) :
  length (filter P (l ++ [x]))
  = length (filter P l) + (if decide (P x) then 1 else 0).
Proof.
  rewrite filter_app, length_app, filter_cons, filter_nil.
  by destruct (decide (P x)).
Qed.

(** X20. The three counters of the backup loop add up to the number of
    directory entries of the listing; entries that are no directories are
    passed over. The backup only grows, and every new path is the
    destination of a listed site. With the distinct names of a listing,
    the sites counted as skipped are exactly the sites whose destination
    existed before the run: such a site is never copied, whatever it
    holds. *)
Theorem backup_loop_counts copy (listing : list entry) (b0 : gset string) :
  let c := backup_loop primary_dir backup_dir copy listing b0 in
  success_count c + skip_count c + error_count c = length (sites listing)
  ∧ b0 ⊆ backup c
  ∧ (∀ p, p ∈ backup c →
       p ∈ b0 ∨ ∃ s, s ∈ sites listing ∧ p = site_dst backup_dir s)
  ∧ (NoDup (sites listing) →
     Forall (λ s, String.prefix "/" s = false) (sites listing) →
     skip_count c
     = length (filter (λ s, site_dst backup_dir s ∈ b0) (sites listing))).
Proof.
  induction listing as [|e listing IH] using rev_ind.
  - simpl. repeat split; try done. intros p Hp. by left.
  - cbv zeta in *. rewrite backup_loop_snoc, sites_snoc.
    destruct IH as (IH1 & IH2 & IH3 & IH4).
    set (cm := backup_loop primary_dir backup_dir copy listing b0) in *.
    unfold step. destruct (e_isdir e); simpl.
    2:{ rewrite app_nil_r. done. }
    assert (Hskip : NoDup (sites listing ++ [e_name e]) →
      Forall (λ s, String.prefix "/" s = false) (sites listing ++ [e_name e]) →
      skip_count cm
      = length (filter (λ s, site_dst backup_dir s ∈ b0) (sites listing))
      ∧ (site_dst backup_dir (e_name e) ∈ backup cm
         ↔ site_dst backup_dir (e_name e) ∈ b0)).
    { intros Hnd Hns. apply NoDup_app in Hnd as (Hnd & Hfresh & _).
      apply Forall_app in Hns as [Hns Hne].
      split; [by apply IH4|]. split; [|set_solver].
      intros Hin. destruct (IH3 _ Hin) as [?|(s & Hs & Heq)]; [done|].
      exfalso. apply (Hfresh s Hs). apply list_elem_of_singleton.
      symmetry. apply (site_dst_inj (e_name e) s); [|by eapply Forall_forall in Hns|done].
      by inversion Hne. }
    rewrite length_app. simpl.
    destruct (decide (site_dst backup_dir (e_name e) ∈ backup cm)) as [Hin|Hnin];
      simpl.
    + split; [lia|]. split; [done|]. split.
      * intros p Hp. destruct (IH3 p Hp) as [?|(s & ? & ?)]; [by left|].
        right. exists s. rewrite elem_of_app. eauto.
      * intros Hnd Hns. destruct (Hskip Hnd Hns) as [-> Hiff].
        rewrite filter_snoc_length. rewrite decide_True by (by apply Hiff).
        reflexivity.
    + assert (Hnew : ∀ p, p ∈ Packer.add_path (site_dst backup_dir (e_name e))
                                (backup cm) →
        p ∈ b0 ∨ ∃ s, s ∈ sites listing ++ [e_name e]
                      ∧ p = site_dst backup_dir s).
      { intros p Hp. rewrite add_path_union in Hp.
        apply elem_of_union in Hp as [Hp|Hp].
        - apply elem_of_singleton in Hp. right. exists (e_name e).
          rewrite elem_of_app, list_elem_of_singleton. eauto.
        - destruct (IH3 p Hp) as [?|(s & ? & ?)]; [by left|].
          right. exists s. rewrite elem_of_app. eauto. }
      assert (Hold : ∀ p, p ∈ backup cm →
        p ∈ b0 ∨ ∃ s, s ∈ sites listing ++ [e_name e]
                      ∧ p = site_dst backup_dir s).
      { intros p Hp. destruct (IH3 p Hp) as [?|(s & ? & ?)]; [by left|].
        right. exists s. rewrite elem_of_app. eauto. }
      assert (Hsk : NoDup (sites listing ++ [e_name e]) →
        Forall (λ s, String.prefix "/" s = false)
          (sites listing ++ [e_name e]) →
        skip_count cm
        = length (filter (λ s, site_dst backup_dir s ∈ b0)
                    (sites listing ++ [e_name e]))).
      { intros Hnd Hns. destruct (Hskip Hnd Hns) as [-> Hiff].
        rewrite filter_snoc_length.
        rewrite decide_False by (intros ?; by apply Hnin, Hiff). lia. }
      destruct (copy _ _) as [|msg left]; simpl.
      * split; [lia|]. split; [rewrite add_path_union; set_solver|].
        split; [exact Hnew|exact Hsk].
      * split; [lia|]. destruct left.
        -- split; [rewrite add_path_union; set_solver|].
           split; [exact Hnew|exact Hsk].
        -- split; [done|]. split; [exact Hold|exact Hsk].
Qed.


End backup_facts.


(** ** The SET assignment loop *)

Example assign_example :
  Assignment.assign {["0000SET" := ["000"; "001"]; "0001SET" := ["002"]]}
    {["0000SET" := ["000"]]}
    ["NTAFIN0001"; "BACK"; "nowhere"; "NTAFIN0002"; "BACK"; "BACK";
     "SAAFLB0030"; "SAAFLB0031"; "PROCEED"]
  = Assignment.Done
      [("0000SET", Pipeline.Assignment "SAAFLB0030" ["000"; "001"]);
       ("0001SET", Pipeline.Assignment "SAAFLB0031" ["002"])]
      ["PROCEED"].
Proof. vm_compute. reflexivity. Qed.

Lemma BACK_not_a_site : "BACK" ∉ Assignment.SITE_DATABASE.
Proof. apply (bool_decide_unpack _). vm_compute. reflexivity. Qed.

Lemma sorted_set_NoDup (l : list string) : NoDup (Assignment.sorted_set l).
Proof.
  unfold Assignment.sorted_set, Pipeline.sorted_strings.
  rewrite sort_by_perm. apply NoDup_elements.
Qed.

Lemma dict_set_fresh {V} (k : string) (v : V) (d : list (string * V)) :
  k ∉ d.*1 → Assignment.dict_set k v d = d ++ [(k, v)].
Proof.
  induction d as [|[k' v'] d IH]; intros Hk; simpl; [done|].
  rewrite fmap_cons, not_elem_of_cons in Hk. destruct Hk as [Hne Hk].
  rewrite decide_False by done. by rewrite IH.
Qed.

Lemma dict_del_fresh {V} (k : string) (d : list (string * V)) :
  k ∉ d.*1 → Assignment.dict_del k d = d.
Proof.
  induction d as [|[k' v'] d IH]; intros Hk; [done|].
  rewrite fmap_cons, not_elem_of_cons in Hk. destruct Hk as [Hne Hk].
  unfold Assignment.dict_del in *. rewrite filter_cons. simpl.
  rewrite decide_True by done. by rewrite IH.
Qed.

Lemma dict_del_last {V} (k : string) (v : V) (d : list (string * V)) :
  k ∉ d.*1 → Assignment.dict_del k (d ++ [(k, v)]) = d.
Proof.
  intros Hk. unfold Assignment.dict_del. rewrite filter_app.
  change (filter (λ kv : string * V, kv.1 ≠ k) d)
    with (Assignment.dict_del k d).
  rewrite dict_del_fresh by done. rewrite filter_cons, filter_nil. simpl.
  rewrite decide_False by (intros H; by apply H). apply app_nil_r.
Qed.

Section assignment_facts.
Import Assignment.
Variables red_set_folders blue_set_folders : gmap string (list string).

Local Notation all := (all_set_folders red_set_folders blue_set_folders).
Local Notation numbered := (all_numbered red_set_folders blue_set_folders).
Local Notation loop := (assign_loop red_set_folders blue_set_folders).
Local Notation assigned :=
  (AssignmentSpec.assigned red_set_folders blue_set_folders).

Lemma all_NoDup : NoDup all.
Proof. apply sorted_set_NoDup. Qed.

Lemma take_S_lookup (i : nat) (x : string) :
  all !! i = Some x → take (S i) all = take i all ++ [x].
Proof. intros H. by apply take_S_r. Qed.

Lemma lookup_not_in_take (i : nat) (x : string) :
  all !! i = Some x → x ∉ take i all.
Proof.
  intros H Hin. apply list_elem_of_lookup in Hin as [j Hj].
  apply lookup_take_Some in Hj as [Hj Hlt].
  pose proof (NoDup_lookup _ _ _ _ all_NoDup H Hj). lia.
Qed.

Lemma ask_again_spec (p : string) (inputs : list string) :
  match ask_again p inputs with
  | None => True
  | Some (q, rest) =>
      (q ∈ SITE_DATABASE ∨ q = "BACK")
      ∧ length rest ≤ length inputs
      ∧ rest `suffix_of` inputs
  end.
Proof.
  revert p. induction inputs as [|x inputs IH]; intros p; simpl.
  - destruct (decide _); [|done]. split; [by left|]. split; [simpl; lia|done].
  - destruct (decide (p ∈ SITE_DATABASE)).
    + split; [by left|]. split; [simpl; lia|done].
    + destruct (decide (x = "BACK")) as [->|Hx].
      * split; [by right|]. split; [lia|]. by apply suffix_cons_r.
      * specialize (IH x). destruct (ask_again x inputs) as [[q rest]|]; [|done].
        destruct IH as (? & ? & ?). split; [done|]. split; [lia|].
        by apply suffix_cons_r.
Qed.

Lemma go_back_assigned (i : nat) sa :
  assigned i sa →
  assigned (go_back red_set_folders blue_set_folders i sa).1
           (go_back red_set_folders blue_set_folders i sa).2.
Proof.
  intros (Hk & Hi & Hg). unfold go_back.
  destruct (decide (0 < i)) as [Hpos|]; [|done].
  destruct i as [|i]; [lia|]. replace (S i - 1) with i by lia.
  destruct (lookup_lt_is_Some_2 all i ltac:(lia)) as [prev Hprev].
  rewrite Hprev. simpl.
  rewrite (take_S_lookup i prev Hprev) in Hk.
  destruct sa as [|[k v] sa _] using rev_ind.
  { symmetry in Hk. by apply app_nil in Hk as [_ ?]. }
  rewrite fmap_app in Hk. simpl in Hk.
  apply app_inj_tail in Hk as [Hk ->].
  apply Forall_app in Hg as [Hg _].
  rewrite dict_del_last
    by (rewrite Hk; by apply lookup_not_in_take).
  split; [done|]. split; [lia|done].
Qed.

Lemma assign_assigned (i : nat) sa (sf p : string) :
  assigned i sa → all !! i = Some sf → p ∈ SITE_DATABASE →
  dict_set sf (Pipeline.Assignment p (numbered sf)) sa
  = sa ++ [(sf, Pipeline.Assignment p (numbered sf))]
  ∧ assigned (i + 1) (sa ++ [(sf, Pipeline.Assignment p (numbered sf))]).
Proof.
  intros (Hk & Hi & Hg) Hsf Hp. split.
  - apply dict_set_fresh. rewrite Hk. by apply lookup_not_in_take.
  - replace (i + 1) with (S i) by lia. split.
    + rewrite fmap_app, Hk. simpl. by rewrite (take_S_lookup i sf).
    + split; [by apply lookup_lt_Some in Hsf|].
      apply Forall_app. split; [exact Hg|].
      constructor; [|constructor]. split; [exact Hp|reflexivity].
Qed.

(** The loop invariant, and termination: with more turns than lines the
    loop ends or the stream does. *)
Lemma assign_loop_inv (fuel : nat) :
  ∀ i sa inputs, assigned i sa → length inputs < fuel →
  match loop fuel i sa inputs with
  | Done sa' rest => assigned (length all) sa' ∧ rest `suffix_of` inputs
  | Eof => True
  | OutOfFuel => False
  end.
Proof.
  induction fuel as [|fuel IH]; intros i sa inputs Hinv Hlen; [lia|].
  simpl. destruct (all !! i) as [sf|] eqn:Hsf.
  2:{ split; [|done]. apply lookup_ge_None in Hsf.
      destruct Hinv as (Hk & Hi & Hg).
      replace (length all) with i by lia. done. }
  destruct inputs as [|x rest]; [done|]. simpl in Hlen.
  assert (Hback : ∀ rest', length rest' ≤ length rest →
    rest' `suffix_of` rest →
    match (let '(i0, sa0) := go_back red_set_folders blue_set_folders i sa in
           loop fuel i0 sa0 rest') with
    | Done sa' r => assigned (length all) sa' ∧ r `suffix_of` x :: rest
    | Eof => True
    | OutOfFuel => False
    end).
  { intros rest' Hl Hsuf. pose proof (go_back_assigned i sa Hinv) as Hb.
    destruct (go_back red_set_folders blue_set_folders i sa) as [i0 sa0].
    simpl in Hb. specialize (IH i0 sa0 rest' Hb ltac:(lia)).
    destruct (loop fuel i0 sa0 rest') as [sa' r| |]; [|done|done].
    destruct IH as [? ?]. split; [done|].
    etrans; [eassumption|]. etrans; [eassumption|]. by apply suffix_cons_r. }
  destruct (decide (x = "BACK")) as [->|Hx]; [by apply Hback|].
  pose proof (ask_again_spec x rest) as Ha.
  destruct (ask_again x rest) as [[q rest']|]; [|done].
  destruct Ha as (Hq & Hl & Hsuf).
  destruct (decide (q = "BACK")) as [->|Hqb]; [by apply Hback|].
  destruct Hq as [Hq|Hq]; [|done].
  destruct (assign_assigned i sa sf q Hinv Hsf Hq) as [-> Hinv'].
  specialize (IH (i + 1) _ rest' Hinv' ltac:(lia)).
  destruct (loop fuel (i + 1) _ rest') as [sa' r| |]; [|done|done].
  destruct IH as [? ?]. split; [done|].
  etrans; [eassumption|]. etrans; [eassumption|]. by apply suffix_cons_r.
Qed.

(** A run without "BACK": one valid plot id per SET folder. *)
Lemma assign_loop_ids (ids : list string) :
  ∀ fuel i sa rest, assigned i sa →
  Forall (λ p, p ∈ SITE_DATABASE) ids →
  i + length ids ≤ length all →
  length ids < fuel →
  loop fuel i sa (ids ++ rest)
  = loop (fuel - length ids) (i + length ids)
      (sa ++ zip_with (λ sf p, (sf, Pipeline.Assignment p (numbered sf)))
               (drop i all) ids)
      rest.
Proof.
  induction ids as [|p ids IH]; intros fuel i sa rest Hinv Hids Hi Hf.
  - simpl. rewrite Nat.sub_0_r, Nat.add_0_r.
    destruct (drop i all); simpl; by rewrite app_nil_r.
  - simpl in Hi, Hf. destruct fuel as [|fuel]; [lia|].
    apply Forall_cons in Hids as [Hp Hids].
    destruct (lookup_lt_is_Some_2 all i ltac:(lia)) as [sf Hsf].
    cbn [loop app]. rewrite Hsf.
    rewrite decide_False by (intros ->; by apply BACK_not_a_site).
    assert (Ha : ask_again p (ids ++ rest) = Some (p, ids ++ rest)).
    { destruct ids, rest; simpl; by rewrite decide_True. }
    rewrite Ha.
    rewrite decide_False by (intros ->; by apply BACK_not_a_site).
    destruct (assign_assigned i sa sf p Hinv Hsf Hp) as [-> Hinv'].
    rewrite (IH fuel (i + 1) _ rest Hinv' Hids ltac:(lia) ltac:(lia)).
    rewrite (drop_S all sf i Hsf). simpl.
    rewrite <- app_assoc. simpl.
    replace (i + 1) with (S i) by lia. f_equal; lia.
Qed.

Lemma assigned_start : assigned 0 [].
Proof. split; [by rewrite take_0|]. split; [lia|constructor]. Qed.

Lemma assigned_ids (ids : list string) :
  ∀ i sa, assigned i sa →
  Forall (λ p, p ∈ SITE_DATABASE) ids →
  i + length ids ≤ length all →
  assigned (i + length ids)
    (sa ++ zip_with (λ sf p, (sf, Pipeline.Assignment p (numbered sf)))
             (drop i all) ids).
Proof.
  induction ids as [|p ids IH]; intros i sa Hinv Hids Hi.
  - simpl. rewrite Nat.add_0_r.
    destruct (drop i all); simpl; by rewrite app_nil_r.
  - simpl in Hi. apply Forall_cons in Hids as [Hp Hids].
    destruct (lookup_lt_is_Some_2 all i ltac:(lia)) as [sf Hsf].
    destruct (assign_assigned i sa sf p Hinv Hsf Hp) as [_ Hinv'].
    specialize (IH (i + 1) _ Hinv' Hids ltac:(lia)).
    rewrite (drop_S all sf i Hsf). simpl.
    rewrite <- app_assoc in IH. simpl in IH.
    replace (i + 1) with (S i) in IH by lia.
    replace (i + S (length ids)) with (S i + length ids) by lia.
    exact IH.
Qed.

(** The number of turns allowed plays no part once it exceeds the number
    of lines. *)
Lemma assign_loop_fuel (f1 : nat) :
  ∀ f2 i sa inputs, length inputs < f1 → length inputs < f2 →
  loop f1 i sa inputs = loop f2 i sa inputs.
Proof.
  induction f1 as [|f1 IH]; intros f2 i sa inputs H1 H2; [lia|].
  destruct f2 as [|f2]; [lia|]. simpl.
  destruct (all !! i) as [sf|]; [|done].
  destruct inputs as [|x rest]; [done|]. simpl in H1, H2.
  destruct (decide (x = "BACK")).
  { destruct (go_back red_set_folders blue_set_folders i sa) as [i0 sa0].
    apply IH; lia. }
  pose proof (ask_again_spec x rest) as Ha.
  destruct (ask_again x rest) as [[q rest']|]; [|done].
  destruct Ha as (_ & Hl & _).
  destruct (decide (q = "BACK")).
  { destruct (go_back red_set_folders blue_set_folders i sa) as [i0 sa0].
    apply IH; lia. }
  apply IH; lia.
Qed.

(** One turn that reads "BACK" after the first SET. *)
Lemma assign_loop_back (fuel i : nat) sa (sf : string) a (rest : list string) :
  assigned i sa → all !! i = Some sf → is_Some (all !! (i + 1)) →
  loop (S fuel) (i + 1) (sa ++ [(sf, a)]) ("BACK" :: rest)
  = loop fuel i sa rest.
Proof.
  intros (Hk & _ & _) Hsf [nxt Hnxt]. cbn [assign_loop]. rewrite Hnxt.
  rewrite decide_True by done. unfold go_back.
  rewrite decide_True by lia. replace (i + 1 - 1) with i by lia.
  rewrite Hsf. rewrite dict_del_last; [done|].
  rewrite Hk. by apply lookup_not_in_take.
Qed.

(** A run without "BACK" over all SET folders. *)
Lemma assign_ids_done (ids rest : list string) :
  Forall (λ p, p ∈ SITE_DATABASE) ids →
  length ids = length all →
  assign red_set_folders blue_set_folders (ids ++ rest)
  = Done (zip_with (λ sf p, (sf, Pipeline.Assignment p (numbered sf))) all ids)
      rest.
Proof.
  intros Hids Hlen. unfold assign.
  rewrite (assign_loop_ids ids _ 0 [] rest assigned_start Hids)
    by (rewrite ?length_app; lia).
  rewrite length_app.
  replace (S (length ids + length rest) - length ids)
    with (S (length rest)) by lia.
  simpl. rewrite Hlen.
  rewrite (proj2 (lookup_ge_None _ _)) by lia. reflexivity.
Qed.

End assignment_facts.

(** X22. The SET assignment loop, fed any stream of lines, ends or waits
    for a line that never comes; it cannot go on for ever on a finite
    stream. When it ends, every SET folder is assigned exactly once, in
    sorted order, to a plot id of the site database and with the numbered
    folders of both cameras, however often "BACK" was typed, and it has
    read a prefix of the stream. With one valid plot id per SET folder and
    no "BACK" it assigns them in order and reads nothing more. *)
Theorem assignment_loop_spec
    (red_set_folders blue_set_folders : gmap string (list string))
    (inputs : list string) :
  let all := Assignment.all_set_folders red_set_folders blue_set_folders in
  match Assignment.assign red_set_folders blue_set_folders inputs with
  | Assignment.Done sa rest =>
      sa.*1 = all
      ∧ Forall (λ kv, Pipeline.a_plot_id kv.2 ∈ Assignment.SITE_DATABASE
                      ∧ Pipeline.numbered_folders kv.2
                        = Assignment.all_numbered red_set_folders
                            blue_set_folders kv.1) sa
      ∧ rest `suffix_of` inputs
  | Assignment.Eof => True
  | Assignment.OutOfFuel => False
  end
  ∧ (∀ ids rest,
       Forall (λ p, p ∈ Assignment.SITE_DATABASE) ids →
       length ids = length all →
       Assignment.assign red_set_folders blue_set_folders (ids ++ rest)
       = Assignment.Done
           (zip_with (λ sf p, (sf, Pipeline.Assignment p
                                     (Assignment.all_numbered red_set_folders
                                        blue_set_folders sf)))
              all ids)
           rest).
Proof.
  cbv zeta. split.
  - pose proof (assign_loop_inv red_set_folders blue_set_folders
      (S (length inputs)) 0 [] inputs
      (assigned_start red_set_folders blue_set_folders) ltac:(lia)) as H.
    unfold Assignment.assign.
    destruct (Assignment.assign_loop _ _ _ _ _ _) as [sa rest| |];
      [|done|done].
    destruct H as ((Hk & _ & Hg) & Hsuf).
    rewrite firstn_all in Hk. done.
  - intros ids rest Hids Hlen. by apply assign_ids_done.
Qed.

(** X23. In the assignment loop "BACK" takes back the assignment just
    made: after valid plot ids for the first SET folders, a further
    valid id followed by "BACK" leaves the loop as if neither line had
    been typed. This holds unless the id was for the last SET folder:
    then the loop has ended and "BACK" is left unread. At the first
    SET folder "BACK" is read and changes nothing. *)
Theorem back_takes_back_assignment
    (red_set_folders blue_set_folders : gmap string (list string))
    (ids : list string) (p : string) (rest : list string) :
  let all := Assignment.all_set_folders red_set_folders blue_set_folders in
  let assign := Assignment.assign red_set_folders blue_set_folders in
  Forall (λ p, p ∈ Assignment.SITE_DATABASE) ids →
  p ∈ Assignment.SITE_DATABASE →
  (length ids + 1 < length all →
   assign (ids ++ p :: "BACK" :: rest) = assign (ids ++ rest))
  ∧ (length ids + 1 = length all →
     ∃ sa, assign (ids ++ p :: "BACK" :: rest)
           = Assignment.Done sa ("BACK" :: rest))
  ∧ (0 < length all → assign ("BACK" :: rest) = assign rest).
Proof.
  cbv zeta. intros Hids Hp.
  pose proof (assigned_start red_set_folders blue_set_folders) as H0.
  split; [|split].
  - intros Hlen. unfold Assignment.assign.
    rewrite (assign_loop_ids red_set_folders blue_set_folders ids _ 0 [] _
      H0 Hids) by (rewrite ?length_app; simpl; lia).
    rewrite (assign_loop_ids red_set_folders blue_set_folders ids _ 0 [] rest
      H0 Hids) by (rewrite ?length_app; simpl; lia).
    pose proof (assigned_ids red_set_folders blue_set_folders ids 0 [] H0 Hids
      ltac:(lia)) as H1.
    rewrite !Nat.add_0_l, !app_nil_l in *. rewrite !length_app.
    cbn [length].
    set (sa := zip_with _ _ ids) in *.
    destruct (lookup_lt_is_Some_2
      (Assignment.all_set_folders red_set_folders blue_set_folders)
      (length ids) ltac:(lia)) as [sf Hsf].
    replace (S (length ids + S (S (length rest))) - length ids)
      with (S (S (S (length rest)))) by lia.
    replace (S (length ids + length rest) - length ids)
      with (S (length rest)) by lia.
    pose proof (assign_loop_ids red_set_folders blue_set_folders [p]
      (S (S (S (length rest)))) (length ids) sa ("BACK" :: rest) H1
      ltac:(by repeat constructor) ltac:(simpl; lia) ltac:(simpl; lia)) as E.
    rewrite (drop_S _ sf _ Hsf) in E.
    cbn [Nat.sub length app zip_with] in E. rewrite zip_with_nil_r in E.
    rewrite E.
    rewrite (assign_loop_back red_set_folders blue_set_folders _ (length ids)
      sa sf _ rest H1 Hsf) by (apply lookup_lt_is_Some_2; lia).
    apply assign_loop_fuel; lia.
  - intros Hlen.
    replace (ids ++ p :: "BACK" :: rest)
      with ((ids ++ [p]) ++ "BACK" :: rest) by (by rewrite <- app_assoc).
    eexists.
    apply assign_ids_done.
    + apply Forall_app. split; [done|]. by repeat constructor.
    + rewrite length_app. simpl. lia.
  - intros Hlen. unfold Assignment.assign. cbn [length].
    destruct (lookup_lt_is_Some_2
      (Assignment.all_set_folders red_set_folders blue_set_folders)
      0 ltac:(lia)) as [sf Hsf].
    set (r := Assignment.assign_loop _ _ (S (length rest)) 0 [] rest).
    cbn [Assignment.assign_loop]. rewrite Hsf.
    rewrite decide_True by done. unfold Assignment.go_back.
    rewrite decide_False by lia. reflexivity.
Qed.

Lemma back_takes_back_assignment_witness :
  Assignment.assign
    {["0000SET" := ["000"]; "0001SET" := ["001"]]} {["0000SET" := ["000"]]}
    ["NTAFIN0001"; "BACK"; "SAAFLB0030"; "SAAFLB0031"]
  = Assignment.assign
      {["0000SET" := ["000"]; "0001SET" := ["001"]]} {["0000SET" := ["000"]]}
      ["SAAFLB0030"; "SAAFLB0031"].
Proof.
  refine (proj1 (back_takes_back_assignment
    {["0000SET" := ["000"]; "0001SET" := ["001"]]} {["0000SET" := ["000"]]}
    [] "NTAFIN0001" ["SAAFLB0030"; "SAAFLB0031"] (Forall_nil_2 _) _) _).
  - apply (bool_decide_unpack _). vm_compute. reflexivity.
  - vm_compute. lia.
Defined.

(** ** The navigation loop *)

Lemma next_step_facts (s : nat) (a : bool) :
  1 ≤ s ≤ 6 →
  1 ≤ Navigation.next_step s a ≤ 7
  ∧ (s = Navigation.next_step s a
     ∨ s + 1 = Navigation.next_step s a
     ∨ Navigation.next_step s a + 1 = s)
  ∧ Navigation.next_step s a ≤ s + 1
  ∧ (Navigation.next_step s a = 7 → s = 6).
Proof.
  intros Hs.
  destruct s as [|[|[|[|[|[|[|s]]]]]]]; try lia; destruct a; simpl; lia.
Qed.

Lemma main_loop_unfold (s : nat) (a : bool) (answers : list bool) :
  1 ≤ s ≤ 6 →
  Navigation.main_loop s (a :: answers)
  = match Navigation.main_loop (Navigation.next_step s a) answers with
    | Navigation.Finished trace rest' => Navigation.Finished (s :: trace) rest'
    | Navigation.Waiting trace => Navigation.Waiting (s :: trace)
    | Navigation.Spins => Navigation.Spins
    end.
Proof.
  intros Hs. destruct s as [|[|[|[|[|[|[|s]]]]]]]; try lia; reflexivity.
Qed.

Lemma main_loop_inv (answers : list bool) :
  ∀ s, 1 ≤ s ≤ 7 →
  match Navigation.main_loop s answers with
  | Navigation.Finished trace rest =>
      head trace = Some s
      ∧ (∃ pre, trace = pre ++ [7] ∧ 7 ∉ pre
                ∧ (s ≠ 7 → last pre = Some 6)
                ∧ (∀ k, s ≤ k ≤ 6 → k ∈ pre))
      ∧ Navigation.stepwise trace
      ∧ length trace + length rest = length answers + 1
  | Navigation.Waiting trace =>
      head trace = Some s
      ∧ 7 ∉ trace
      ∧ Navigation.stepwise trace
      ∧ length trace = length answers + 1
  | Navigation.Spins => False
  end.
Proof.
  assert (H7 : ∀ l, match Navigation.main_loop 7 l with
    | Navigation.Finished trace rest =>
        head trace = Some 7
        ∧ (∃ pre, trace = pre ++ [7] ∧ 7 ∉ pre
                  ∧ (7 ≠ 7 → last pre = Some 6)
                  ∧ (∀ k, 7 ≤ k ≤ 6 → k ∈ pre))
        ∧ Navigation.stepwise trace
        ∧ length trace + length rest = length l + 1
    | Navigation.Waiting trace =>
        head trace = Some 7 ∧ 7 ∉ trace ∧ Navigation.stepwise trace
        ∧ length trace = length l + 1
    | Navigation.Spins => False
    end).
  { intros l. destruct l; simpl.
    - split; [done|]. split; [|done]. exists []. split; [done|].
      split; [set_solver|]. split; [done|]. intros k Hk. lia.
    - split; [done|]. split; [|split; [done|lia]]. exists [].
      split; [done|]. split; [set_solver|]. split; [done|]. intros k Hk. lia. }
  induction answers as [|a answers IH]; intros s Hs.
  - destruct (decide (s = 7)) as [->|Hs7]; [apply H7|].
    destruct s as [|[|[|[|[|[|[|s]]]]]]]; try lia; simpl;
      repeat split; try done; set_solver.
  - destruct (decide (s = 7)) as [->|Hs7]; [apply H7|].
    destruct (next_step_facts s a ltac:(lia)) as (Hn1 & Hn2 & Hn3 & Hn4).
    specialize (IH _ Hn1). rewrite main_loop_unfold by lia.
    destruct (Navigation.main_loop (Navigation.next_step s a) answers)
      as [trace rest|trace|]; [| |done].
    + destruct IH as (Hh & (pre & -> & Hpre & Hlast & Hall) & Hst & Hlen).
      split; [done|]. split.
      * exists (s :: pre). split; [done|].
        split; [by apply not_elem_of_cons|]. split.
        -- intros _. destruct pre as [|b pre].
           ++ simpl in Hh. injection Hh as Hh. symmetry in Hh.
              apply Hn4 in Hh. by subst.
           ++ rewrite last_cons.
              simpl in Hh. injection Hh as ->.
              rewrite Hlast; [done|]. intros E. apply Hpre. rewrite E.
              set_solver.
        -- intros k Hk. destruct (decide (k = s)) as [->|]; [set_solver|].
           apply elem_of_cons. right. apply Hall. lia.
      * split; [|simpl in *; lia].
        destruct (pre ++ [7]) as [|b t] eqn:E; [done|].
        simpl in Hh. injection Hh as ->. done.
    + destruct IH as (Hh & H7' & Hst & Hlen).
      destruct trace as [|b trace]; [done|]. injection Hh as ->.
      split; [done|]. split; [set_solver|]. split; [done|]. simpl in *. lia.
Qed.

(** The part that follows a part is the one that the answer at its
    prompt selects. *)
Lemma main_loop_follows (answers : list bool) :
  ∀ s0, 1 ≤ s0 ≤ 7 →
  let follows (trace : list nat) :=
    ∀ i s a, trace !! i = Some s → answers !! i = Some a → s ≠ 7 →
      trace !! S i
      = Some (if a : bool then s + 1 else if s =? 1 then 1 else s - 1) in
  match Navigation.main_loop s0 answers with
  | Navigation.Finished trace _ => follows trace
  | Navigation.Waiting trace => follows trace
  | Navigation.Spins => True
  end.
Proof.
  cbv zeta.
  induction answers as [|a0 answers IH]; intros s0 Hs.
  - destruct (Navigation.main_loop s0 []); [| | done];
      intros i s a _ Ha; by rewrite lookup_nil in Ha.
  - destruct (decide (s0 = 7)) as [->|Hs7].
    { simpl. intros i s a Hi _ Hne.
      apply list_lookup_singleton_Some in Hi as [_ <-]. done. }
    destruct (next_step_facts s0 a0 ltac:(lia)) as (Hn1 & _).
    pose proof (main_loop_inv answers _ Hn1) as Hinv.
    specialize (IH _ Hn1). rewrite main_loop_unfold by lia.
    assert (Navigation.next_step s0 a0
            = if a0 then s0 + 1 else if s0 =? 1 then 1 else s0 - 1) as Hnext.
    { destruct s0 as [|[|[|[|[|[|[|s0]]]]]]]; try lia; by destruct a0. }
    destruct (Navigation.main_loop (Navigation.next_step s0 a0) answers)
      as [trace rest|trace|]; [| | done].
    + destruct Hinv as (Hh & _). intros [|i] s a Hi Ha Hne.
      * injection Hi as <-. injection Ha as <-.
        destruct trace as [|b t]; [done |]. injection Hh as ->.
        simpl. by f_equal.
      * exact (IH i s a Hi Ha Hne).
    + destruct Hinv as (Hh & _). intros [|i] s a Hi Ha Hne.
      * injection Hi as <-. injection Ha as <-.
        destruct trace as [|b t]; [done |]. injection Hh as ->.
        simpl. by f_equal.
      * exact (IH i s a Hi Ha Hne).
Qed.

(** X24. Whatever the operator answers at the prompts, [main] runs the
    parts stepwise from part 1, each part but the backup followed by
    exactly one prompt whose answer selects the part that runs next:
    PROCEED the following part, BACK the part before, and BACK at part 1
    part 1 again. If the run finishes, the backup ran exactly once, as
    the last part and right after the verification, and every part from
    1 to 6 ran before it at least once; while the prompts are still being
    answered the backup has not run. A turn that runs no part does not
    occur. *)
Theorem backup_runs_last (answers : list bool) :
  let follows (trace : list nat) :=
    ∀ i s a, trace !! i = Some s → answers !! i = Some a → s ≠ 7 →
      trace !! S i
      = Some (if a : bool then s + 1 else if s =? 1 then 1 else s - 1) in
  match Navigation.main answers with
  | Navigation.Finished trace rest =>
      head trace = Some 1
      ∧ (∃ pre, trace = pre ++ [6; 7] ∧ 7 ∉ pre
                ∧ (∀ k, 1 ≤ k ≤ 5 → k ∈ pre))
      ∧ Navigation.stepwise trace
      ∧ follows trace
      ∧ length trace + length rest = length answers + 1
  | Navigation.Waiting trace =>
      head trace = Some 1
      ∧ 7 ∉ trace
      ∧ Navigation.stepwise trace
      ∧ follows trace
      ∧ length trace = length answers + 1
  | Navigation.Spins => False
  end.
Proof.
  cbv zeta.
  pose proof (main_loop_inv answers 1 ltac:(lia)) as H.
  pose proof (main_loop_follows answers 1 ltac:(lia)) as F. cbv zeta in F.
  unfold Navigation.main.
  destruct (Navigation.main_loop 1 answers) as [trace rest|trace|];
    [| destruct H as (? & ? & ? & ?); done | exact H].
  destruct H as (Hh & (pre & -> & Hpre & Hlast & Hall) & Hst & Hlen).
  split; [exact Hh |]. split; [| done].
  specialize (Hlast ltac:(lia)).
  destruct pre as [|b pre _] using rev_ind; [done |].
  rewrite last_snoc in Hlast. injection Hlast as ->.
  exists pre. split; [by rewrite <- app_assoc |].
  split; [set_solver |].
  intros k Hk. specialize (Hall k ltac:(lia)).
  apply elem_of_app in Hall as [?|Hk6]; [done |].
  apply list_elem_of_singleton in Hk6. lia.
Qed.

(** The operator answers BACK at part 1, then PROCEED six times. *)
Example back_at_part_one :
  Navigation.main [false; true; true; true; true; true; true]
  = Navigation.Finished [1; 1; 2; 3; 4; 5; 6; 7] [].
Proof. reflexivity. Qed.

(** ** The folder structure *)

(** X25. The folders the three transfers write into are among the folders
    that [create_folder_structure] makes for the plot on the same day:
    the LiDAR and RGB transfers put a card folder directly below
    [lidar/level0_raw] and [imagery/rgb/level0_raw], the multi-spectral
    transfer puts its numbered folders directly below
    [imagery/multispec/level0_raw]. The structure of a site is made by
    twelve [os.makedirs] calls, the first of them for the site folder. *)
Theorem transfers_write_below_created_folders
    (parent site today : string) :
  let made :=
    FolderStructure.create_directories (Packer.join2 parent site)
      (FolderStructure.structure today) in
  (∀ k folder_name,
     k = FolderTransfer.lidar ∨ k = FolderTransfer.p1_rgb →
     Classifier.extract_plot_id folder_name = site →
     ∃ d, d ∈ made
          ∧ FolderTransfer.dest_folder k parent today folder_name
            = Packer.join2 d folder_name)
  ∧ (∀ n, ∃ d, d ∈ made
               ∧ Packer.target_path parent site today n
                 = Packer.join2 d (Packer.zfill3 n))
  ∧ length made = 12
  ∧ head made = Some (Packer.join2 parent site).
Proof.
  cbv zeta. split; [|split; [|split; reflexivity]].
  - intros k folder_name [->| ->] Hsite;
      unfold FolderTransfer.dest_folder, FolderTransfer.target_path;
      rewrite Hsite; eexists;
      (split; [|reflexivity]); simpl; set_solver.
  - intros n. unfold Packer.target_path. eexists.
    split; [|reflexivity]. simpl. set_solver.
Qed.

Section folder_structure_facts.
Import FolderStructure FolderStructureSpec.
Variables parent_folder today_str : string.
Variable makedirs_raises_at : string → option nat.
Variable existing0 : gset string.

Local Notation loop :=
  (create_loop parent_folder today_str makedirs_raises_at).
Local Notation sound :=
  (sound parent_folder today_str makedirs_raises_at existing0).

Lemma site_path_made (site_path : string) :
  site_path ∈ create_directories site_path (structure today_str).
Proof. unfold create_directories. simpl. set_solver. Qed.

Lemma sound_create (st : state) (site_name : string) :
  sound st →
  site_name ∈ Assignment.SITE_DATABASE →
  Packer.join2 parent_folder site_name ∉ existing st →
  makedirs_raises_at (Packer.join2 parent_folder site_name) = None →
  sound (State
           (existing st
            ∪ list_to_set (create_directories
                             (Packer.join2 parent_folder site_name)
                             (structure today_str)))
           (created st ++ [site_name]) (created_count st + 1)).
Proof.
  intros (Hc & Hnd & Hsub & Hall) Hdb Hnew Hok.
  unfold FolderStructureSpec.sound. cbn [created_count created existing].
  split; [rewrite length_app; simpl; lia|]. split.
  - apply NoDup_app. split; [done|]. split; [|apply NoDup_singleton].
    intros s Hs Hs'. apply list_elem_of_singleton in Hs'. subst s.
    rewrite Forall_forall in Hall.
    destruct (Hall _ Hs) as (_ & _ & _ & Hex).
    apply Hnew, Hex, site_path_made.
  - split; [set_solver|]. apply Forall_app. split.
    + eapply Forall_impl; [exact Hall|]. cbv beta.
      intros s (H1 & H2 & H3 & Hex).
      split; [exact H1|]. split; [exact H2|]. split; [exact H3|].
      intros d Hd. apply elem_of_union. left. apply Hex, Hd.
    + constructor; [|constructor]. split; [exact Hdb|].
      split; [intros Hin; apply Hnew, Hsub, Hin|]. split; [exact Hok|].
      intros d Hd. apply elem_of_union. right.
      by apply elem_of_list_to_set.
Qed.

Lemma sound_raised (st : state) (extra : gset string) :
  sound st →
  sound (State (existing st ∪ extra) (created st) (created_count st)).
Proof.
  intros (Hc & Hnd & Hsub & Hall).
  unfold FolderStructureSpec.sound. cbn [created_count created existing].
  split; [done|]. split; [done|]. split; [set_solver|].
  eapply Forall_impl; [exact Hall|]. cbv beta.
  intros s (H1 & H2 & H3 & Hex).
  split; [exact H1|]. split; [exact H2|]. split; [exact H3|].
  intros d Hd. apply elem_of_union. left. apply Hex, Hd.
Qed.

Lemma create_loop_inv (inputs : list string) :
  ∀ st, sound st →
  match loop inputs st with
  | Some (st', rest) =>
      sound st'
      ∧ existing st ⊆ existing st'
      ∧ ∃ pre, inputs = pre ++ "FINISHED" :: rest ∧ "FINISHED" ∉ pre
  | None => "FINISHED" ∉ inputs
  end.
Proof.
  induction inputs as [|x inputs IH]; intros st Hst; [apply not_elem_of_nil|].
  assert (Hrec : ∀ st1, sound st1 → existing st ⊆ existing st1 →
    x ≠ "FINISHED" →
    match loop inputs st1 with
    | Some (st', rest) =>
        sound st'
        ∧ existing st ⊆ existing st'
        ∧ ∃ pre, x :: inputs = pre ++ "FINISHED" :: rest ∧ "FINISHED" ∉ pre
    | None => "FINISHED" ∉ x :: inputs
    end).
  { intros st1 H1 Hsub Hx. specialize (IH st1 H1).
    destruct (loop inputs st1) as [[st' rest]|].
    - destruct IH as (? & ? & pre & -> & Hpre).
      split; [done|]. split; [set_solver|]. exists (x :: pre).
      split; [done|]. apply not_elem_of_cons. split; [congruence|done].
    - apply not_elem_of_cons. split; [congruence|done]. }
  cbn [create_loop].
  destruct (decide (x = "FINISHED")) as [->|Hx].
  { split; [done|]. split; [done|]. exists []. split; [done|].
    apply not_elem_of_nil. }
  destruct (decide (x = ""));
    [apply Hrec; [exact Hst|reflexivity|exact Hx]|].
  destruct (decide (x ∈ Assignment.SITE_DATABASE)) as [Hdb|];
    [|apply Hrec; [exact Hst|reflexivity|exact Hx]].
  destruct (decide (Packer.join2 parent_folder x ∈ existing st)) as [|Hnew];
    [apply Hrec; [exact Hst|reflexivity|exact Hx]|].
  destruct (makedirs_raises_at (Packer.join2 parent_folder x))
    as [calls|] eqn:Hok.
  - apply Hrec; [apply sound_raised, Hst| |exact Hx].
    cbn [existing]. apply union_subseteq_l.
  - apply Hrec; [apply sound_create; assumption| |exact Hx].
    cbn [existing]. apply union_subseteq_l.
Qed.

End folder_structure_facts.

(** X26. The input loop of [create_folder_structure] ends exactly at the
    first line "FINISHED", and is left waiting when there is none.
    When it ends the printed count is the number of sites whose
    structure was made; each of them is a plot of the site database that
    did not exist under the parent folder before, none was made twice,
    none of its [os.makedirs] calls raised, and all its twelve folders
    exist. Nothing that existed is removed: an existing site, an
    unknown plot id and an empty line are passed over. *)
Theorem create_folder_structure_spec
    (parent_folder today_str : string)
    (makedirs_raises_at : string → option nat)
    (inputs : list string) (existing0 : gset string) :
  match FolderStructure.create_folder_structure parent_folder today_str
          makedirs_raises_at inputs existing0 with
  | Some (st, rest) =>
      (∃ pre, inputs = pre ++ "FINISHED" :: rest ∧ "FINISHED" ∉ pre)
      ∧ FolderStructure.created_count st
        = length (FolderStructure.created st)
      ∧ NoDup (FolderStructure.created st)
      ∧ existing0 ⊆ FolderStructure.existing st
      ∧ Forall (λ s, s ∈ Assignment.SITE_DATABASE
                     ∧ Packer.join2 parent_folder s ∉ existing0
                     ∧ makedirs_raises_at (Packer.join2 parent_folder s)
                       = None
                     ∧ (∀ d, d ∈ FolderStructure.create_directories
                                   (Packer.join2 parent_folder s)
                                   (FolderStructure.structure today_str) →
                             d ∈ FolderStructure.existing st))
          (FolderStructure.created st)
  | None => "FINISHED" ∉ inputs
  end.
Proof.
  unfold FolderStructure.create_folder_structure.
  assert (Hstart : FolderStructureSpec.sound parent_folder today_str
            makedirs_raises_at existing0
            (FolderStructure.State existing0 [] 0)).
  { split; [reflexivity|]. split; [apply NoDup_nil_2|].
    split; [reflexivity|]. constructor. }
  pose proof (create_loop_inv parent_folder today_str makedirs_raises_at
    existing0 inputs _ Hstart) as H.
  destruct (FolderStructure.create_loop _ _ _ inputs _) as [[st rest]|];
    [|exact H].
  destruct H as ((Hc & Hnd & Hsub & Hall) & _ & Hpre).
  split; [exact Hpre|]. split; [exact Hc|]. split; [exact Hnd|].
  split; [exact Hsub|exact Hall].
Qed.

(** ** The order of the bands of one capture *)

Lemma ascii_compare_refl (c : ascii) : Ascii.compare c c = Eq.
Proof. unfold Ascii.compare. apply N.compare_refl. Qed.

Lemma string_compare_app (p a b : string) :
  String.compare (p +:+ a) (p +:+ b) = String.compare a b.
Proof.
  induction p as [|c p IH]; [reflexivity|].
  rewrite !str_app_cons. simpl. by rewrite ascii_compare_refl.
Qed.

Lemma le_app_prefix (p a b : string) :
  String.le a b → String.le (p +:+ a) (p +:+ b).
Proof.
  unfold String.le, String.leb. by rewrite string_compare_app.
Qed.

Lemma band_name_le (base ext : string) (j k : nat) :
  String.le (pretty j +:+ "." +:+ ext) (pretty k +:+ "." +:+ ext) →
  String.le (Naming.band_name base j ext) (Naming.band_name base k ext).
Proof.
  intros H. unfold Naming.band_name.
  apply le_app_prefix. by apply (le_app_prefix "_").
Qed.

(** X27. The sort by file name orders the bands of a capture as strings,
    not by band number: whatever the order in which the eleven files
    [<base>_1.<ext>] to [<base>_11.<ext>] were collected, after the sort
    they stand in the order 1, 10, 11, 2, 3, 4, 5, 6, 7, 8, 9. *)
Theorem bands_sorted_as_strings (base ext : string)
    (l : list Packer.tif_file) :
  Packer.filename <$> l
    ≡ₚ (λ k, Naming.band_name base k ext) <$> seq 1 11 →
  Packer.filename <$> Pipeline.sort_by Packer.filename l
  = (λ k, Naming.band_name base k ext)
      <$> [1; 10; 11; 2; 3; 4; 5; 6; 7; 8; 9].
Proof.
  intros Hl.
  apply (StronglySorted_unique String.le).
  - apply (StronglySorted_fmap _
      (λ a b, String.le (Packer.filename a) (Packer.filename b)));
      [done|apply sort_by_sorted].
  - apply Sorted_StronglySorted; [apply _|].
    repeat (constructor; [|try constructor;
      apply band_name_le; vm_compute; exact I]).
    constructor.
  - rewrite sort_by_perm, Hl. apply fmap_Permutation.
    change (seq 1 11) with ([1] ++ [2; 3; 4; 5; 6; 7; 8; 9] ++ [10; 11]).
    change [1; 10; 11; 2; 3; 4; 5; 6; 7; 8; 9]
      with ([1] ++ [10; 11] ++ [2; 3; 4; 5; 6; 7; 8; 9]).
    apply Permutation_app_head, Permutation_app_comm.
Qed.

Lemma bands_sorted_as_strings_witness :
  Packer.filename <$> Fixtures.series "IMG_0001" 11
  = (λ k, Naming.band_name "IMG_0001" k "tif")
      <$> [1; 10; 11; 2; 3; 4; 5; 6; 7; 8; 9].
Proof.
  exact (bands_sorted_as_strings "IMG_0001" "tif"
    ((λ k, Fixtures.red ("IMG_0001" +:+ "_" +:+ pretty k +:+ ".tif"))
       <$> seq 1 11)
    (reflexivity _)).
Defined.

(** ** The configuration file *)

(** X28. A value saved with [save_config] is what [load_config] reads
    back when the write succeeds, except under the key "last_updated",
    which always reads as the time of the last save. The other keys keep
    their values when the file held a JSON object; when the file was
    missing or could not be read, the save starts from an empty
    configuration, so every other key reads as [None] afterwards. *)
Theorem config_round_trip (key value now : string)
    (file : Config.config_file) :
  file ≠ Config.HoldsOther →
  ∃ file',
    Config.save_config key value now Config.Holds file
    = Config.Returns file'
    ∧ Config.load_config key file'
      = Config.Returns
          (Some (if decide (key = "last_updated") then now else value))
    ∧ Config.load_config "last_updated" file' = Config.Returns (Some now)
    ∧ ∀ k, k ≠ key → k ≠ "last_updated" →
        Config.load_config k file'
        = match file with
          | Config.Holds _ => Config.load_config k file
          | _ => Config.Returns None
          end.
Proof.
  intros Hfile.
  assert (Hkey : ∀ m : gmap string string,
    <["last_updated" := now]> (<[key := value]> m) !! key
    = Some (if decide (key = "last_updated") then now else value)).
  { intros m. destruct (decide (key = "last_updated")) as [->|Hne].
    - apply lookup_insert_eq.
    - rewrite lookup_insert_ne by done. apply lookup_insert_eq. }
  assert (Hother : ∀ (m : gmap string string) k,
    k ≠ key → k ≠ "last_updated" →
    <["last_updated" := now]> (<[key := value]> m) !! k = m !! k).
  { intros m k H1 H2. by rewrite !lookup_insert_ne. }
  destruct file as [|config| |]; [| |done|]; eexists;
    (split; [reflexivity|]); simpl;
    (split; [by rewrite Hkey|]);
    (split; [by rewrite lookup_insert_eq|]);
    intros k H1 H2; by rewrite Hother.
Qed.

Lemma config_round_trip_witness :
  ∃ file',
    Config.save_config "source_folder_l2_sd_card" "/media/sd" "2025-11-11T09:30:00"
      Config.Holds Config.Unreadable
    = Config.Returns file'
    ∧ Config.load_config "parent_folder" file' = Config.Returns None.
Proof.
  destruct (config_round_trip "source_folder_l2_sd_card" "/media/sd"
    "2025-11-11T09:30:00" Config.Unreadable ltac:(discriminate))
    as (file' & Hs & _ & _ & Hk).
  exists file'. split; [exact Hs|].
  apply (Hk "parent_folder"); discriminate.
Defined.
